(** * RaphLoop: the iteration-and-orchestration engine

  A shallow embedding of the TypeScript sources of the RAPH-LOOP module
  (verification manager, protocol state machine, specialist agents,
  multi-agent orchestrator, execution memory) and the properties its
  specification states about them.

  Modelling conventions.
    - A JavaScript [number] that the code uses as a counter, an exit code or
      a timestamp is a [Z]; a [number] that carries a fraction (confidence,
      score, similarity) is an exact rational [Q].  Where the rounding of
      IEEE doubles decides what the code returns, in the scores that
      [selectBestSuggestion] compares, the computation is given a second
      time on binary64 numbers ([score_double],
      [selectBestSuggestion_double]), and the two are shown to agree on
      confidences of two decimals.
    - A [string] is a [String.string]; [toLowerCase] acts on the ASCII
      letters and [\s] is the ASCII white space.
    - An optional field or argument ([x?: T]) is an [option].
    - A call that may throw returns a [Completion]; [try]/[catch] is
      [try_catch].
    - A [Map] is an insertion-ordered association list with unique keys.
    - What a method reads from or writes to the outside (file system,
      child processes) is threaded as a world of an arbitrary type, or
      given as the outcome of the call.
    - Wall-clock fields ([startTime], [elapsedTime], [duration]) and
      console output are left out. *)

From Stdlib Require Import List String Ascii ZArith QArith Lia Lqa Bool.
From Stdlib Require Import Permutation Sorted.
From Stdlib Require PrimFloat Uint63.
Import ListNotations.

Close Scope Q_scope.
Local Open Scope string_scope.
Local Open Scope list_scope.
Local Open Scope Z_scope.

Set Implicit Arguments.

(* ================================================================== *)
(** ** JavaScript values and control *)
(* ================================================================== *)

Module Js.

(** The value a [catch (error: any)] clause receives.  [child_process]
    errors carry [status], [stdout] and [stderr]; every [Error] carries
    a [message]. *)
Record Error : Type := mkError {
  status : option Z;
  stdout : option string;
  stderr : option string;
  message : option string
}.

Definition errorOfMessage (m : string) : Error :=
  mkError None None None (Some m).

(** Result of evaluating something that may throw. *)
Inductive Completion (A : Type) : Type :=
| Normal (a : A)
| Throw (e : Error).
Arguments Normal {A} a.
Arguments Throw {A} e.

Definition bind {A B} (c : Completion A) (k : A -> Completion B)
  : Completion B :=
  match c with
  | Normal a => k a
  | Throw e => Throw e
  end.

(** [try { body } catch (error) { handler }] *)
Definition try_catch {A} (body : Completion A)
  (handler : Error -> Completion A) : Completion A :=
  match body with
  | Normal a => Normal a
  | Throw e => handler e
  end.

(** [x || d] on a possibly missing number: [undefined], [null] and [0]
    are falsy. *)
Definition num_or (x : option Z) (d : Z) : Z :=
  match x with
  | Some n => if n =? 0 then d else n
  | None => d
  end.

(** Truthiness of a possibly missing string: [undefined] and [''] are
    falsy. *)
Definition truthy_str (x : option string) : bool :=
  match x with
  | Some EmptyString => false
  | Some _ => true
  | None => false
  end.

(** [x || y] on possibly missing strings. *)
Definition str_or (x y : option string) : option string :=
  if truthy_str x then x else y.

(** [x || 'literal'] *)
Definition str_or_lit (x : option string) (d : string) : string :=
  match x with
  | Some EmptyString => d
  | Some s => s
  | None => d
  end.

(** Comparisons of fractional numbers. *)
Definition Qltb (a b : Q) : bool := negb (Qle_bool b a).
Definition Qgtb (a b : Q) : bool := Qltb b a.

Definition Math_min (a b : Q) : Q := if Qle_bool a b then a else b.
Definition Math_max (a b : Q) : Q := if Qle_bool a b then b else a.

(** [Math.max(lo, Math.min(hi, x))] *)
Definition clamp (lo hi x : Q) : Q := Math_max lo (Math_min hi x).





(** [Array.prototype.sort(compare)].  The sort is stable (ECMAScript 2019),
    so for a comparator that is a total preorder the result is the one of
    any stable sort; insertion from the right is the simplest of them.
    [compare a b <= 0] keeps [a] in front of [b]. *)
Section Sort.
Context {A : Type} (compare : A -> A -> Q).

Fixpoint sort_insert (x : A) (l : list A) : list A :=
  match l with
  | [] => [x]
  | y :: l' =>
      if Qle_bool (compare x y) 0 then x :: y :: l'
      else y :: sort_insert x l'
  end.

Definition sort (l : list A) : list A :=
  fold_right sort_insert [] l.
End Sort.

(** Largest [key] first. *)
Definition descending {A} (key : A -> Q) (a b : A) : Prop :=
  (key b <= key a)%Q.

(** [Array.prototype.slice(0, end)] for an integral [end]: a negative
    [end] counts from the back. *)
Definition slice0 {A} (l : list A) (e : Z) : list A :=
  let len := Z.of_nat (List.length l) in
  let final := if e <? 0 then Z.max (len + e) 0 else Z.min e len in
  firstn (Z.to_nat final) l.

(** The last element of an array, if any. *)
Fixpoint lastOf {A} (l : list A) : option A :=
  match l with
  | [] => None
  | x :: l' =>
      match lastOf l' with
      | Some y => Some y
      | None => Some x
      end
  end.

(** [Subsequence l1 l2]: [l1] is [l2] with some elements left out, the
    others in their order. *)
Inductive Subsequence {A} : list A -> list A -> Prop :=
| Subsequence_nil : Subsequence [] []
| Subsequence_skip (x : A) (l1 l2 : list A) :
    Subsequence l1 l2 -> Subsequence l1 (x :: l2)
| Subsequence_take (x : A) (l1 l2 : list A) :
    Subsequence l1 l2 -> Subsequence (x :: l1) (x :: l2).

(** A test for [Subsequence], given a test for equality. *)
Fixpoint subsequenceb {A} (eqb : A -> A -> bool) (l1 l2 : list A) : bool :=
  match l1, l2 with
  | [], _ => true
  | _ :: _, [] => false
  | x :: l1', y :: l2' =>
      if eqb x y then subsequenceb eqb l1' l2' else subsequenceb eqb l1 l2'
  end.

(** [Map]: insertion ordered, one entry per key. *)
Section Map.
Context {K V : Type} (eqb : K -> K -> bool).

Definition JsMap := list (K * V).

Fixpoint map_get (m : JsMap) (k : K) : option V :=
  match m with
  | [] => None
  | (k', v) :: m' => if eqb k k' then Some v else map_get m' k
  end.

(** [set] on a present key replaces the value in place; a new key goes
    to the end. *)
Fixpoint map_set (m : JsMap) (k : K) (v : V) : JsMap :=
  match m with
  | [] => [(k, v)]
  | (k', v') :: m' =>
      if eqb k k' then (k, v) :: m' else (k', v') :: map_set m' k v
  end.

Definition map_values (m : JsMap) : list V := List.map snd m.
Definition map_keys (m : JsMap) : list K := List.map fst m.
Definition map_size (m : JsMap) : Z := Z.of_nat (List.length m).
End Map.

End Js.

Import Js.

(* ================================================================== *)
(** ** Strings *)
(* ================================================================== *)

Module Str.

Definition lower_ascii (c : ascii) : ascii :=
  let n := nat_of_ascii c in
  if ((65 <=? n) && (n <=? 90))%nat then ascii_of_nat (n + 32) else c.

Fixpoint toLowerCase (s : string) : string :=
  match s with
  | EmptyString => EmptyString
  | String c s' => String (lower_ascii c) (toLowerCase s')
  end.

(** [hay.includes(needle)] *)
Fixpoint includes (hay needle : string) : bool :=
  String.prefix needle hay ||
  match hay with
  | EmptyString => false
  | String _ hay' => includes hay' needle
  end.

(** [\s] *)
Definition is_space (c : ascii) : bool :=
  let n := nat_of_ascii c in
  ((n =? 32) || ((9 <=? n) && (n <=? 13)))%nat.

(** [s.split(/\s+/)]: the pieces between maximal runs of white space; a
    run at either end of [s] leaves an empty piece there. *)
Fixpoint split_ws_from (s cur : string) (in_run : bool) : list string :=
  match s with
  | EmptyString => [cur]
  | String c s' =>
      if is_space c then
        if in_run then split_ws_from s' EmptyString true
        else cur :: split_ws_from s' EmptyString true
      else split_ws_from s' (cur ++ String c EmptyString) false
  end.

Definition split_ws (s : string) : list string :=
  split_ws_from s EmptyString false.

(** [parts.join(sep)] *)
Definition join (sep : string) (parts : list string) : string :=
  String.concat sep parts.

Definition slen (s : string) : Z := Z.of_nat (String.length s).

End Str.

(* ================================================================== *)
(** ** types.ts *)
(* ================================================================== *)

Inductive ErrorCategory : Type :=
| SYNTAX | TYPE | DEPENDENCY | LOGIC | TEST | BUILD | LINT | RUNTIME | OTHER.

Definition ErrorCategory_eqb (a b : ErrorCategory) : bool :=
  match a, b with
  | SYNTAX, SYNTAX | TYPE, TYPE | DEPENDENCY, DEPENDENCY | LOGIC, LOGIC
  | TEST, TEST | BUILD, BUILD | LINT, LINT | RUNTIME, RUNTIME
  | OTHER, OTHER => true
  | _, _ => false
  end.

Definition ErrorCategory_value (c : ErrorCategory) : string :=
  match c with
  | SYNTAX => "syntax" | TYPE => "type" | DEPENDENCY => "dependency"
  | LOGIC => "logic" | TEST => "test" | BUILD => "build" | LINT => "lint"
  | RUNTIME => "runtime" | OTHER => "other"
  end.

(** [Object.values(ErrorCategory)] *)
Definition ErrorCategory_values : list ErrorCategory :=
  [SYNTAX; TYPE; DEPENDENCY; LOGIC; TEST; BUILD; LINT; RUNTIME; OTHER].

Inductive FixType : Type :=
| ADD_IMPORT | REMOVE_IMPORT | UPDATE_TYPE | FIX_SYNTAX | ADD_DEPENDENCY
| MODIFY_LOGIC | UPDATE_TEST | ADD_FUNCTION | REMOVE_FUNCTION | REFACTOR.

Record CodeChange : Type := mkCodeChange {
  filePath : string;
  lineNumber : option Z;
  originalCode : string;
  newCode : string;
  cc_description : string
}.

Record FixSuggestion : Type := mkFixSuggestion {
  fixType : FixType;
  fs_description : string;
  files : list string;
  codeChanges : list CodeChange;
  fs_confidence : Q
}.

Record IterationResult : Type := mkIterationResult {
  ir_success : bool;
  ir_iteration : Z;
  ir_changes : list string;
  ir_error : option string;
  ir_modifiedFiles : list string
}.

Record VerificationScript : Type := mkVerificationScript {
  path : string;
  code : string;
  exitCode : option Z;
  output : option string;
  errorOutput : option string
}.

Record RaphLoopConfig : Type := mkRaphLoopConfig {
  cfg_maxIterations : Z;
  verificationTimeout : Z;
  cleanupOnCompletion : bool;
  triggerCommands : list string;
  workingDirectory : string
}.

Inductive ProtocolPhase : Type := PROBE | LOOP | COMPLETION.

Record ProtocolState : Type := mkProtocolState {
  phase : ProtocolPhase;
  currentIteration : Z;
  verificationScript : option VerificationScript;
  iterationHistory : list IterationResult;
  completed : bool;
  succeeded : bool;
  failureError : option string
}.

Record RequestContext : Type := mkRequestContext {
  rc_request : string;
  triggerCommand : string;
  codebase : string
}.

(* ================================================================== *)
(** ** verification_manager.ts *)
(* ================================================================== *)

Module VerificationManager.

(** [executeVerificationScript].  [run] is what
    [child_process.execSync] does for this invocation: it returns the
    captured standard output, or throws (non-zero exit, timeout, spawn
    failure).  The source assigns the three result fields on [script]
    itself, so the returned script is the updated one. *)
Definition executeVerificationScript
  (run : Completion string) (script : VerificationScript)
  : Completion VerificationScript :=
  try_catch
    (bind run (fun out =>
       Normal (mkVerificationScript (path script) (code script)
                 (Some 0) (Some out) (Some ""))))
    (fun error =>
       Normal (mkVerificationScript (path script) (code script)
                 (Some (num_or (status error) 1))
                 (Some (str_or_lit (stdout error) ""))
                 (Some (str_or_lit
                          (str_or (stderr error) (message error)) "")))).

(** [script.exitCode === 0] *)
Definition isVerificationPassed (script : VerificationScript) : bool :=
  match exitCode script with
  | Some n => n =? 0
  | None => false
  end.

Definition extractErrorInfo (script : VerificationScript) : string :=
  if isVerificationPassed script then ""
  else str_or_lit (str_or (errorOutput script) (output script))
         "Unknown error".

End VerificationManager.

(* ================================================================== *)
(** ** iteration_engine.ts *)
(* ================================================================== *)

Module IterationEngine.

Section Engine.

(** [generateFixSuggestions] matches the error text against the engine's
    regular expressions and [applyFix] writes files and catches its own
    failures; both are taken as given. *)
Variable generateFixSuggestions : string -> string -> list FixSuggestion.
Variable applyFix : FixSuggestion -> bool.

(** [suggestions.reduce((best, current) =>
      current.confidence > best.confidence ? current : best)] *)
Definition bestOf (first : FixSuggestion) (others : list FixSuggestion)
  : FixSuggestion :=
  fold_left
    (fun best current =>
       if Qgtb (fs_confidence current) (fs_confidence best) then current
       else best)
    others first.

Definition executeIteration (errorOutput codebaseContext : string)
  (iteration : Z) : IterationResult :=
  match generateFixSuggestions errorOutput codebaseContext with
  | [] =>
      mkIterationResult false iteration [] (Some "No fix suggestions generated")
        []
  | first :: others =>
      let bestSuggestion := bestOf first others in
      let success := applyFix bestSuggestion in
      mkIterationResult success iteration [fs_description bestSuggestion]
        (if success then None else Some "Failed to apply fix")
        (files bestSuggestion)
  end.

End Engine.

(** [generateTestFixSuggestions] for an error text that names no file. *)
Definition generateTestFixSuggestions : list FixSuggestion :=
  [ mkFixSuggestion UPDATE_TEST "Update test expectations" [] [] (6 # 10);
    mkFixSuggestion MODIFY_LOGIC
      "Fix implementation to match test expectations" [] [] (7 # 10) ].

End IterationEngine.

(* ================================================================== *)
(** ** raph_loop_protocol.ts *)
(* ================================================================== *)

Module RaphLoopProtocol.

Definition set_phase (st : ProtocolState) (p : ProtocolPhase) :=
  mkProtocolState p (currentIteration st) (verificationScript st)
    (iterationHistory st) (completed st) (succeeded st) (failureError st).

Definition set_currentIteration (st : ProtocolState) (i : Z) :=
  mkProtocolState (phase st) i (verificationScript st)
    (iterationHistory st) (completed st) (succeeded st) (failureError st).

Definition set_verificationScript (st : ProtocolState)
  (v : option VerificationScript) :=
  mkProtocolState (phase st) (currentIteration st) v
    (iterationHistory st) (completed st) (succeeded st) (failureError st).

Definition push_iterationHistory (st : ProtocolState) (r : IterationResult) :=
  mkProtocolState (phase st) (currentIteration st) (verificationScript st)
    (iterationHistory st ++ [r]) (completed st) (succeeded st)
    (failureError st).

Definition set_completed (st : ProtocolState) (b : bool) :=
  mkProtocolState (phase st) (currentIteration st) (verificationScript st)
    (iterationHistory st) b (succeeded st) (failureError st).

Definition set_succeeded (st : ProtocolState) (b : bool) :=
  mkProtocolState (phase st) (currentIteration st) (verificationScript st)
    (iterationHistory st) (completed st) b (failureError st).

Definition set_failureError (st : ProtocolState) (e : option string) :=
  mkProtocolState (phase st) (currentIteration st) (verificationScript st)
    (iterationHistory st) (completed st) (succeeded st) e.

Definition initializeState : ProtocolState :=
  mkProtocolState PROBE 0 None [] false false None.

Section Protocol.

Variable config : RaphLoopConfig.

(** The collaborators of one run.
    - [createVerificationScript request codebase] writes the check to
      disk; it throws when the file cannot be written.
    - [execSync i] is the outcome of the child process that iteration [i]
      starts.
    - [executeIteration errorOutput codebase i] is
      [IterationEngine.executeIteration]: it returns an [IterationResult]
      and catches the failures of its own file writes. *)
Variable createVerificationScript :
  string -> string -> Completion VerificationScript.
Variable execSync : Z -> Completion string.
Variable executeIteration : string -> string -> Z -> IterationResult.

Definition executeProbePhase (context : RequestContext) (st : ProtocolState)
  : Completion unit * ProtocolState :=
  let st := set_phase st PROBE in
  match createVerificationScript (rc_request context) (codebase context) with
  | Throw e => (Throw e, st)
  | Normal script => (Normal tt, set_verificationScript st (Some script))
  end.

(** The [while (currentIteration < maxIterations)] loop as written, with
    fuel for its iterations; [None] is fuel run out.  The result carries
    [verificationPassed]. *)
Fixpoint whileLoop (fuel : nat) (context : RequestContext)
  (st : ProtocolState) : option (Completion bool * ProtocolState) :=
  if currentIteration st <? cfg_maxIterations config then
    match fuel with
    | O => None
    | S fuel' =>
        let st := set_currentIteration st (currentIteration st + 1) in
        match verificationScript st with
        | None =>
            Some (Throw (errorOfMessage "Cannot read properties of undefined"),
                  st)
        | Some script =>
            match VerificationManager.executeVerificationScript
                    (execSync (currentIteration st)) script with
            | Throw e => Some (Throw e, st)
            | Normal executedScript =>
                let st := set_verificationScript st (Some executedScript) in
                if VerificationManager.isVerificationPassed executedScript
                then Some (Normal true, st)
                else if currentIteration st >=? cfg_maxIterations config
                then Some (Normal false, st)
                else
                  let errorOutput :=
                    VerificationManager.extractErrorInfo executedScript in
                  let iterationResult :=
                    executeIteration errorOutput (codebase context)
                      (currentIteration st) in
                  let st := push_iterationHistory st iterationResult in
                  if negb (ir_success iterationResult)
                  then Some (Normal false, st)
                  else whileLoop fuel' context st
            end
        end
    end
  else Some (Normal false, st).

(** The same loop without fuel.  Every pass adds one to
    [currentIteration] and nothing else assigns it, so the guard holds
    exactly as long as [remaining], the distance
    [maxIterations - currentIteration] at entry, is positive; [whileLoop]
    with that much fuel returns what [loop] returns
    ([whileLoop_is_loop] below). *)
Fixpoint loop (remaining : nat) (context : RequestContext)
  (st : ProtocolState) : Completion bool * ProtocolState :=
  match remaining with
  | O => (Normal false, st)
  | S remaining' =>
      let st := set_currentIteration st (currentIteration st + 1) in
      match verificationScript st with
      | None =>
          (Throw (errorOfMessage "Cannot read properties of undefined"), st)
      | Some script =>
          match VerificationManager.executeVerificationScript
                  (execSync (currentIteration st)) script with
          | Throw e => (Throw e, st)
          | Normal executedScript =>
              let st := set_verificationScript st (Some executedScript) in
              if VerificationManager.isVerificationPassed executedScript
              then (Normal true, st)
              else if currentIteration st >=? cfg_maxIterations config
              then (Normal false, st)
              else
                let errorOutput :=
                  VerificationManager.extractErrorInfo executedScript in
                let iterationResult :=
                  executeIteration errorOutput (codebase context)
                    (currentIteration st) in
                let st := push_iterationHistory st iterationResult in
                if negb (ir_success iterationResult)
                then (Normal false, st)
                else loop remaining' context st
          end
      end
  end.

Definition executeLoopPhase (context : RequestContext) (st : ProtocolState)
  : Completion unit * ProtocolState :=
  let st := set_phase st LOOP in
  match loop (Z.to_nat (cfg_maxIterations config - currentIteration st))
          context st with
  | (Normal verificationPassed, st) =>
      (Normal tt, set_succeeded st verificationPassed)
  | (Throw e, st) => (Throw e, st)
  end.

Definition executeCompletionPhase (st : ProtocolState)
  : Completion unit * ProtocolState :=
  (Normal tt, set_completed (set_phase st COMPLETION) true).

(** [execute]: the three phases inside one [try]; the [catch] keeps the
    state as the failing phase left it. *)
Definition execute (context : RequestContext) : ProtocolState :=
  let st := initializeState in
  let after_try :=
    match executeProbePhase context st with
    | (Throw e, st) => (Throw e, st)
    | (Normal _, st) =>
        match executeLoopPhase context st with
        | (Throw e, st) => (Throw e, st)
        | (Normal _, st) => executeCompletionPhase st
        end
    end in
  match after_try with
  | (Normal _, st) => st
  | (Throw e, st) =>
      set_failureError (set_succeeded (set_completed st true) false)
        (message e)
  end.

(** How the loop ends when the check never passes: by the budget, with
    one record per pass but the last; or earlier, on a fix that was not
    applied, with that record last. *)
Definition ended (context : RequestContext) (st0 st : ProtocolState)
  (remaining : nat) : Prop :=
  (currentIteration st = cfg_maxIterations config
   /\ Z.of_nat (List.length (iterationHistory st))
      = Z.of_nat (List.length (iterationHistory st0))
        + Z.of_nat remaining - 1)
  \/ (currentIteration st < cfg_maxIterations config
      /\ Z.of_nat (List.length (iterationHistory st))
         = Z.of_nat (List.length (iterationHistory st0))
           + (currentIteration st - currentIteration st0)
      /\ exists earlier errorOutput i,
           iterationHistory st
           = earlier ++ [executeIteration errorOutput (codebase context) i]
           /\ ir_success (executeIteration errorOutput (codebase context) i)
              = false).

End Protocol.

(** [executeRaphLoop]'s [defaultConfig] *)
Definition defaultConfig (cwd : string) : RaphLoopConfig :=
  mkRaphLoopConfig 5 30000 true ["/raph"; "/raph-loop"] cwd.

End RaphLoopProtocol.

(* ================================================================== *)
(** ** specialist_agent.ts *)
(* ================================================================== *)

Inductive AgentSpecialty : Type :=
| GENERAL | DATA_ANALYSIS | ARCHITECTURE | TESTING | PERFORMANCE | SECURITY
| WEB_DEVELOPMENT | UI_REFACTORING.

Definition AgentSpecialty_eqb (a b : AgentSpecialty) : bool :=
  match a, b with
  | GENERAL, GENERAL | DATA_ANALYSIS, DATA_ANALYSIS
  | ARCHITECTURE, ARCHITECTURE | TESTING, TESTING
  | PERFORMANCE, PERFORMANCE | SECURITY, SECURITY
  | WEB_DEVELOPMENT, WEB_DEVELOPMENT
  | UI_REFACTORING, UI_REFACTORING => true
  | _, _ => false
  end.

Definition AgentSpecialty_value (a : AgentSpecialty) : string :=
  match a with
  | GENERAL => "general" | DATA_ANALYSIS => "data_analysis"
  | ARCHITECTURE => "architecture" | TESTING => "testing"
  | PERFORMANCE => "performance" | SECURITY => "security"
  | WEB_DEVELOPMENT => "web_development"
  | UI_REFACTORING => "ui_refactoring"
  end.

Record AgentCapability : Type := mkAgentCapability {
  cap_specialty : AgentSpecialty;
  supportedLanguages : list string;
  supportedErrorCategories : list ErrorCategory;
  cap_confidence : Q;
  cap_description : string;
  cap_maxIterations : Z
}.

Record AgentExecutionContext : Type := mkAgentExecutionContext {
  request : string;
  codebaseContext : string;
  ctx_errorOutput : option string;
  previousAttempts : option (list IterationResult)
}.

Record AgentExecutionResult : Type := mkAgentExecutionResult {
  success : bool;
  agent : AgentSpecialty;
  iterations : Z;
  changes : list string;
  modifiedFiles : list string;
  recommendations : list string;
  error : option string
}.

(** [[...new Set(xs)]]: the distinct elements, each at its first
    occurrence. *)
Fixpoint js_set_from (seen xs : list string) : list string :=
  match xs with
  | [] => []
  | x :: xs' =>
      if existsb (String.eqb x) seen then js_set_from seen xs'
      else x :: js_set_from (seen ++ [x]) xs'
  end.

Definition js_set (xs : list string) : list string := js_set_from [] xs.

Module SpecialistAgent.

Section WithWorld.

(** Whatever the concrete agents read and write outside themselves. *)
Variable World : Type.

(** The mutable part of an agent object, and the world around it. *)
Record AgentState : Type := mkAgentState {
  iterationHistory : list IterationResult;
  world : World
}.

(** The abstract class: the fields the constructor sets and the methods a
    subclass supplies.  A method may read and change the agent state and
    may throw. *)
Record SpecialistAgent : Type := mkSpecialistAgent {
  capability : AgentCapability;
  maxIterations : Z;
  analyzeContext :
    AgentExecutionContext -> AgentState ->
    Completion (list FixSuggestion) * AgentState;
  generateFixSuggestions :
    AgentExecutionContext -> AgentState ->
    Completion (list FixSuggestion) * AgentState;
  applyFix : FixSuggestion -> AgentState -> Completion bool * AgentState;
  generateRecommendations_override :
    option (bool -> AgentExecutionContext -> list string -> list string)
}.

(** [constructor(capability, maxIterations?)]: [if (maxIterations)] is
    false for a missing argument and for [0]. *)
Definition construct (capability : AgentCapability)
  (maxIterations : option Z)
  (analyzeContext generateFixSuggestions :
     AgentExecutionContext -> AgentState ->
     Completion (list FixSuggestion) * AgentState)
  (applyFix : FixSuggestion -> AgentState -> Completion bool * AgentState)
  (recs : option (bool -> AgentExecutionContext -> list string ->
                  list string))
  : SpecialistAgent :=
  mkSpecialistAgent capability
    (num_or maxIterations (cap_maxIterations capability))
    analyzeContext generateFixSuggestions applyFix recs.

Definition getCapability (a : SpecialistAgent) : AgentCapability :=
  capability a.

Definition canHandle (a : SpecialistAgent) (errorCategory : ErrorCategory)
  (language : string) : bool :=
  let supportsCategory :=
    existsb (ErrorCategory_eqb errorCategory)
      (supportedErrorCategories (capability a)) in
  let supportsLanguage :=
    existsb (String.eqb language) (supportedLanguages (capability a))
    || existsb (String.eqb "*") (supportedLanguages (capability a)) in
  supportsCategory && supportsLanguage.

(** [a.confidence * (1 - (iteration - 1) * 0.1)] *)
Definition score (s : FixSuggestion) (iteration : Z) : Q :=
  (fs_confidence s * (1 - inject_Z (iteration - 1) * (1 # 10)))%Q.


(** [selectBestSuggestion].  [suggestions.sort] sorts the caller's array
    in place, so the array as sorted is returned next to the choice. *)
Definition selectBestSuggestion (suggestions : list FixSuggestion)
  (iteration : Z) : option FixSuggestion * list FixSuggestion :=
  match suggestions with
  | [] => (None, suggestions)
  | _ =>
      let sorted :=
        Js.sort (fun a b => (score b iteration - score a iteration)%Q)
          suggestions in
      (hd_error sorted, sorted)
  end.






Definition generateRecommendations_base (a : SpecialistAgent)
  (success : bool) (context : AgentExecutionContext) : list string :=
  if negb success then
    [ ("Failed to solve with "
         ++ AgentSpecialty_value (cap_specialty (capability a))
         ++ " agent")%string;
      "Consider routing to different specialist agent";
      "Request may require manual intervention" ]
  else
    [ "Solution applied successfully";
      "Review changes before committing";
      "Run verification tests to confirm" ].

(** A subclass override receives what [super.generateRecommendations]
    returned. *)
Definition generateRecommendations (a : SpecialistAgent) (success : bool)
  (context : AgentExecutionContext) : list string :=
  match generateRecommendations_override a with
  | None => generateRecommendations_base a success context
  | Some f =>
      f success context (generateRecommendations_base a success context)
  end.

Definition buildResult (a : SpecialistAgent) (success : bool)
  (context : AgentExecutionContext) (iterations : Z)
  (error : option string) (st : AgentState) : AgentExecutionResult :=
  mkAgentExecutionResult success (cap_specialty (capability a)) iterations
    (flat_map ir_changes (iterationHistory st))
    (js_set (flat_map ir_modifiedFiles (iterationHistory st)))
    (generateRecommendations a success context)
    error.

Definition recordIteration (result : IterationResult) (st : AgentState)
  : AgentState :=
  mkAgentState (iterationHistory st ++ [result]) (world st).

(** One pass of the loop of [execute], as the console reports it: the
    iteration number, the suggestion chosen and what [applyFix] did. *)
Record Pass : Type := mkPass {
  pass_iteration : Z;
  pass_suggestion : FixSuggestion;
  pass_applied : Completion bool
}.

(** How the loop is left: by its guard or a [break], with [succeeded] and
    the value of [iteration]; or by an exception. *)
Inductive LoopExit : Type :=
| Finished (succeeded : bool) (iteration : Z)
| Threw (e : Js.Error) (iteration : Z).


(** A pass that applied, without error, a suggestion of confidence above
    the success threshold. *)
Definition decisive (p : Pass) : Prop :=
  pass_applied p = Normal true
  /\ (8 # 10 < fs_confidence (pass_suggestion p))%Q.

(** [for (iteration = 1; iteration <= this.maxIterations; iteration++)]
    as written, with fuel for its iterations; [None] is fuel run out.
    Next to the exit and the state, the passes made are returned. *)
Fixpoint forLoop (a : SpecialistAgent) (fuel : nat) (iteration : Z)
  (suggestions : list FixSuggestion) (st : AgentState)
  : option (LoopExit * AgentState * list Pass) :=
  if iteration <=? maxIterations a then
    match fuel with
    | O => None
    | S fuel' =>
        let (chosen, suggestions) :=
          selectBestSuggestion suggestions iteration in
        match chosen with
        | None => Some (Finished false iteration, st, [])
        | Some suggestion =>
            match applyFix a suggestion st with
            | (Throw e, st) =>
                Some (Threw e iteration, st,
                      [mkPass iteration suggestion (Throw e)])
            | (Normal applied, st) =>
                let pass := mkPass iteration suggestion (Normal applied) in
                if negb applied then
                  match forLoop a fuel' (iteration + 1) suggestions st with
                  | Some (exit, st, passes) => Some (exit, st, pass :: passes)
                  | None => None
                  end
                else if Qgtb (fs_confidence suggestion) (8 # 10) then
                  Some (Finished true iteration, st, [pass])
                else
                  match forLoop a fuel' (iteration + 1) suggestions st with
                  | Some (exit, st, passes) => Some (exit, st, pass :: passes)
                  | None => None
                  end
            end
        end
    end
  else Some (Finished false iteration, st, []).

(** The same loop without fuel.  Only the loop header assigns
    [iteration], so the guard holds exactly as long as [remaining], the
    number of values from [iteration] to [maxIterations], is positive;
    [forLoop] with that much fuel returns what [loop] returns
    ([forLoop_is_loop] below). *)
Fixpoint loop (a : SpecialistAgent) (remaining : nat) (iteration : Z)
  (suggestions : list FixSuggestion) (st : AgentState)
  : LoopExit * AgentState * list Pass :=
  match remaining with
  | O => (Finished false iteration, st, [])
  | S remaining' =>
      let (chosen, suggestions) :=
        selectBestSuggestion suggestions iteration in
      match chosen with
      | None => (Finished false iteration, st, [])
      | Some suggestion =>
          match applyFix a suggestion st with
          | (Throw e, st) =>
              (Threw e iteration, st,
               [mkPass iteration suggestion (Throw e)])
          | (Normal applied, st) =>
              let pass := mkPass iteration suggestion (Normal applied) in
              if negb applied then
                let '(exit, st, passes) :=
                  loop a remaining' (iteration + 1) suggestions st in
                (exit, st, pass :: passes)
              else if Qgtb (fs_confidence suggestion) (8 # 10) then
                (Finished true iteration, st, [pass])
              else
                let '(exit, st, passes) :=
                  loop a remaining' (iteration + 1) suggestions st in
                (exit, st, pass :: passes)
          end
      end
  end.


(** [execute], with the passes of its loop. *)
Definition execute_passes (a : SpecialistAgent)
  (context : AgentExecutionContext) (st : AgentState)
  : AgentExecutionResult * AgentState * list Pass :=
  let st := mkAgentState [] (world st) in
  match analyzeContext a context st with
  | (Throw e, st) => (buildResult a false context 0 (message e) st, st, [])
  | (Normal suggestions, st) =>
      if (List.length suggestions =? 0)%nat then
        (buildResult a false context 0 None st, st, [])
      else
        match loop a (Z.to_nat (maxIterations a)) 1 suggestions st with
        | (Finished succeeded iteration, st, passes) =>
            (buildResult a succeeded context iteration None st, st, passes)
        | (Threw e iteration, st, passes) =>
            (buildResult a false context iteration (message e) st, st,
             passes)
        end
  end.

Definition execute (a : SpecialistAgent) (context : AgentExecutionContext)
  (st : AgentState) : AgentExecutionResult * AgentState :=
  fst (execute_passes a context st).

Definition getIterationHistory (st : AgentState) : list IterationResult :=
  iterationHistory st.

(** [GeneralSpecialistAgent] *)
Definition GeneralSpecialistAgent : SpecialistAgent :=
  construct
    (mkAgentCapability GENERAL ["*"] ErrorCategory_values (5 # 10)
       "General purpose agent for various problem types" 5)
    None
    (fun _ st => (Normal [], st))
    (fun _ st => (Normal [], st))
    (fun _ st => (Normal false, st))
    None.

End WithWorld.

End SpecialistAgent.

(* ================================================================== *)
(** ** web_development_agent.ts *)
(* ================================================================== *)

Module WebDevelopmentSpecialistAgent.

Import Str.

Inductive WebFramework : Type :=
| NEXTAUTH | EXPRESS | NESTJS | FASTAPI | DJANGO | SPRING | LARAVEL
| UNKNOWN_FRAMEWORK.

Inductive SessionStorage : Type :=
| COOKIES | LOCAL_STORAGE | SESSION_STORAGE | REDIS | DATABASE | JWT
| UNKNOWN_STORAGE.

Inductive WebProblemType : Type :=
| SESSION_NOT_UPDATING | LOGIN_FAILURE | AUTH_REDIRECT | STATE_MISMATCH
| COMPONENT_BLANK | HYDRATION_MISMATCH | CSRF_ERROR | CORS_ERROR
| MIDDLEWARE_CHAIN | UI_NOT_RENDERING.

Definition webCapability : AgentCapability :=
  mkAgentCapability WEB_DEVELOPMENT
    ["typescript"; "javascript"; "python"; "java"; "c#"; "*"]
    [LOGIC; RUNTIME; TEST; DEPENDENCY]
    (85 # 100)
    "Specializes in full-stack web development issues: sessions, auth, UI state, middleware chains"
    12.

Definition detectFramework (codebaseContext : string) : WebFramework :=
  if includes codebaseContext "NextAuth" || includes codebaseContext "next-auth"
  then NEXTAUTH
  else if includes codebaseContext "express" || includes codebaseContext "Express"
  then EXPRESS
  else if includes codebaseContext "@nestjs" || includes codebaseContext "NestJS"
  then NESTJS
  else if includes codebaseContext "FastAPI" then FASTAPI
  else if includes codebaseContext "Django" then DJANGO
  else if includes codebaseContext "Spring" || includes codebaseContext "@SpringBoot"
  then SPRING
  else if includes codebaseContext "Laravel" then LARAVEL
  else UNKNOWN_FRAMEWORK.

Definition detectProblemType (request : string) (errorOutput : option string)
  : WebProblemType :=
  let combined := toLowerCase (request ++ str_or_lit errorOutput "") in
  if includes combined "session" && includes combined "not update"
  then SESSION_NOT_UPDATING
  else if includes combined "login"
          && (includes combined "fail" || includes combined "error")
  then LOGIN_FAILURE
  else if includes combined "auth" && includes combined "redirect"
  then AUTH_REDIRECT
  else if includes combined "state" && includes combined "mismatch"
  then STATE_MISMATCH
  else if includes combined "blank" || includes combined "empty component"
  then COMPONENT_BLANK
  else if includes combined "hydration" then HYDRATION_MISMATCH
  else if includes combined "csrf" then CSRF_ERROR
  else if includes combined "cors" then CORS_ERROR
  else if includes combined "middleware" then MIDDLEWARE_CHAIN
  else if includes combined "render" || includes combined "ui"
  then UI_NOT_RENDERING
  else STATE_MISMATCH.

Definition detectSessionStorage (codebaseContext : string) : SessionStorage :=
  if includes codebaseContext "document.cookie" || includes codebaseContext "Cookies"
  then COOKIES
  else if includes codebaseContext "localStorage" then LOCAL_STORAGE
  else if includes codebaseContext "sessionStorage" then SESSION_STORAGE
  else if includes codebaseContext "redis" || includes codebaseContext "Redis"
  then REDIS
  else if includes codebaseContext "jwt" || includes codebaseContext "JWT"
  then JWT
  else if includes codebaseContext "database" || includes codebaseContext "db"
  then DATABASE
  else UNKNOWN_STORAGE.

Definition isSessionRelated (p : WebProblemType) : bool :=
  match p with
  | SESSION_NOT_UPDATING | STATE_MISMATCH => true
  | _ => false
  end.

Definition isUIRelated (p : WebProblemType) : bool :=
  match p with
  | COMPONENT_BLANK | HYDRATION_MISMATCH | UI_NOT_RENDERING => true
  | _ => false
  end.

Definition isAuthRelated (p : WebProblemType) : bool :=
  match p with
  | LOGIN_FAILURE | AUTH_REDIRECT | CSRF_ERROR | CORS_ERROR => true
  | _ => false
  end.

Definition isMiddlewareRelated (p : WebProblemType) : bool :=
  match p with
  | MIDDLEWARE_CHAIN => true
  | _ => false
  end.

(** The [{ valid, issue, affectedFiles }] of the three trace checks. *)
Record TraceCheck : Type := mkTraceCheck {
  valid : bool;
  issue : string;
  affectedFiles : list string
}.

Definition verifyBackendAPI (context : AgentExecutionContext)
  (framework : WebFramework) : TraceCheck :=
  let codebase := codebaseContext context in
  if negb (includes codebase "/api/auth") && negb (includes codebase "/auth/me")
     && negb (includes codebase "getSession")
  then mkTraceCheck false
         "No user data endpoint found. API should return user object on authentication."
         []
  else if negb (includes codebase "user:") && negb (includes codebase "user }")
          && negb (includes codebase "userData")
  then mkTraceCheck false
         "API response missing user object. Should return { user: {...} } structure."
         []
  else mkTraceCheck true "" [].

Definition is_COOKIES (s : SessionStorage) : bool :=
  match s with COOKIES => true | _ => false end.

Definition is_JWT (s : SessionStorage) : bool :=
  match s with JWT => true | _ => false end.

Definition verifyNetworkHeaders (context : AgentExecutionContext)
  (storage : SessionStorage) : TraceCheck :=
  let codebase := codebaseContext context in
  if is_COOKIES storage
     && (negb (includes codebase "credentials")
         && negb (includes codebase "httpOnly"))
  then mkTraceCheck false
         "Cookies not configured properly. Set credentials: include in fetch/axios."
         []
  else if is_JWT storage
          && (negb (includes codebase "Authorization")
              && negb (includes codebase "Bearer"))
  then mkTraceCheck false
         "JWT tokens not being sent in Authorization header." []
  else mkTraceCheck true "" [].

Definition verifyFrontendStore (context : AgentExecutionContext)
  (framework : WebFramework) : TraceCheck :=
  let codebase := codebaseContext context in
  let hasContext := includes codebase "useContext" || includes codebase "Context" in
  let hasRedux := includes codebase "redux" || includes codebase "useSelector" in
  let hasZustand := includes codebase "zustand" || includes codebase "useStore" in
  if negb hasContext && negb hasRedux && negb hasZustand
  then mkTraceCheck false
         "No state management detected. Need Context API, Redux, or Zustand to store session."
         []
  else mkTraceCheck true "" [].

Definition analyzeSessionIssue (context : AgentExecutionContext)
  (framework : WebFramework) (storage : SessionStorage)
  : list FixSuggestion :=
  let backendCheck := verifyBackendAPI context framework in
  let networkCheck := verifyNetworkHeaders context storage in
  let storeCheck := verifyFrontendStore context framework in
  (if negb (valid backendCheck)
   then [mkFixSuggestion MODIFY_LOGIC
           ("Backend API issue detected: " ++ issue backendCheck)%string
           (affectedFiles backendCheck) [] (9 # 10)]
   else [])
  ++ (if negb (valid networkCheck)
      then [mkFixSuggestion MODIFY_LOGIC
              ("Network issue detected: " ++ issue networkCheck)%string
              (affectedFiles networkCheck) [] (85 # 100)]
      else [])
  ++ (if negb (valid storeCheck)
      then [mkFixSuggestion MODIFY_LOGIC
              ("Frontend store issue detected: " ++ issue storeCheck)%string
              (affectedFiles storeCheck) [] (8 # 10)]
      else []).

Definition analyzeUIIssue (context : AgentExecutionContext)
  (framework : WebFramework) : list FixSuggestion :=
  if includes (codebaseContext context) "useEffect"
     || includes (codebaseContext context) "useState"
  then [mkFixSuggestion MODIFY_LOGIC
          "Detected React hooks - checking dependency arrays and state initialization"
          [] [] (8 # 10)]
  else [].

Definition is_EXPRESS_or_NEXTAUTH (f : WebFramework) : bool :=
  match f with EXPRESS | NEXTAUTH => true | _ => false end.

Definition analyzeMiddlewareChain (context : AgentExecutionContext)
  (framework : WebFramework) : list FixSuggestion :=
  if is_EXPRESS_or_NEXTAUTH framework
  then [mkFixSuggestion MODIFY_LOGIC
          "Middleware chain detected - verifying order of execution"
          [] [] (8 # 10)]
  else [].

Definition analyzeContext (context : AgentExecutionContext)
  : list FixSuggestion :=
  let framework := detectFramework (codebaseContext context) in
  let problemType :=
    detectProblemType (request context) (ctx_errorOutput context) in
  let storage := detectSessionStorage (codebaseContext context) in
  if isSessionRelated problemType
  then analyzeSessionIssue context framework storage
  else if isUIRelated problemType then analyzeUIIssue context framework
  else if isMiddlewareRelated problemType
  then analyzeMiddlewareChain context framework
  else [].

Definition suggestSessionFixes : list FixSuggestion :=
  [ mkFixSuggestion ADD_FUNCTION
      "Add session refresh hook to sync state with backend periodically"
      [] [] (8 # 10);
    mkFixSuggestion MODIFY_LOGIC
      "Verify session storage is persisted on browser refresh"
      [] [] (75 # 100) ].

Definition suggestSessionTraceTests : list FixSuggestion :=
  [ mkFixSuggestion ADD_FUNCTION
      "Step A Test: Verify backend returns user object with all required fields"
      [] [] (85 # 100);
    mkFixSuggestion ADD_FUNCTION
      "Step B Test: Verify cookies/auth headers are sent in network requests"
      [] [] (8 # 10);
    mkFixSuggestion ADD_FUNCTION
      "Step C Test: Verify frontend store receives and persists user session"
      [] [] (8 # 10) ].

Definition opt_includes (s : option string) (needle : string) : bool :=
  match s with
  | Some s => includes s needle
  | None => false
  end.

Definition suggestUIFixes (context : AgentExecutionContext)
  : list FixSuggestion :=
  (if opt_includes (ctx_errorOutput context) "hydration"
   then [mkFixSuggestion MODIFY_LOGIC
           "Hydration mismatch: Wrap component in useEffect to prevent SSR/client mismatch"
           [] [] (9 # 10)]
   else [])
  ++ (if opt_includes (ctx_errorOutput context) "blank"
         || includes (codebaseContext context) "isLoading"
      then [mkFixSuggestion MODIFY_LOGIC
              "Component rendering blank: Add loading state and conditional rendering"
              [] [] (85 # 100)]
      else []).

Definition generateFixSuggestions (context : AgentExecutionContext)
  : list FixSuggestion :=
  let problemType :=
    detectProblemType (request context) (ctx_errorOutput context) in
  if isSessionRelated problemType
  then suggestSessionFixes ++ suggestSessionTraceTests
  else if isUIRelated problemType then suggestUIFixes context
  else [].

(** [new WebDevelopmentSpecialistAgent(maxIterations?)]; its [applyFix] is
    the placeholder that returns [true]. *)
Definition make (World : Type) (maxIterations : option Z)
  : SpecialistAgent.SpecialistAgent World :=
  SpecialistAgent.construct webCapability maxIterations
    (fun context st => (Normal (analyzeContext context), st))
    (fun context st => (Normal (generateFixSuggestions context), st))
    (fun _ st => (Normal true, st))
    None.

End WebDevelopmentSpecialistAgent.

(* ================================================================== *)
(** ** data_analysis_agent.ts *)
(* ================================================================== *)

Module DataAnalysisSpecialistAgent.

Import Str.

Inductive DataAnalysisProblemType : Type :=
| SQL_QUERY | DATA_PARSING | DATA_VALIDATION | DATA_TRANSFORMATION
| STATISTICAL_ANALYSIS | PERFORMANCE_OPTIMIZATION | DATA_INTEGRITY.

Definition dataCapability : AgentCapability :=
  mkAgentCapability DATA_ANALYSIS
    ["javascript"; "typescript"; "python"; "sql"; "*"]
    [LOGIC; RUNTIME; TYPE; SYNTAX; OTHER]
    (75 # 100)
    "Specialized agent for data analysis, SQL queries, and data processing"
    7.

Definition detectProblemType (context : AgentExecutionContext)
  : DataAnalysisProblemType :=
  let error := toLowerCase (str_or_lit (ctx_errorOutput context) "") in
  if includes error "sql" || includes error "query"
     || includes error "select"
  then SQL_QUERY
  else if includes error "parse" || includes error "json"
          || includes error "csv"
  then DATA_PARSING
  else if includes error "null" || includes error "undefined"
          || includes error "required"
  then DATA_VALIDATION
  else if includes error "transform" || includes error "map"
          || includes error "filter"
  then DATA_TRANSFORMATION
  else if includes error "average" || includes error "aggregate"
          || includes error "group"
  then STATISTICAL_ANALYSIS
  else if includes error "performance" || includes error "optimize"
          || includes error "slow"
  then PERFORMANCE_OPTIMIZATION
  else DATA_VALIDATION.

(** [findRelevantDataFiles] declares its patterns and returns the empty
    array it started with. *)
Definition findRelevantDataFiles (codebaseContext : string) : list string :=
  [].

(** One suggestion of this agent: a single code change on
    [files[0] || ''], with empty original and new code. *)
Definition suggest (fixType : FixType) (description : string)
  (files : list string) (changeDescription : string) (confidence : Q)
  : FixSuggestion :=
  mkFixSuggestion fixType description files
    [mkCodeChange (str_or_lit (hd_error files) "") None "" ""
       changeDescription]
    confidence.

Definition generateSQLFixSuggestions (files : list string)
  : list FixSuggestion :=
  [ suggest MODIFY_LOGIC "Fix SQL query syntax and structure" files
      "Validate and fix SQL query" (8 # 10);
    suggest UPDATE_TYPE "Add query parameter validation" files
      "Add parameter type checking" (7 # 10) ].

Definition generateDataParsingFixSuggestions (files : list string)
  : list FixSuggestion :=
  [ suggest MODIFY_LOGIC "Fix data parsing logic" files
      "Implement robust parsing with error handling" (75 # 100);
    suggest ADD_FUNCTION "Add data validation helper" files
      "Create validation utility function" (65 # 100) ].

Definition generateValidationFixSuggestions (files : list string)
  : list FixSuggestion :=
  [ suggest ADD_FUNCTION "Add null/undefined validation" files
      "Add safety checks for nullable fields" (85 # 100);
    suggest UPDATE_TYPE "Add TypeScript type guards" files
      "Implement type guards for data validation" (8 # 10) ].

Definition generateTransformationFixSuggestions (files : list string)
  : list FixSuggestion :=
  [ suggest REFACTOR "Refactor data transformation pipeline" files
      "Optimize transformation logic" (7 # 10) ].

Definition generateStatisticalFixSuggestions (files : list string)
  : list FixSuggestion :=
  [ suggest ADD_FUNCTION "Implement statistical functions" files
      "Add aggregation and statistical calculations" (75 # 100) ].

Definition generateGenericDataFixSuggestions (files : list string)
  : list FixSuggestion :=
  [ suggest MODIFY_LOGIC "Review and fix data handling logic" files
      "Fix data processing issue" (6 # 10) ].

Definition analyzeContext (context : AgentExecutionContext)
  : list FixSuggestion :=
  let problemType := detectProblemType context in
  let files := findRelevantDataFiles (codebaseContext context) in
  match problemType with
  | SQL_QUERY => generateSQLFixSuggestions files
  | DATA_PARSING => generateDataParsingFixSuggestions files
  | DATA_VALIDATION => generateValidationFixSuggestions files
  | DATA_TRANSFORMATION => generateTransformationFixSuggestions files
  | STATISTICAL_ANALYSIS => generateStatisticalFixSuggestions files
  | PERFORMANCE_OPTIMIZATION | DATA_INTEGRITY =>
      generateGenericDataFixSuggestions files
  end.

(** The override of [generateRecommendations]: three more lines after
    those of the base class. *)
Definition generateRecommendations (success : bool)
  (context : AgentExecutionContext) (recommendations : list string)
  : list string :=
  if success then
    recommendations
    ++ [ "Validate data integrity after changes";
         "Run integration tests for data flow";
         "Check performance impact of changes" ]
  else
    recommendations
    ++ [ "Consider adding data logging for debugging";
         "Review sample data and edge cases";
         "May require manual data migration" ].

Section WithWorld.

Variable World : Type.

(** What [applyFix] does on disk for one code change that names a file
    ([existsSync], [readFileSync], [replace], [writeFileSync]); it may
    throw. *)
Variable applyCodeChange :
  CodeChange -> World -> Completion unit * World.

(** [for (const change of fix.codeChanges)]: a change with an empty
    [filePath] is passed over. *)
Fixpoint applyCodeChanges (changes : list CodeChange) (w : World)
  : Completion unit * World :=
  match changes with
  | [] => (Normal tt, w)
  | change :: rest =>
      if truthy_str (Some (filePath change)) then
        match applyCodeChange change w with
        | (Normal _, w) => applyCodeChanges rest w
        | (Throw e, w) => (Throw e, w)
        end
      else applyCodeChanges rest w
  end.

(** [applyFix]: the iteration is recorded and [true] returned, unless a
    code change threw, which is caught and gives [false]. *)
Definition applyFix (suggestion : FixSuggestion)
  (st : SpecialistAgent.AgentState World)
  : Completion bool * SpecialistAgent.AgentState World :=
  match applyCodeChanges (codeChanges suggestion)
          (SpecialistAgent.world st) with
  | (Normal _, w) =>
      (Normal true,
       SpecialistAgent.recordIteration
         (mkIterationResult true
            (Z.of_nat (List.length (SpecialistAgent.iterationHistory st))
             + 1)
            [fs_description suggestion] None (files suggestion))
         (SpecialistAgent.mkAgentState
            (SpecialistAgent.iterationHistory st) w))
  | (Throw e, w) =>
      (Normal false,
       SpecialistAgent.mkAgentState (SpecialistAgent.iterationHistory st) w)
  end.

(** [new DataAnalysisSpecialistAgent(maxIterations = 7)] *)
Definition make (maxIterations : option Z)
  : SpecialistAgent.SpecialistAgent World :=
  SpecialistAgent.construct dataCapability
    (Some match maxIterations with Some n => n | None => 7 end)
    (fun context st => (Normal (analyzeContext context), st))
    (fun context st => (Normal (analyzeContext context), st))
    applyFix
    (Some generateRecommendations).

End WithWorld.

End DataAnalysisSpecialistAgent.

(* ================================================================== *)
(** ** multi_agent_orchestrator.ts *)
(* ================================================================== *)

Record ProblemClassification : Type := mkProblemClassification {
  primaryCategory : ErrorCategory;
  secondaryCategories : list ErrorCategory;
  suggestedAgents : list AgentSpecialty;
  pc_confidence : Q;
  pc_description : string
}.

Record MultiAgentResult : Type := mkMultiAgentResult {
  mar_succeeded : bool;
  primaryAgent : AgentSpecialty;
  agentsUsed : list AgentSpecialty;
  totalIterations : Z;
  mar_changes : list string;
  mar_modifiedFiles : list string;
  mar_executionPath : list string;
  problemClassification : ProblemClassification
}.

Module MultiAgentOrchestrator.

Import Str.

Definition detectPrimaryCategory (errorOutput request : string)
  : ErrorCategory :=
  let combined := toLowerCase (errorOutput ++ request) in
  if includes combined "data" || includes combined "query"
     || includes combined "sql"
  then LOGIC
  else if includes combined "test" || includes combined "expect" then TEST
  else if includes combined "type" || includes combined "typescript"
  then TYPE
  else if includes combined "syntax" || includes combined "token"
  then SYNTAX
  else if includes combined "import" || includes combined "module"
  then DEPENDENCY
  else if includes combined "build" || includes combined "compile"
  then BUILD
  else if includes combined "lint" || includes combined "eslint" then LINT
  else if includes combined "performance" || includes combined "slow"
  then OTHER
  else LOGIC.

Definition detectSecondaryCategories (errorOutput : string)
  : list ErrorCategory :=
  let lower := toLowerCase errorOutput in
  (if includes lower "type" then [TYPE] else [])
  ++ (if includes lower "null" || includes lower "undefined"
      then [RUNTIME] else [])
  ++ (if includes lower "null" then [RUNTIME] else []).

Definition webDevKeywords : list string :=
  [ "session"; "login"; "auth"; "cookie"; "bearer"; "token";
    "nextauth"; "express"; "nestjs"; "fastapi"; "django";
    "middleware"; "redirect"; "csrf"; "cors"; "credential";
    "hydration"; "useeffect"; "usestate"; "context"; "redux"; "zustand" ].

Definition uiKeywords : list string :=
  [ "component"; "render"; "blank"; "display"; "hook"; "state";
    "react"; "vue"; "jsx"; "tsx"; "useeffect"; "usestate" ].

Definition selectSuitableAgents (primaryCategory : ErrorCategory)
  (secondaryCategories : list ErrorCategory)
  (context : AgentExecutionContext) : list AgentSpecialty :=
  let request := toLowerCase (request context) in
  let codebase := toLowerCase (codebaseContext context) in
  let suggested : list AgentSpecialty := [] in
  let hasWebDevKeyword :=
    existsb (fun kw => includes request kw || includes codebase kw)
      webDevKeywords in
  let suggested :=
    if hasWebDevKeyword then suggested ++ [WEB_DEVELOPMENT] else suggested in
  let hasUIKeyword :=
    existsb (fun kw => includes request kw || includes codebase kw)
      uiKeywords in
  let suggested :=
    if hasUIKeyword
       && negb (existsb (AgentSpecialty_eqb WEB_DEVELOPMENT) suggested)
    then suggested ++ [UI_REFACTORING] else suggested in
  let suggested :=
    if includes request "data" || includes request "query"
       || includes request "sql" || includes request "parse"
       || includes request "transform" || includes request "analysis"
    then suggested ++ [DATA_ANALYSIS] else suggested in
  let suggested :=
    if includes request "test" || ErrorCategory_eqb primaryCategory TEST
    then suggested ++ [TESTING] else suggested in
  let suggested :=
    if includes request "architecture" || includes request "structure"
       || includes request "refactor" || includes request "design"
    then suggested ++ [ARCHITECTURE] else suggested in
  let suggested :=
    if includes request "performance" || includes request "optimize"
       || includes request "fast" || includes request "slow"
    then suggested ++ [PERFORMANCE] else suggested in
  let suggested :=
    if includes request "security" || includes request "vulnerable"
       || includes request "encrypt"
    then suggested ++ [SECURITY] else suggested in
  if (List.length suggested =? 0)%nat then suggested ++ [GENERAL]
  else suggested.

(** "A specific strategy matches the evidence": the test that
    [selectSuitableAgents] makes for each specialist, read off its
    [if]s.  The general agent has no test of its own. *)
Definition specialistMatches (primaryCategory : ErrorCategory)
  (context : AgentExecutionContext) (specialty : AgentSpecialty) : bool :=
  let request := toLowerCase (request context) in
  let codebase := toLowerCase (codebaseContext context) in
  let mentions (keywords : list string) :=
    existsb (fun kw => includes request kw || includes codebase kw)
      keywords in
  match specialty with
  | WEB_DEVELOPMENT => mentions webDevKeywords
  | UI_REFACTORING => mentions uiKeywords && negb (mentions webDevKeywords)
  | DATA_ANALYSIS =>
      includes request "data" || includes request "query"
      || includes request "sql" || includes request "parse"
      || includes request "transform" || includes request "analysis"
  | TESTING =>
      includes request "test" || ErrorCategory_eqb primaryCategory TEST
  | ARCHITECTURE =>
      includes request "architecture" || includes request "structure"
      || includes request "refactor" || includes request "design"
  | PERFORMANCE =>
      includes request "performance" || includes request "optimize"
      || includes request "fast" || includes request "slow"
  | SECURITY =>
      includes request "security" || includes request "vulnerable"
      || includes request "encrypt"
  | GENERAL => false
  end.

(** The specialists in the order in which [selectSuitableAgents] tests
    them. *)
Definition specialists : list AgentSpecialty :=
  [ WEB_DEVELOPMENT; UI_REFACTORING; DATA_ANALYSIS; TESTING; ARCHITECTURE;
    PERFORMANCE; SECURITY ].

(** [Math.min(0.9, errorLength / 1000)]: the part of the confidence that
    depends on the length of the diagnostic text. *)
Definition lengthConfidence (errorLength : Z) : Q :=
  Math_min (9 # 10) (inject_Z errorLength / 1000)%Q.

(** [1 - (suggestedAgents.length - 1) * 0.1] *)
Definition agentCountFactor (count : Z) : Q :=
  (1 - inject_Z (count - 1) * (1 # 10))%Q.

Definition calculateClassificationConfidence (errorOutput : string)
  (suggestedAgents : list AgentSpecialty) : Q :=
  let errorLength := slen errorOutput in
  let confidence := Math_min (9 # 10) (inject_Z errorLength / 1000)%Q in
  let confidence :=
    (confidence
     * (1 - inject_Z (Z.of_nat (List.length suggestedAgents) - 1) * (1 # 10)))%Q
  in
  Math_max (3 # 10) (Math_min (95 # 100) confidence).

Definition classifyProblem (context : AgentExecutionContext)
  : ProblemClassification :=
  let errorOutput := str_or_lit (ctx_errorOutput context) "" in
  let primaryCategory := detectPrimaryCategory errorOutput (request context) in
  let secondaryCategories := detectSecondaryCategories errorOutput in
  let suggestedAgents :=
    selectSuitableAgents primaryCategory secondaryCategories context in
  let confidence :=
    calculateClassificationConfidence errorOutput suggestedAgents in
  mkProblemClassification primaryCategory secondaryCategories suggestedAgents
    confidence
    (ErrorCategory_value primaryCategory ++ " issue, likely solvable by "
     ++ join ", " (List.map AgentSpecialty_value suggestedAgents)
     ++ " agent(s)")%string.

Section WithWorld.

Variable World : Type.

(** What the orchestrator asks of a registered agent: [execute], which
    returns a result or throws. *)
Record RegisteredAgent : Type := mkRegisteredAgent {
  run : AgentExecutionContext -> World ->
        Completion AgentExecutionResult * World
}.

(** An agent built on the base class runs the base [execute]; its
    iteration history is reset on entry, so none is carried in. *)
Definition ofSpecialist (a : SpecialistAgent.SpecialistAgent World)
  : RegisteredAgent :=
  mkRegisteredAgent (fun context w =>
    let (result, st) :=
      SpecialistAgent.execute a context (SpecialistAgent.mkAgentState [] w) in
    (Normal result, SpecialistAgent.world st)).

Definition Agents : Type := list (AgentSpecialty * RegisteredAgent).

Definition registerAgent (agents : Agents) (agent : RegisteredAgent)
  (specialty : AgentSpecialty) : Agents :=
  map_set AgentSpecialty_eqb agents specialty agent.

Definition getRegisteredAgents (agents : Agents) : list AgentSpecialty :=
  map_keys agents.

Definition getAgent (agents : Agents) (specialty : AgentSpecialty)
  : option RegisteredAgent :=
  map_get AgentSpecialty_eqb agents specialty.

(** The entry of the execution path that marks the start of an agent. *)
Definition started (s : AgentSpecialty) : string :=
  (AgentSpecialty_value s ++ "(start)")%string.

(** The variables of [execute] that its loop assigns, and the world. *)
Record Progress : Type := mkProgress {
  result : option AgentExecutionResult;
  pr_agentsUsed : list AgentSpecialty;
  pr_totalIterations : Z;
  executionPath : list string;
  pr_world : World
}.

(** [for (const agentSpecialty of classification.suggestedAgents)] *)
Fixpoint tryAgents (agents : Agents) (context : AgentExecutionContext)
  (candidates : list AgentSpecialty) (p : Progress) : Progress :=
  match candidates with
  | [] => p
  | agentSpecialty :: rest =>
      match map_get AgentSpecialty_eqb agents agentSpecialty with
      | None => tryAgents agents context rest p
      | Some agent =>
          let path1 :=
            executionPath p
            ++ [(AgentSpecialty_value agentSpecialty ++ "(start)")%string] in
          match run agent context (pr_world p) with
          | (Normal r, w) =>
              let p' :=
                mkProgress (Some r)
                  (pr_agentsUsed p ++ [agentSpecialty])
                  (pr_totalIterations p + iterations r)
                  (path1
                   ++ [(AgentSpecialty_value agentSpecialty ++ "(end)")%string])
                  w in
              if success r then p' else tryAgents agents context rest p'
          | (Throw e, w) =>
              tryAgents agents context rest
                (mkProgress (result p) (pr_agentsUsed p)
                   (pr_totalIterations p)
                   (path1
                    ++ [(AgentSpecialty_value agentSpecialty
                         ++ "(error)")%string])
                   w)
          end
      end
  end.

(** [initializeAgents]: the registry of a new orchestrator holds the
    data analysis agent, with a budget of 7, and nothing else. *)
Definition initializeAgents
  (applyCodeChange : CodeChange -> World -> Completion unit * World)
  : Agents :=
  registerAgent []
    (ofSpecialist (DataAnalysisSpecialistAgent.make applyCodeChange (Some 7)))
    DATA_ANALYSIS.

(** One call of an agent's [execute]: for which candidate, in which
    world, what it returned or threw, and the world it left. *)
Record Attempt : Type := mkAttempt {
  attempted : AgentSpecialty;
  world_before : World;
  outcome : Completion AgentExecutionResult;
  world_after : World
}.

(** The candidates strictly in list order: one without a registered
    agent is passed over; the registered agent's [execute] is called on
    the context, in the world the call before it left; a success ends the
    walk, a failure and an exception go on to the next candidate.
    [Walk agents context candidates w attempts w'] holds of the calls
    made from world [w] and of the world [w'] they leave. *)
Inductive Walk (agents : Agents) (context : AgentExecutionContext)
  : list AgentSpecialty -> World -> list Attempt -> World -> Prop :=
| Walk_end (w : World) : Walk agents context [] w [] w
| Walk_unregistered (s : AgentSpecialty) (rest : list AgentSpecialty)
    (w w' : World) (attempts : list Attempt) :
    getAgent agents s = None ->
    Walk agents context rest w attempts w' ->
    Walk agents context (s :: rest) w attempts w'
| Walk_success (s : AgentSpecialty) (rest : list AgentSpecialty)
    (agent : RegisteredAgent) (w w1 : World) (r : AgentExecutionResult) :
    getAgent agents s = Some agent ->
    run agent context w = (Normal r, w1) ->
    success r = true ->
    Walk agents context (s :: rest) w [mkAttempt s w (Normal r) w1] w1
| Walk_failure (s : AgentSpecialty) (rest : list AgentSpecialty)
    (agent : RegisteredAgent) (w w1 w' : World) (r : AgentExecutionResult)
    (attempts : list Attempt) :
    getAgent agents s = Some agent ->
    run agent context w = (Normal r, w1) ->
    success r = false ->
    Walk agents context rest w1 attempts w' ->
    Walk agents context (s :: rest) w
      (mkAttempt s w (Normal r) w1 :: attempts) w'
| Walk_exception (s : AgentSpecialty) (rest : list AgentSpecialty)
    (agent : RegisteredAgent) (w w1 w' : World) (e : Js.Error)
    (attempts : list Attempt) :
    getAgent agents s = Some agent ->
    run agent context w = (Throw e, w1) ->
    Walk agents context rest w1 attempts w' ->
    Walk agents context (s :: rest) w
      (mkAttempt s w (Throw e) w1 :: attempts) w'.

(** The calls that returned, with what they returned. *)
Definition returned (attempts : list Attempt)
  : list (AgentSpecialty * AgentExecutionResult) :=
  flat_map
    (fun a =>
       match outcome a with
       | Normal r => [(attempted a, r)]
       | Throw _ => []
       end)
    attempts.

(** The two entries of the execution path for one call. *)
Definition pathEntries (a : Attempt) : list string :=
  [ started (attempted a);
    (AgentSpecialty_value (attempted a)
     ++ match outcome a with
        | Normal _ => "(end)"
        | Throw _ => "(error)"
        end)%string ].

(** [execute] *)
Definition execute (agents : Agents) (context : AgentExecutionContext)
  (w : World) : MultiAgentResult * World :=
  let classification := classifyProblem context in
  let p :=
    tryAgents agents context (suggestedAgents classification)
      (mkProgress None [] 0 [] w) in
  let succeeded :=
    match result p with
    | Some r => success r || false
    | None => false
    end in
  let primaryAgent := hd GENERAL (pr_agentsUsed p) in
  (mkMultiAgentResult succeeded primaryAgent (pr_agentsUsed p)
     (pr_totalIterations p)
     (match result p with Some r => changes r | None => [] end)
     (match result p with Some r => modifiedFiles r | None => [] end)
     (executionPath p)
     classification,
   pr_world p).

End WithWorld.

End MultiAgentOrchestrator.

(* ================================================================== *)
(** ** enhanced_iteration_engine.ts *)
(* ================================================================== *)

Inductive AttemptResult : Type :=
| AttemptSuccess | AttemptFailure | AttemptPartial.

Record AttemptedSolution : Type := mkAttemptedSolution {
  agentSpecialty : string;
  approach : string;
  att_result : AttemptResult;
  att_iteration : Z;
  errorMessage : option string
}.

Record AppliedChange : Type := mkAppliedChange {
  ac_filePath : string;
  changeDescription : string;
  ac_timestamp : Z
}.

Record ExecutionMemory : Type := mkExecutionMemory {
  executionId : string;
  originalRequest : string;
  attemptedSolutions : list AttemptedSolution;
  appliedChanges : list AppliedChange;
  em_succeeded : bool;
  em_totalIterations : Z;
  timestamp : Z
}.

Module EnhancedIterationEngine.

Import Str.

(** [this.executionMemory]: a [Map<string, ExecutionMemory>]. *)
Definition Store : Type := list (string * ExecutionMemory).

Definition get (store : Store) (id : string) : option ExecutionMemory :=
  map_get String.eqb store id.

Definition set (store : Store) (id : string) (m : ExecutionMemory) : Store :=
  map_set String.eqb store id m.

(** [createExecutionMemory]; [now] is [Date.now()]. *)
Definition createExecutionMemory (store : Store) (now : Z)
  (requestId originalRequest : string) : ExecutionMemory * Store :=
  let memory :=
    mkExecutionMemory requestId originalRequest [] [] false 0 now in
  (memory, set store requestId memory).

(** The three recorders change the stored object itself, which keeps its
    place in the map. *)
Definition recordAttempt (store : Store) (id specialty
  approach : string) (result : AttemptResult) (iteration : Z)
  (errorMessage : option string) : Store :=
  match get store id with
  | None => store
  | Some memory =>
      set store id
        (mkExecutionMemory (executionId memory)
           (originalRequest memory)
           (attemptedSolutions memory
            ++ [mkAttemptedSolution specialty approach result iteration
                  errorMessage])
           (appliedChanges memory) (em_succeeded memory)
           (em_totalIterations memory) (timestamp memory))
  end.

Definition recordAppliedChange (store : Store) (now : Z)
  (id filePath changeDescription : string) : Store :=
  match get store id with
  | None => store
  | Some memory =>
      set store id
        (mkExecutionMemory (executionId memory)
           (originalRequest memory) (attemptedSolutions memory)
           (appliedChanges memory
            ++ [mkAppliedChange filePath changeDescription now])
           (em_succeeded memory) (em_totalIterations memory)
           (timestamp memory))
  end.

Definition markSucceeded (store : Store) (id : string)
  (totalIterations : Z) : Store :=
  match get store id with
  | None => store
  | Some memory =>
      set store id
        (mkExecutionMemory (executionId memory)
           (originalRequest memory) (attemptedSolutions memory)
           (appliedChanges memory) true totalIterations (timestamp memory))
  end.

(** [text.toLowerCase().split(/\s+/).filter(token => token.length > 2)] *)
Definition tokenize (text : string) : list string :=
  filter (fun token => slen token >? 2) (split_ws (toLowerCase text)).

Definition calculateSimilarity (tokens1 tokens2 : list string) : Q :=
  let set1 := js_set tokens1 in
  let set2 := js_set tokens2 in
  let intersection :=
    Z.of_nat
      (List.length
         (filter (fun token => existsb (String.eqb token) set2) set1)) in
  let union :=
    Z.of_nat (List.length set1) + Z.of_nat (List.length set2) - intersection in
  if union >? 0 then (inject_Z intersection / inject_Z union)%Q else 0%Q.

(** [getSimilarSuccesses]; [!agentSpecialty] holds for a missing argument
    and for the empty string. *)
Definition getSimilarSuccesses (store : Store) (currentRequest : string)
  (specialty : option string) : list ExecutionMemory :=
  let currentTokens := tokenize currentRequest in
  let results :=
    filter
      (fun memory =>
         em_succeeded memory
         && Qgtb (calculateSimilarity currentTokens
                    (tokenize (originalRequest memory))) (5 # 10)
         && (negb (truthy_str specialty)
             || existsb
                  (fun s =>
                     match specialty with
                     | Some a => String.eqb (agentSpecialty s) a
                     | None => false
                     end)
                  (attemptedSolutions memory)))
      (map_values store) in
  Js.sort
    (fun a b => inject_Z (em_totalIterations b - em_totalIterations a))
    results.

Definition is_success (r : AttemptResult) : bool :=
  match r with AttemptSuccess => true | _ => false end.

Definition suggestNextApproach (store : Store) (id : string)
  (failedApproaches agentSpecialties : list string) : option string :=
  match get store id with
  | None => None
  | Some memory =>
      let successes :=
        getSimilarSuccesses store (originalRequest memory) None in
      hd_error
        (List.map approach
           (filter
              (fun solution =>
                 is_success (att_result solution)
                 && negb (existsb (String.eqb (approach solution))
                            failedApproaches)
                 && existsb (String.eqb (agentSpecialty solution))
                      agentSpecialties)
              (flat_map attemptedSolutions successes)))
  end.

(** [pruneMemory(keepCount = 100)] *)
Definition pruneMemory (store : Store) (keepCount : option Z) : Store :=
  let keepCount := match keepCount with Some k => k | None => 100 end in
  if map_size store <=? keepCount then store
  else
    let entries :=
      Js.sort
        (fun a b => inject_Z (timestamp (snd b) - timestamp (snd a)))
        store in
    let entriesToKeep := slice0 entries keepCount in
    fold_left (fun m e => set m (fst e) (snd e)) entriesToKeep [].

Definition exportMemory (store : Store) : list ExecutionMemory :=
  map_values store.

(** A store as the engine builds it holds one entry per id. *)
Definition wf (store : Store) : Prop := NoDup (map_keys store).

(** [loadMemory].  [file] is what the persistence file gives: nothing when
    it does not exist, the parsed list of memories, or the exception of
    reading or parsing it, which is caught and leaves the store as it
    is. *)
Definition loadMemory (store : Store)
  (file : option (Completion (list ExecutionMemory))) : Store :=
  match file with
  | None => store
  | Some (Throw _) => store
  | Some (Normal memories) =>
      fold_left (fun m memory => set m (executionId memory) memory)
        memories store
  end.

(** Every entry is stored under its own [executionId], as
    [createExecutionMemory] and [loadMemory] store it. *)
Definition keyed (store : Store) : Prop :=
  forall id m, In (id, m) store -> executionId m = id.

Record MemoryStats : Type := mkMemoryStats {
  totalExecutions : Z;
  successfulExecutions : Z;
  averageIterations : Q;
  mostCommonAgents : list string;
  successRate : Q
}.

(** [agentCounts.set(agent, (agentCounts.get(agent) || 0) + 1)] for every
    attempt of every memory. *)
Definition countAgents (memories : list ExecutionMemory)
  : list (string * Z) :=
  fold_left
    (fun counts solution =>
       map_set String.eqb counts (agentSpecialty solution)
         (num_or (map_get String.eqb counts (agentSpecialty solution)) 0 + 1))
    (flat_map attemptedSolutions memories) [].

Definition getMemoryStats (store : Store) : MemoryStats :=
  let memories := map_values store in
  let successful := filter em_succeeded memories in
  let agentCounts := countAgents memories in
  let mostCommonAgents :=
    List.map fst
      (slice0 (Js.sort (fun a b => inject_Z (snd b - snd a)) agentCounts) 3)
  in
  let totalIterations :=
    fold_left (fun sum m => sum + em_totalIterations m) successful 0 in
  let averageIterations :=
    if Z.of_nat (List.length successful) >? 0
    then (inject_Z totalIterations
          / inject_Z (Z.of_nat (List.length successful)))%Q
    else 0%Q in
  mkMemoryStats (Z.of_nat (List.length memories))
    (Z.of_nat (List.length successful))
    averageIterations mostCommonAgents
    (if Z.of_nat (List.length memories) >? 0
     then (inject_Z (Z.of_nat (List.length successful))
           / inject_Z (Z.of_nat (List.length memories)))%Q
     else 0%Q).

End EnhancedIterationEngine.

(* ================================================================== *)
(** ** Concrete runs used below *)
(* ================================================================== *)

Module Scenarios.

(** A check that exits with code 1 on every run, with an assertion
    failure on its standard error. *)
Definition exitsWithCode1 (iteration : Z) : Completion string :=
  Throw (mkError (Some 1) (Some "")
           (Some "AssertionError: Expected 'foo' but got 'bar'")
           (Some "Command failed: node verify.js")).

(** A check that prints its failure on standard output, nothing on
    standard error, and exits with code 1. *)
Definition failsOnStdout : Completion string :=
  Throw (mkError (Some 1) (Some "1 test failed") (Some "")
           (Some "Command failed: node verify.js")).

(** A probe that writes the check. *)
Definition probeOk (request codebase : string)
  : Completion VerificationScript :=
  Normal (mkVerificationScript "/work/verify_iteration_1.js"
            "process.exit(1)" None None None).

(** The iteration engine on an assertion failure: the error text falls
    in the test category, the two test suggestions are generated, and
    the better one, which changes no file, is applied. *)
Definition engineApplies : string -> string -> Z -> IterationResult :=
  IterationEngine.executeIteration
    (fun _ _ => IterationEngine.generateTestFixSuggestions)
    (fun _ => true).

Definition testRequest : RequestContext :=
  mkRequestContext "fix the failing unit tests" "/raph" "package.json".

(** A check that exits with code 1 on its first two runs and with code 0
    from the third on. *)
Definition passesOnThird (iteration : Z) : Completion string :=
  if iteration <? 3 then exitsWithCode1 iteration else Normal "ok".

(** An [applyFix] for agents of one's own: nothing is written, the
    iteration is recorded and [true] is returned. *)
Definition recordingApplyFix (suggestion : FixSuggestion)
  (st : SpecialistAgent.AgentState unit)
  : Completion bool * SpecialistAgent.AgentState unit :=
  (Normal true,
   SpecialistAgent.recordIteration
     (mkIterationResult true
        (Z.of_nat (List.length (SpecialistAgent.iterationHistory st)) + 1)
        [fs_description suggestion] None (files suggestion))
     st).

Definition fixed (suggestions : list FixSuggestion)
  (context : AgentExecutionContext) (st : SpecialistAgent.AgentState unit)
  : Completion (list FixSuggestion) * SpecialistAgent.AgentState unit :=
  (Normal suggestions, st).

Definition refreshHook : FixSuggestion :=
  mkFixSuggestion ADD_FUNCTION
    "Add session refresh hook to sync state with backend periodically"
    [] [] (8 # 10).

Definition persistCheck : FixSuggestion :=
  mkFixSuggestion MODIFY_LOGIC
    "Verify session storage is persisted on browser refresh"
    [] [] (75 # 100).

(** A web agent with a budget of three whose analysis proposes two
    suggestions, neither above the success threshold; [applyFix] is the
    web agent's placeholder. *)
Definition twoSuggestionAgent : SpecialistAgent.SpecialistAgent unit :=
  SpecialistAgent.construct WebDevelopmentSpecialistAgent.webCapability
    (Some 3)
    (fixed [refreshHook; persistCheck])
    (fixed [refreshHook; persistCheck])
    (fun _ st => (Normal true, st))
    None.

Definition sessionContext : AgentExecutionContext :=
  mkAgentExecutionContext "state mismatch after login"
    "fetch('/api/auth'); return { user: data }" None None.

(** The data analysis agent as the orchestrator creates it, with a
    budget of 7.  Its suggestions name no file, so the file system is
    never reached. *)
Definition noFiles (change : CodeChange) (w : unit)
  : Completion unit * unit :=
  (Normal tt, w).

Definition dataAgent : SpecialistAgent.SpecialistAgent unit :=
  DataAnalysisSpecialistAgent.make noFiles (Some 7).

(** An agent of one's own, to be registered for testing: one suggestion
    of confidence 0.9. *)
Definition testingCapability : AgentCapability :=
  mkAgentCapability TESTING ["*"] [TEST] (8 # 10) "Testing agent" 5.

Definition expectationFix : FixSuggestion :=
  mkFixSuggestion UPDATE_TEST "Fix implementation to match test expectations"
    ["src/sum.test.ts"] [] (9 # 10).

Definition testingAgent : SpecialistAgent.SpecialistAgent unit :=
  SpecialistAgent.construct testingCapability None
    (fixed [expectationFix]) (fixed [expectationFix])
    recordingApplyFix None.

(** The registry of a new orchestrator, with the testing agent
    registered besides. *)
Definition twoAgents : MultiAgentOrchestrator.Agents unit :=
  MultiAgentOrchestrator.registerAgent
    (MultiAgentOrchestrator.initializeAgents noFiles)
    (MultiAgentOrchestrator.ofSpecialist testingAgent) TESTING.

(** A request for the data analysis agent and the testing agent, with an
    error that the data analysis agent takes for an SQL problem. *)
Definition dataTestContext : AgentExecutionContext :=
  mkAgentExecutionContext "fix data test" ""
    (Some "SQL error: syntax error in query") None.



(** Memory entries. *)
Definition shortRequestEntry : ExecutionMemory :=
  mkExecutionMemory "run-1" "do it"
    [mkAttemptedSolution "general" "retry" AttemptSuccess 1 None] []
    true 1 1000.

Definition entryAt (id : string) (request : string) (t : Z)
  : ExecutionMemory :=
  mkExecutionMemory id request [] [] true 2 t.

Definition threeEntries : EnhancedIterationEngine.Store :=
  [ ("a", entryAt "a" "fix the failing unit tests" 30);
    ("b", entryAt "b" "fix database query" 10);
    ("c", entryAt "c" "optimize slow render" 20) ].

End Scenarios.

(* ================================================================== *)
(** * Properties *)
(* ================================================================== *)

(** ** Numbers, sorting, maps *)

Module JsFacts.

Lemma Qltb_lt (a b : Q) : Qltb a b = true <-> (a < b)%Q.
Proof.
  unfold Qltb. rewrite negb_true_iff.
  split; intro H.
  - apply Qnot_le_lt. intro Hle. apply Qle_bool_iff in Hle. congruence.
  - destruct (Qle_bool b a) eqn:E; [|reflexivity].
    apply Qle_bool_iff in E. exfalso. apply (Qlt_not_le _ _ H E).
Qed.

Lemma Qle_bool_false (a b : Q) : Qle_bool a b = false -> (b < a)%Q.
Proof.
  intro H. apply Qnot_le_lt. intro Hle.
  apply Qle_bool_iff in Hle. congruence.
Qed.

Lemma Math_min_spec (a b : Q) :
  ((a <= b)%Q /\ Math_min a b = a) \/ ((b < a)%Q /\ Math_min a b = b).
Proof.
  unfold Math_min. destruct (Qle_bool a b) eqn:E.
  - left. split; [now apply Qle_bool_iff | reflexivity].
  - right. split; [now apply Qle_bool_false | reflexivity].
Qed.

Lemma Math_max_spec (a b : Q) :
  ((a <= b)%Q /\ Math_max a b = b) \/ ((b < a)%Q /\ Math_max a b = a).
Proof.
  unfold Math_max. destruct (Qle_bool a b) eqn:E.
  - left. split; [now apply Qle_bool_iff | reflexivity].
  - right. split; [now apply Qle_bool_false | reflexivity].
Qed.

Lemma inject_Z_le (x y : Z) : x <= y -> (inject_Z x <= inject_Z y)%Q.
Proof. intro H. now rewrite <- Zle_Qle. Qed.

Section SortFacts.

Context {A : Type} (compare : A -> A -> Q) (key : A -> Q).

(** The comparator orders by [key], largest first. *)
Hypothesis compare_key :
  forall a b, (compare a b <= 0)%Q <-> (key b <= key a)%Q.

Lemma sort_insert_perm (x : A) (l : list A) :
  Permutation (sort_insert compare x l) (x :: l).
Proof.
  induction l as [|y l IH]; simpl.
  - apply Permutation_refl.
  - destruct (Qle_bool (compare x y) 0).
    + apply Permutation_refl.
    + apply Permutation_trans with (y :: x :: l).
      * now apply perm_skip.
      * apply perm_swap.
Qed.

Lemma sort_perm (l : list A) : Permutation (Js.sort compare l) l.
Proof.
  induction l as [|x l IH]; simpl.
  - apply perm_nil.
  - apply Permutation_trans with (x :: Js.sort compare l).
    + apply sort_insert_perm.
    + now apply perm_skip.
Qed.

Lemma sort_In (l : list A) (x : A) : In x (Js.sort compare l) <-> In x l.
Proof.
  split; apply Permutation_in;
    [apply sort_perm | apply Permutation_sym, sort_perm].
Qed.

Lemma sort_length (l : list A) :
  List.length (Js.sort compare l) = List.length l.
Proof. apply Permutation_length, sort_perm. Qed.

Lemma sort_insert_sorted (x : A) (l : list A) :
  StronglySorted (descending key) l ->
  StronglySorted (descending key) (sort_insert compare x l).
Proof.
  induction 1 as [|y l Hs IH Hall]; simpl.
  - constructor; [constructor | constructor].
  - destruct (Qle_bool (compare x y) 0) eqn:E.
    + apply Qle_bool_iff, compare_key in E.
      constructor.
      * now constructor.
      * constructor; [exact E|].
        eapply Forall_impl; [|exact Hall].
        intros z Hz. unfold descending in *.
        eapply Qle_trans; eassumption.
    + apply Qle_bool_false in E.
      assert (Hxy : (key x <= key y)%Q).
      { apply Qnot_lt_le. intro Hlt.
        assert (Hc : (compare x y <= 0)%Q)
          by (apply compare_key, Qlt_le_weak, Hlt).
        apply (Qlt_not_le _ _ E Hc). }
      constructor; [exact IH|].
      apply Forall_forall. intros z Hz.
      apply (Permutation_in _ (sort_insert_perm x l)) in Hz.
      destruct Hz as [<- | Hz]; [exact Hxy|].
      rewrite Forall_forall in Hall. now apply Hall.
Qed.

Lemma sort_sorted (l : list A) :
  StronglySorted (descending key) (Js.sort compare l).
Proof.
  induction l as [|x l IH]; simpl.
  - constructor.
  - now apply sort_insert_sorted.
Qed.

(** The first element of the sorted array has the largest key. *)
Lemma sort_head_max (l : list A) (s : A) :
  hd_error (Js.sort compare l) = Some s ->
  In s l /\ forall s', In s' l -> (key s' <= key s)%Q.
Proof.
  intro H.
  pose proof (sort_sorted l) as Hs.
  destruct (Js.sort compare l) as [|h t] eqn:E; [discriminate|].
  injection H as ->.
  split.
  - apply sort_In. rewrite E. now left.
  - intros s' Hs'. apply sort_In in Hs'. rewrite E in Hs'.
    destruct Hs' as [<- | Hin]; [apply Qle_refl|].
    inversion Hs as [|? ? _ Hall]; subst.
    rewrite Forall_forall in Hall. now apply Hall.
Qed.

Lemma sort_nonempty (l : list A) :
  l <> [] -> exists s, hd_error (Js.sort compare l) = Some s.
Proof.
  intro H. destruct (Js.sort compare l) as [|h t] eqn:E.
  - apply (f_equal (@List.length A)) in E. rewrite sort_length in E.
    destruct l; [congruence | discriminate].
  - now exists h.
Qed.

End SortFacts.



Lemma sorted_app_order {A} (R : A -> A -> Prop) (l1 l2 : list A) :
  StronglySorted R (l1 ++ l2) ->
  forall x y, In x l1 -> In y l2 -> R x y.
Proof.
  induction l1 as [|h t IH]; simpl; intros Hs x y Hx Hy; [contradiction|].
  inversion Hs as [|? ? Hs' Hall]; subst.
  destruct Hx as [<- | Hx].
  - rewrite Forall_forall in Hall. apply Hall, in_or_app. now right.
  - now apply IH.
Qed.

End JsFacts.

(* ================================================================== *)
(** ** Verification manager *)
(* ================================================================== *)

Module VerificationFacts.

Import VerificationManager.

Lemma num_or_nonzero (x : option Z) (d : Z) : d <> 0 -> num_or x d <> 0.
Proof.
  intro Hd. unfold num_or. destruct x as [n|]; [|exact Hd].
  destruct (n =? 0) eqn:E; [exact Hd|]. now apply Z.eqb_neq.
Qed.

Lemma str_or_lit_truthy (x : option string) (text d : string) :
  x = Some text -> text <> "" -> str_or_lit x d = text.
Proof. intros -> H. destruct text; [contradiction | reflexivity]. Qed.

Lemma str_or_truthy (x y : option string) (text : string) :
  x = Some text -> text <> "" -> str_or x y = Some text.
Proof. intros -> H. destruct text; [contradiction | reflexivity]. Qed.

(** C2, as the code has it. Every check execution returns to its caller:
    a process that throws (non-zero exit, timeout, spawn failure) yields
    a script that is not passed, whose output is the captured standard
    output and whose error output, which [extractErrorInfo] hands on as
    diagnostic text, is the captured standard error when that is not
    empty and the message of the error otherwise; and a script counts as
    passed exactly when its recorded exit code is 0. *)
Theorem C2_failed_check_is_reported_not_thrown
  (run : Completion string) (script : VerificationScript) :
  exists executed,
    executeVerificationScript run script = Normal executed
    /\ (isVerificationPassed executed = true <-> exitCode executed = Some 0)
    /\ match run with
       | Normal out =>
           isVerificationPassed executed = true
           /\ output executed = Some out
       | Throw e =>
           isVerificationPassed executed = false
           /\ (exists n, exitCode executed = Some n /\ n <> 0)
           /\ output executed = Some (str_or_lit (stdout e) "")
           /\ errorOutput executed
              = Some (str_or_lit (str_or (stderr e) (message e)) "")
           /\ (forall text, stderr e = Some text -> text <> "" ->
               errorOutput executed = Some text
               /\ extractErrorInfo executed = text)
       end.
Proof.
  destruct run as [out | e]; simpl.
  - eexists. split; [reflexivity|]. simpl.
    split; [|split; reflexivity].
    unfold isVerificationPassed; simpl. split; reflexivity.
  - eexists. split; [reflexivity|].
    pose proof (@num_or_nonzero (status e) 1 ltac:(lia)) as Hnz.
    assert (Hfalse : isVerificationPassed
              (mkVerificationScript (path script) (code script)
                 (Some (num_or (status e) 1))
                 (Some (str_or_lit (stdout e) ""))
                 (Some (str_or_lit (str_or (stderr e) (message e)) "")))
            = false).
    { unfold isVerificationPassed; simpl. now apply Z.eqb_neq. }
    split.
    + rewrite Hfalse. simpl. split; [discriminate|].
      intro H. injection H as H. contradiction.
    + split; [exact Hfalse|]. simpl.
      split; [eexists; split; [reflexivity | exact Hnz]|].
      split; [reflexivity|]. split; [reflexivity|].
      intros text Hs Hne.
      assert (Herr : str_or_lit (str_or (stderr e) (message e)) "" = text).
      { rewrite (str_or_truthy (message e) Hs Hne).
        now apply str_or_lit_truthy. }
      split; [now rewrite Herr|].
      unfold extractErrorInfo. rewrite Hfalse. simpl.
      rewrite Herr.
      rewrite (@str_or_truthy (Some text) _ text eq_refl Hne).
      now apply str_or_lit_truthy.
Qed.

(** C2 as stated fails on the diagnostic text when nothing is captured
    on standard error: a check that prints its failure on standard
    output and exits with code 1 is reported with the message of the
    thrown error as error output, which is none of the captured
    texts. *)
Lemma C2_counterexample :
  exists executed,
    executeVerificationScript Scenarios.failsOnStdout
      (mkVerificationScript "verify.js" "process.exit(1)" None None None)
    = Normal executed
    /\ isVerificationPassed executed = false
    /\ output executed = Some "1 test failed"
    /\ errorOutput executed = Some "Command failed: node verify.js"
    /\ extractErrorInfo executed = "Command failed: node verify.js"
    /\ errorOutput executed <> Some "1 test failed"
    /\ errorOutput executed <> Some "".
Proof.
  eexists. split; [reflexivity|]. cbn.
  repeat split; discriminate.
Qed.

(** A check that exits with code 1 and prints an assertion failure. *)
Lemma C2_witness :
  exists executed,
    executeVerificationScript (Scenarios.exitsWithCode1 1)
      (mkVerificationScript "verify.js" "process.exit(1)" None None None)
    = Normal executed
    /\ isVerificationPassed executed = false
    /\ extractErrorInfo executed
       = "AssertionError: Expected 'foo' but got 'bar'".
Proof.
  destruct (C2_failed_check_is_reported_not_thrown
              (Scenarios.exitsWithCode1 1)
              (mkVerificationScript "verify.js" "process.exit(1)"
                 None None None))
    as (executed & Hrun & _ & Hfail & _ & _ & _ & Htext).
  exists executed. split; [exact Hrun|]. split; [exact Hfail|].
  apply (Htext "AssertionError: Expected 'foo' but got 'bar'").
  - reflexivity.
  - discriminate.
Defined.

End VerificationFacts.

(* ================================================================== *)
(** ** Protocol state machine *)
(* ================================================================== *)

Module ProtocolFacts.

Import RaphLoopProtocol.

(** With fuel for the distance to the budget, the loop as written
    returns, and returns what the loop without fuel does. *)
Lemma whileLoop_is_loop
  (config : RaphLoopConfig) (execSync : Z -> Completion string)
  (executeIteration : string -> string -> Z -> IterationResult)
  (context : RequestContext) (fuel : nat) :
  forall st,
    (Z.to_nat (cfg_maxIterations config - currentIteration st) <= fuel)%nat ->
    whileLoop config execSync executeIteration fuel context st
    = Some (loop config execSync executeIteration
              (Z.to_nat (cfg_maxIterations config - currentIteration st))
              context st).
Proof.
  induction fuel as [|fuel IH]; intros st Hfuel.
  - replace (Z.to_nat (cfg_maxIterations config - currentIteration st))
      with O by lia.
    cbn. destruct (Z.ltb_spec (currentIteration st) (cfg_maxIterations config));
      [lia | reflexivity].
  - cbn [whileLoop].
    destruct (Z.ltb_spec (currentIteration st) (cfg_maxIterations config))
      as [Hlt | Hge].
    + destruct (Z.to_nat (cfg_maxIterations config - currentIteration st))
        as [|n] eqn:En; [lia|].
      cbn [loop].
      destruct (verificationScript _) as [script|]; [|reflexivity].
      destruct (VerificationManager.executeVerificationScript _ script)
        as [executed|e]; [|reflexivity].
      destruct (VerificationManager.isVerificationPassed executed);
        [reflexivity|].
      destruct (_ >=? _); [reflexivity|].
      destruct (negb _); [reflexivity|].
      rewrite IH by (cbn; lia).
      do 2 f_equal. cbn. lia.
    + replace (Z.to_nat (cfg_maxIterations config - currentIteration st))
        with O by lia.
      reflexivity.
Qed.

Section AlwaysFailing.

Variable config : RaphLoopConfig.
Variable createVerificationScript :
  string -> string -> Completion VerificationScript.
Variable execSync : Z -> Completion string.
Variable executeIteration : string -> string -> Z -> IterationResult.
Variable context : RequestContext.

(** Every run of the check fails: the child process throws. *)
Hypothesis always_fails : forall i, exists e, execSync i = Throw e.

Let maxIterations := cfg_maxIterations config.

Lemma loop_when_check_fails (remaining : nat) :
  forall st script,
    verificationScript st = Some script ->
    (1 <= remaining)%nat ->
    Z.of_nat remaining = maxIterations - currentIteration st ->
    exists st',
      loop config execSync executeIteration remaining context st
      = (Normal false, st')
      /\ ended config executeIteration context st st' remaining.
Proof.
  induction remaining as [|remaining IH]; intros st script Hscript Hpos Hrem;
    [lia|].
  cbn [loop].
  cbn [set_currentIteration verificationScript currentIteration].
  rewrite Hscript.
  destruct (always_fails (currentIteration st + 1)) as [e ->].
  cbn [VerificationManager.executeVerificationScript try_catch bind].
  match goal with
  | |- context [VerificationManager.isVerificationPassed ?s] =>
      assert (Hnp : VerificationManager.isVerificationPassed s = false)
  end.
  { unfold VerificationManager.isVerificationPassed; simpl.
    apply Z.eqb_neq, VerificationFacts.num_or_nonzero. lia. }
  rewrite Hnp.
  cbn [set_verificationScript set_currentIteration currentIteration].
  destruct (currentIteration st + 1 >=? cfg_maxIterations config) eqn:Hge.
  - (* the budget is reached: the last pass applies no fix *)
    apply Z.geb_le in Hge.
    eexists. split; [reflexivity|].
    left. cbn. unfold maxIterations in *. lia.
  - assert (Hlt : currentIteration st + 1 < cfg_maxIterations config).
    { destruct (Z.ltb_spec (currentIteration st + 1)
                  (cfg_maxIterations config)) as [H|H]; [exact H|].
      apply Z.geb_le in H. congruence. }
    match goal with
    | |- context [executeIteration ?eo ?cb ?i] =>
        set (iterationResult := executeIteration eo cb i);
        pose (errorOutput := eo)
    end.
    destruct (ir_success iterationResult) eqn:Hsucc; cbn [negb].
    + (* the fix was applied: go round again *)
      match goal with
      | |- context [loop _ _ _ remaining context ?s] =>
          destruct (IH s _ eq_refl) as (st' & Hloop & Hend)
      end.
      { unfold maxIterations in *. lia. }
      { cbn. unfold maxIterations in *. lia. }
      exists st'. split; [exact Hloop|].
      destruct Hend as [[Hcur Hlen] | (Hcur & Hlen & Hlast)].
      * left. split; [exact Hcur|].
        cbn in Hlen. rewrite length_app in Hlen. cbn in Hlen. lia.
      * right. split; [exact Hcur|]. split; [|exact Hlast].
        cbn in Hlen. rewrite length_app in Hlen. cbn in Hlen. lia.
    + (* the fix was not applied: the loop is left *)
      eexists. split; [reflexivity|].
      right. cbn. split; [unfold maxIterations in *; lia|].
      split; [rewrite length_app; cbn; lia|].
      exists (iterationHistory st), errorOutput, (currentIteration st + 1).
      split; [reflexivity | exact Hsucc].
Qed.

Lemma loop_keeps_flags (remaining : nat) :
  forall st c st',
    loop config execSync executeIteration remaining context st = (c, st') ->
    phase st' = phase st /\ completed st' = completed st
    /\ failureError st' = failureError st.
Proof.
  induction remaining as [|remaining IH]; intros st c st' H.
  - simpl in H. injection H as _ <-. auto.
  - cbn [loop] in H.
    destruct (verificationScript (set_currentIteration st _)) as [script|];
      [|injection H as _ <-; auto].
    destruct (VerificationManager.executeVerificationScript _ script)
      as [executed|e]; [|injection H as _ <-; auto].
    destruct (VerificationManager.isVerificationPassed executed);
      [injection H as _ <-; auto|].
    destruct (_ >=? _); [injection H as _ <-; auto|].
    destruct (negb _); [injection H as _ <-; auto|].
    apply IH in H. cbn in H. exact H.
Qed.

End AlwaysFailing.

(** C1, as the code has it. When the check fails on every run and the
    budget is at least 1, the run completes with [succeeded = false] and
    no error, its counter at most [maxIterations]. A run whose counter
    reaches [maxIterations] has [maxIterations - 1] records, since the
    last pass only verifies, and that is how the run ends when every fix
    is applied; a run that ends earlier ends on a fix that was not
    applied, whose record is the last. *)
Theorem C1_failing_check_ends_run
  (config : RaphLoopConfig)
  (createVerificationScript :
     string -> string -> Completion VerificationScript)
  (execSync : Z -> Completion string)
  (executeIteration : string -> string -> Z -> IterationResult)
  (context : RequestContext) (script : VerificationScript) :
  createVerificationScript (rc_request context) (codebase context)
  = Normal script ->
  1 <= cfg_maxIterations config ->
  (forall i, exists e, execSync i = Throw e) ->
  let st :=
    execute config createVerificationScript execSync executeIteration
      context in
  succeeded st = false
  /\ completed st = true
  /\ phase st = COMPLETION
  /\ failureError st = None
  /\ currentIteration st <= cfg_maxIterations config
  /\ Z.of_nat (List.length (iterationHistory st))
     <= cfg_maxIterations config - 1
  /\ (currentIteration st = cfg_maxIterations config ->
      Z.of_nat (List.length (iterationHistory st))
      = cfg_maxIterations config - 1)
  /\ (currentIteration st < cfg_maxIterations config ->
      Z.of_nat (List.length (iterationHistory st)) = currentIteration st
      /\ exists earlier r,
           iterationHistory st = earlier ++ [r] /\ ir_success r = false)
  /\ ((forall errorOutput codebase i,
         ir_success (executeIteration errorOutput codebase i) = true) ->
      currentIteration st = cfg_maxIterations config
      /\ Z.of_nat (List.length (iterationHistory st))
         = cfg_maxIterations config - 1).
Proof.
  intros Hprobe Hmax Hfail. cbv zeta.
  unfold execute, executeProbePhase, executeLoopPhase.
  rewrite Hprobe.
  cbn [currentIteration set_phase set_verificationScript initializeState].
  destruct (@loop_when_check_fails config execSync executeIteration context
              Hfail (Z.to_nat (cfg_maxIterations config - 0))
              (set_phase
                 (set_verificationScript (set_phase initializeState PROBE)
                    (Some script)) LOOP)
              script eq_refl)
    as (st' & Hloop & Hend).
  { lia. }
  { cbn. lia. }
  pose proof (@loop_keeps_flags config execSync executeIteration context
                _ _ _ _ Hloop) as (Hphase & Hcompleted & Herr).
  rewrite Hloop. cbn.
  cbn in Hphase, Hcompleted, Herr.
  split; [reflexivity|]. split; [reflexivity|]. split; [reflexivity|].
  split; [exact Herr|].
  unfold ended in Hend. cbn in Hend.
  destruct Hend
    as [[Hcur Hlen] | (Hcur & Hlen & earlier & eo & i & Hhist & Hr)].
  - split; [lia|]. split; [lia|]. split; [intros _; lia|].
    split; [lia|].
    intros _. split; [exact Hcur | lia].
  - split; [lia|]. split; [lia|]. split; [intro; lia|].
    split.
    + intros _. split; [lia|].
      now exists earlier, (executeIteration eo (codebase context) i).
    + intro Hall. rewrite Hall in Hr. discriminate.
Qed.

(** The default budget of 5, a check that always exits with code 1 and an
    engine whose fixes all apply. *)
Lemma C1_witness :
  let st :=
    execute (defaultConfig "/work") Scenarios.probeOk
      Scenarios.exitsWithCode1 Scenarios.engineApplies
      Scenarios.testRequest in
  succeeded st = false
  /\ currentIteration st = 5
  /\ Z.of_nat (List.length (iterationHistory st)) = 4.
Proof.
  destruct (@C1_failing_check_ends_run (defaultConfig "/work")
              Scenarios.probeOk Scenarios.exitsWithCode1
              Scenarios.engineApplies Scenarios.testRequest
              (mkVerificationScript "/work/verify_iteration_1.js"
                 "process.exit(1)" None None None))
    as (Hs & _ & _ & _ & _ & _ & _ & _ & Hall).
  - reflexivity.
  - simpl; lia.
  - intro i. eexists. reflexivity.
  - destruct Hall as [Hcur Hlen]; [reflexivity|].
    split; [exact Hs|]. split; [exact Hcur | exact Hlen].
Defined.

(** C1 as stated fails: with the default budget of 5 and a check that
    always exits with code 1, four records are appended, not five. *)
Lemma C1_counterexample :
  (forall i, exists e, Scenarios.exitsWithCode1 i = Throw e
                       /\ status e = Some 1)
  /\ currentIteration
       (execute (defaultConfig "/work") Scenarios.probeOk
          Scenarios.exitsWithCode1 Scenarios.engineApplies
          Scenarios.testRequest) = 5
  /\ List.length
       (iterationHistory
          (execute (defaultConfig "/work") Scenarios.probeOk
             Scenarios.exitsWithCode1 Scenarios.engineApplies
             Scenarios.testRequest)) = 4%nat
  /\ Z.of_nat
       (List.length
          (iterationHistory
             (execute (defaultConfig "/work") Scenarios.probeOk
                Scenarios.exitsWithCode1 Scenarios.engineApplies
                Scenarios.testRequest)))
     <> cfg_maxIterations (defaultConfig "/work").
Proof.
  split; [intro i; eexists; split; reflexivity|].
  split; [reflexivity|]. split; [reflexivity|].
  vm_compute. discriminate.
Qed.

End ProtocolFacts.

(* ================================================================== *)
(** ** Specialist agents *)
(* ================================================================== *)

Module AgentFacts.

Import SpecialistAgent.




Lemma score_compare (iteration : Z) (a b : FixSuggestion) :
  (score b iteration - score a iteration <= 0)%Q
  <-> (score b iteration <= score a iteration)%Q.
Proof. split; intro H; lra. Qed.

(** What [selectBestSuggestion] returns for a non-empty array: an element
    of largest score, and the array sorted. *)
Lemma selectBestSuggestion_spec (suggestions : list FixSuggestion)
  (iteration : Z) :
  suggestions <> [] ->
  exists s sorted,
    selectBestSuggestion suggestions iteration = (Some s, sorted)
    /\ Permutation sorted suggestions
    /\ In s suggestions
    /\ forall s', In s' suggestions ->
         (score s' iteration <= score s iteration)%Q.
Proof.
  intro Hne. unfold selectBestSuggestion.
  destruct suggestions as [|s0 rest] eqn:E; [congruence|]. rewrite <- E in *.
  set (compare := fun a b : FixSuggestion =>
                    (score b iteration - score a iteration)%Q).
  destruct (JsFacts.sort_nonempty compare Hne) as [s Hs].
  exists s, (Js.sort compare suggestions).
  split; [now rewrite Hs|].
  split; [apply JsFacts.sort_perm|].
  apply (JsFacts.sort_head_max compare (fun x => score x iteration)
           (score_compare iteration) suggestions Hs).
Qed.

Lemma selectBestSuggestion_empty (iteration : Z) :
  selectBestSuggestion [] iteration = (None, []).
Proof. reflexivity. Qed.

Section Loop.

Variable World : Type.
Variable a : SpecialistAgent World.



(** With fuel for the values left, the loop as written returns, and
    returns what the loop without fuel does. *)
Lemma forLoop_is_loop (fuel : nat) :
  forall iteration suggestions st,
    (Z.to_nat (maxIterations a - iteration + 1) <= fuel)%nat ->
    forLoop a fuel iteration suggestions st
    = Some (loop a (Z.to_nat (maxIterations a - iteration + 1)) iteration
              suggestions st).
Proof.
  induction fuel as [|fuel IH]; intros iteration suggestions st Hfuel.
  - replace (Z.to_nat (maxIterations a - iteration + 1)) with O by lia.
    cbn. destruct (Z.leb_spec iteration (maxIterations a));
      [lia | reflexivity].
  - cbn [forLoop].
    destruct (Z.leb_spec iteration (maxIterations a)) as [Hle | Hgt].
    + destruct (Z.to_nat (maxIterations a - iteration + 1)) as [|n] eqn:En;
        [lia|].
      assert (Hn : n = Z.to_nat (maxIterations a - (iteration + 1) + 1))
        by lia.
      cbn [loop].
      destruct (selectBestSuggestion suggestions iteration)
        as [[suggestion|] sorted]; [|reflexivity].
      destruct (applyFix a suggestion st) as [[applied|e] st1];
        [|reflexivity].
      destruct applied; cbn [negb].
      * destruct (Qgtb _ _); [reflexivity|].
        rewrite IH by lia. rewrite <- Hn.
        now destruct (loop a n (iteration + 1) sorted st1) as [[? ?] ?].
      * rewrite IH by lia. rewrite <- Hn.
        now destruct (loop a n (iteration + 1) sorted st1) as [[? ?] ?].
    + replace (Z.to_nat (maxIterations a - iteration + 1)) with O by lia.
      reflexivity.
Qed.

(** The loop of [execute], which starts at iteration 1. *)
Lemma forLoop_from_1 (suggestions : list FixSuggestion)
  (st : AgentState World) :
  forLoop a (Z.to_nat (maxIterations a)) 1 suggestions st
  = Some (loop a (Z.to_nat (maxIterations a)) 1 suggestions st).
Proof.
  rewrite forLoop_is_loop by lia.
  now replace (maxIterations a - 1 + 1) with (maxIterations a) by lia.
Qed.

End Loop.




(** *** Rounding *)










(** C10. Whatever the context, the general agent's [execute] reports
    failure after no iteration, with no change and no modified file: its
    analysis proposes nothing, so the loop makes no pass, and its
    [applyFix] returns [false] for every suggestion. *)
Theorem C10_general_agent_applies_nothing
  (World : Type) (context : AgentExecutionContext) (st : AgentState World) :
  let result := fst (execute (GeneralSpecialistAgent World) context st) in
  success result = false
  /\ iterations result = 0
  /\ changes result = []
  /\ modifiedFiles result = []
  /\ agent result = GENERAL
  /\ snd (execute_passes (GeneralSpecialistAgent World) context st) = []
  /\ (forall st0,
        analyzeContext (GeneralSpecialistAgent World) context st0
        = (Normal [], st0))
  /\ (forall suggestion st0,
        applyFix (GeneralSpecialistAgent World) suggestion st0
        = (Normal false, st0)).
Proof. cbv zeta. repeat split. Qed.

End AgentFacts.

(* ================================================================== *)
(** ** Orchestrator *)
(* ================================================================== *)

Module OrchestratorFacts.

Import MultiAgentOrchestrator.

(** *** Classification *)

Lemma selectSuitableAgents_shape (primaryCategory : ErrorCategory)
  (secondaryCategories : list ErrorCategory)
  (context : AgentExecutionContext) :
  let suggested :=
    selectSuitableAgents primaryCategory secondaryCategories context in
  suggested = [GENERAL] \/ (suggested <> [] /\ ~ In GENERAL suggested).
Proof.
  cbv zeta. unfold selectSuitableAgents. cbv zeta.
  set (r := Str.toLowerCase (request context)).
  set (c := Str.toLowerCase (codebaseContext context)).
  generalize
    (existsb (fun kw => Str.includes r kw || Str.includes c kw)
       webDevKeywords).
  generalize
    (existsb (fun kw => Str.includes r kw || Str.includes c kw) uiKeywords).
  generalize
    (Str.includes r "data" || Str.includes r "query" || Str.includes r "sql"
     || Str.includes r "parse" || Str.includes r "transform"
     || Str.includes r "analysis").
  generalize (Str.includes r "test" || ErrorCategory_eqb primaryCategory TEST).
  generalize
    (Str.includes r "architecture" || Str.includes r "structure"
     || Str.includes r "refactor" || Str.includes r "design").
  generalize
    (Str.includes r "performance" || Str.includes r "optimize"
     || Str.includes r "fast" || Str.includes r "slow").
  generalize
    (Str.includes r "security" || Str.includes r "vulnerable"
     || Str.includes r "encrypt").
  intros bs bp ba bt bd bu bw.
  destruct bw, bu, bd, bt, ba, bp, bs; cbn;
    first [ left; reflexivity
          | right; split; [discriminate | intuition discriminate] ].
Qed.

Lemma detectPrimaryCategory_range (errorOutput request : string) :
  In (detectPrimaryCategory errorOutput request)
    [LOGIC; TEST; TYPE; SYNTAX; DEPENDENCY; BUILD; LINT; OTHER].
Proof.
  unfold detectPrimaryCategory. cbv zeta.
  repeat match goal with
  | |- context [if ?b then _ else _] => destruct b
  end; cbn; tauto.
Qed.

(** The candidates are the specialists whose test holds, in the order of
    the tests; the general agent stands in when there is none. *)
Lemma selectSuitableAgents_filter (primaryCategory : ErrorCategory)
  (secondaryCategories : list ErrorCategory)
  (context : AgentExecutionContext) :
  selectSuitableAgents primaryCategory secondaryCategories context
  = match filter (specialistMatches primaryCategory context) specialists with
    | [] => [GENERAL]
    | matching => matching
    end.
Proof.
  unfold selectSuitableAgents, specialistMatches, specialists. cbv zeta.
  set (r := Str.toLowerCase (request context)).
  set (c := Str.toLowerCase (codebaseContext context)).
  cbn [filter].
  generalize
    (existsb (fun kw => Str.includes r kw || Str.includes c kw)
       webDevKeywords).
  generalize
    (existsb (fun kw => Str.includes r kw || Str.includes c kw) uiKeywords).
  generalize
    (Str.includes r "data" || Str.includes r "query" || Str.includes r "sql"
     || Str.includes r "parse" || Str.includes r "transform"
     || Str.includes r "analysis").
  generalize (Str.includes r "test" || ErrorCategory_eqb primaryCategory TEST).
  generalize
    (Str.includes r "architecture" || Str.includes r "structure"
     || Str.includes r "refactor" || Str.includes r "design").
  generalize
    (Str.includes r "performance" || Str.includes r "optimize"
     || Str.includes r "fast" || Str.includes r "slow").
  generalize
    (Str.includes r "security" || Str.includes r "vulnerable"
     || Str.includes r "encrypt").
  intros bs bp ba bt bd bu bw.
  destruct bw, bu, bd, bt, ba, bp, bs; reflexivity.
Qed.

(** C4. Classification always names a primary category and at least one
    candidate strategy. The candidate list is exactly the general
    strategy when, and only when, no specialist matches the evidence;
    otherwise it holds the specialists that match, and only them, and
    not the general strategy. *)
Theorem C4_classification_never_empty (context : AgentExecutionContext) :
  let classification := classifyProblem context in
  let matches :=
    specialistMatches (primaryCategory classification) context in
  suggestedAgents classification <> []
  /\ ((forall s, matches s = false)
      <-> suggestedAgents classification = [GENERAL])
  /\ (In GENERAL (suggestedAgents classification)
      <-> forall s, matches s = false)
  /\ (forall s, s <> GENERAL ->
        In s (suggestedAgents classification) <-> matches s = true)
  /\ (suggestedAgents classification = [GENERAL]
      \/ ~ In GENERAL (suggestedAgents classification))
  /\ ((forall s, In s (suggestedAgents classification) -> s = GENERAL) ->
      suggestedAgents classification = [GENERAL])
  /\ In (primaryCategory classification)
       [LOGIC; TEST; TYPE; SYNTAX; DEPENDENCY; BUILD; LINT; OTHER]
  /\ (forall primary secondary,
        selectSuitableAgents primary secondary context
        = match filter (specialistMatches primary context) specialists with
          | [] => [GENERAL]
          | matching => matching
          end).
Proof.
  cbv zeta. unfold classifyProblem. cbv zeta.
  cbn [suggestedAgents primaryCategory].
  set (primary := detectPrimaryCategory _ _).
  set (secondary := detectSecondaryCategories _).
  rewrite (selectSuitableAgents_filter primary secondary context).
  set (matches := specialistMatches primary context).
  assert (Hfilter : forall s,
            In s (filter matches specialists)
            <-> s <> GENERAL /\ matches s = true).
  { intro s. rewrite filter_In. split.
    - intros [Hin Hm]. split; [|exact Hm].
      intros ->. unfold matches in Hm. discriminate.
    - intros [Hne Hm]. split; [|exact Hm].
      destruct s; cbn; tauto. }
  assert (Hgeneral : matches GENERAL = false) by reflexivity.
  destruct (filter matches specialists) as [|s0 rest] eqn:E.
  - (* no specialist matches *)
    assert (Hnone : forall s, matches s = false).
    { intro s. destruct (matches s) eqn:Hm; [|reflexivity].
      assert (Hne : s <> GENERAL) by (intros ->; congruence).
      destruct (proj2 (Hfilter s) (conj Hne Hm)). }
    split; [discriminate|]. split; [tauto|].
    split; [split; [intros _; exact Hnone | intros _; now left]|].
    split.
    { intros s Hne. split.
      - intros [<- | []]. congruence.
      - intro Hm. rewrite Hnone in Hm. discriminate. }
    split; [now left|]. split; [reflexivity|].
    split; [apply detectPrimaryCategory_range|].
    intros p sec. apply selectSuitableAgents_filter.
  - (* some specialist matches *)
    assert (Hs0 : s0 <> GENERAL /\ matches s0 = true)
      by (apply Hfilter; now left).
    assert (Hnot : ~ In GENERAL (s0 :: rest)).
    { intro Hin. apply Hfilter in Hin. tauto. }
    split; [discriminate|].
    split.
    { split.
      - intro Hnone. destruct Hs0 as [_ Hm]. rewrite Hnone in Hm.
        discriminate.
      - intro Heq. exfalso. apply Hnot. rewrite Heq. now left. }
    split.
    { split; [intro Hin; contradiction|].
      intro Hnone. destruct Hs0 as [_ Hm]. rewrite Hnone in Hm.
      discriminate. }
    split.
    { intros s Hne. rewrite Hfilter. tauto. }
    split; [now right|].
    split.
    { intro Hall. exfalso. apply (proj1 Hs0), Hall. now left. }
    split; [apply detectPrimaryCategory_range|].
    intros p sec. apply selectSuitableAgents_filter.
Qed.

(** *** Confidence *)

Lemma lengthConfidence_monotone (n m : Z) :
  n <= m -> (lengthConfidence n <= lengthConfidence m)%Q.
Proof.
  intro H. apply JsFacts.inject_Z_le in H. unfold lengthConfidence, Qdiv.
  change (/ 1000)%Q with (1 # 1000)%Q.
  destruct (JsFacts.Math_min_spec (9 # 10) (inject_Z n * (1 # 1000)))
    as [[H1 ->] | [H1 ->]];
  destruct (JsFacts.Math_min_spec (9 # 10) (inject_Z m * (1 # 1000)))
    as [[H2 ->] | [H2 ->]]; lra.
Qed.

Lemma lengthConfidence_nonneg (n : Z) :
  0 <= n -> (0 <= lengthConfidence n)%Q.
Proof.
  intro H. apply JsFacts.inject_Z_le in H. change (inject_Z 0) with 0%Q in H.
  unfold lengthConfidence, Qdiv. change (/ 1000)%Q with (1 # 1000)%Q.
  destruct (JsFacts.Math_min_spec (9 # 10) (inject_Z n * (1 # 1000)))
    as [[H1 ->] | [H1 ->]]; lra.
Qed.

Lemma clamp_range (lo hi x : Q) :
  (lo <= hi)%Q -> (lo <= clamp lo hi x <= hi)%Q.
Proof.
  intro H. unfold clamp.
  destruct (JsFacts.Math_min_spec hi x) as [[H1 E1] | [H1 E1]]; rewrite E1.
  - destruct (JsFacts.Math_max_spec lo hi) as [[H2 E2] | [H2 E2]];
      rewrite E2; lra.
  - destruct (JsFacts.Math_max_spec lo x) as [[H2 E2] | [H2 E2]];
      rewrite E2; lra.
Qed.

Lemma Math_max_monotone (lo x y : Q) :
  (x <= y)%Q -> (Math_max lo x <= Math_max lo y)%Q.
Proof.
  intro H.
  destruct (JsFacts.Math_max_spec lo x) as [[H1 E1] | [H1 E1]]; rewrite E1;
  destruct (JsFacts.Math_max_spec lo y) as [[H2 E2] | [H2 E2]]; rewrite E2;
  lra.
Qed.

Lemma Math_min_monotone (hi x y : Q) :
  (x <= y)%Q -> (Math_min hi x <= Math_min hi y)%Q.
Proof.
  intro H.
  destruct (JsFacts.Math_min_spec hi x) as [[H1 E1] | [H1 E1]]; rewrite E1;
  destruct (JsFacts.Math_min_spec hi y) as [[H2 E2] | [H2 E2]]; rewrite E2;
  lra.
Qed.

Lemma clamp_monotone (lo hi x y : Q) :
  (x <= y)%Q -> (clamp lo hi x <= clamp lo hi y)%Q.
Proof.
  intro H. unfold clamp. now apply Math_max_monotone, Math_min_monotone.
Qed.

Lemma clamp_low (lo hi x : Q) :
  (lo <= hi)%Q -> (x <= lo)%Q -> (clamp lo hi x == lo)%Q.
Proof.
  intros H Hx. unfold clamp.
  destruct (JsFacts.Math_min_spec hi x) as [[H1 E1] | [H1 E1]]; rewrite E1.
  - destruct (JsFacts.Math_max_spec lo hi) as [[H2 E2] | [H2 E2]];
      rewrite E2; lra.
  - destruct (JsFacts.Math_max_spec lo x) as [[H2 E2] | [H2 E2]];
      rewrite E2; lra.
Qed.

(** C8. The classification confidence is the clamp to [0.3, 0.95] of
    [lengthConfidence], a non-decreasing function of the length of the
    diagnostic text, times [1 - 0.1 * (candidateCount - 1)]; so it lies
    in [0.3, 0.95], and for a fixed candidate list it does not decrease
    when the diagnostic text grows longer. *)
Theorem C8_confidence_is_clamped_and_monotone
  (errorOutput longer : string) (suggested : list AgentSpecialty) :
  calculateClassificationConfidence errorOutput suggested
  = clamp (3 # 10) (95 # 100)
      (lengthConfidence (Str.slen errorOutput)
       * agentCountFactor (Z.of_nat (List.length suggested)))%Q
  /\ (forall n m, n <= m -> (lengthConfidence n <= lengthConfidence m)%Q)
  /\ (3 # 10 <= calculateClassificationConfidence errorOutput suggested
      <= 95 # 100)%Q
  /\ (Str.slen errorOutput <= Str.slen longer ->
      (calculateClassificationConfidence errorOutput suggested
       <= calculateClassificationConfidence longer suggested)%Q).
Proof.
  assert (Heq : forall e,
            calculateClassificationConfidence e suggested
            = clamp (3 # 10) (95 # 100)
                (lengthConfidence (Str.slen e)
                 * agentCountFactor (Z.of_nat (List.length suggested)))%Q)
    by reflexivity.
  split; [apply Heq|].
  split; [exact lengthConfidence_monotone|].
  split; [rewrite Heq; apply clamp_range; lra|].
  intro Hlen. rewrite !Heq.
  pose proof (lengthConfidence_monotone Hlen) as Hmono.
  assert (H0 : 0 <= Str.slen errorOutput) by (unfold Str.slen; lia).
  pose proof (lengthConfidence_nonneg H0) as Hnn.
  set (f1 := lengthConfidence (Str.slen errorOutput)) in *.
  set (f2 := lengthConfidence (Str.slen longer)) in *.
  set (k := agentCountFactor (Z.of_nat (List.length suggested))).
  destruct (Qlt_le_dec k 0) as [Hk | Hk].
  - (* a non-positive product on both sides: both confidences are 0.3 *)
    assert (H1 : (f1 * k <= 3 # 10)%Q) by nra.
    assert (H2 : (f2 * k <= 3 # 10)%Q) by nra.
    assert (H95 : (3 # 10 <= 95 # 100)%Q) by lra.
    rewrite (clamp_low H95 H1), (clamp_low H95 H2). apply Qle_refl.
  - apply clamp_monotone. nra.
Qed.

(** A longer diagnostic text, the same single candidate. *)
Lemma C8_witness :
  (calculateClassificationConfidence "TypeError" [TESTING]
   <= calculateClassificationConfidence
        "TypeError: Cannot read properties of undefined" [TESTING])%Q.
Proof.
  apply (@C8_confidence_is_clamped_and_monotone "TypeError"
           "TypeError: Cannot read properties of undefined" [TESTING]).
  vm_compute. discriminate.
Defined.

(** *** Fallback across strategies *)

Section Fallback.

Variable World : Type.
Variable agents : Agents World.
Variable context : AgentExecutionContext.

(** The loop over the candidates makes the calls of the walk, and adds
    to the progress [p0] it starts from what those calls returned. *)
Lemma tryAgents_walk (candidates : list AgentSpecialty) :
  forall p0,
    let p := tryAgents agents context candidates p0 in
    exists attempts,
      Walk agents context candidates (pr_world p0) attempts (pr_world p)
      /\ pr_agentsUsed p
         = pr_agentsUsed p0 ++ List.map fst (returned attempts)
      /\ pr_totalIterations p
         = pr_totalIterations p0
           + fold_right Z.add 0
               (List.map (fun x => iterations (snd x)) (returned attempts))
      /\ result p
         = match lastOf (returned attempts) with
           | Some x => Some (snd x)
           | None => result p0
           end
      /\ executionPath p
         = executionPath p0 ++ flat_map (@pathEntries World) attempts.
Proof.
  induction candidates as [|s rest IH]; intro p0; cbv zeta.
  - exists []. cbn. rewrite !app_nil_r.
    split; [constructor|]. split; [reflexivity|]. split; [lia|].
    split; reflexivity.
  - cbn [tryAgents].
    destruct (map_get AgentSpecialty_eqb agents s) as [agent|] eqn:Hreg.
    + destruct (run agent context (pr_world p0)) as [[r|e] w1] eqn:Hrun.
      * destruct (success r) eqn:Hsuccess.
        -- (* the agent solved the problem: the loop is left *)
           exists [mkAttempt s (pr_world p0) (Normal r) w1].
           cbn. rewrite <- app_assoc.
           split; [now apply Walk_success with (agent := agent)|].
           split; [reflexivity|]. split; [lia|]. split; reflexivity.
        -- (* the agent failed: on to the next candidate *)
           match goal with
           | |- context [tryAgents agents context rest ?q] =>
               destruct (IH q)
                 as (attempts & Hwalk & Hused & Htotal & Hres & Hpath)
           end.
           cbn [pr_world pr_agentsUsed pr_totalIterations result
                executionPath] in Hwalk, Hused, Htotal, Hres, Hpath.
           exists (mkAttempt s (pr_world p0) (Normal r) w1 :: attempts).
           split; [now apply Walk_failure with (agent := agent)|].
           cbn [returned flat_map outcome attempted app List.map fst snd
                fold_right lastOf pathEntries].
           fold (returned attempts).
           split; [rewrite Hused, <- app_assoc; reflexivity|].
           split; [rewrite Htotal; lia|].
           split.
           { rewrite Hres. now destruct (lastOf (returned attempts)). }
           rewrite Hpath, <- !app_assoc. reflexivity.
      * (* the agent threw: on to the next candidate *)
        match goal with
        | |- context [tryAgents agents context rest ?q] =>
            destruct (IH q)
              as (attempts & Hwalk & Hused & Htotal & Hres & Hpath)
        end.
        cbn [pr_world pr_agentsUsed pr_totalIterations result
             executionPath] in Hwalk, Hused, Htotal, Hres, Hpath.
        exists (mkAttempt s (pr_world p0) (Throw e) w1 :: attempts).
        split; [now apply Walk_exception with (agent := agent)|].
        cbn [returned flat_map outcome attempted app pathEntries].
        fold (returned attempts).
        split; [exact Hused|]. split; [exact Htotal|].
        split; [exact Hres|].
        rewrite Hpath, <- !app_assoc. reflexivity.
    + destruct (IH p0) as (attempts & Hwalk & Hused & Htotal & Hres & Hpath).
      exists attempts.
      split; [now apply Walk_unregistered|].
      split; [exact Hused|]. split; [exact Htotal|].
      split; [exact Hres | exact Hpath].
Qed.

End Fallback.




End OrchestratorFacts.

(* ================================================================== *)
(** ** Execution memory *)
(* ================================================================== *)

Module MemoryFacts.

Import EnhancedIterationEngine.

(** *** Token sets *)

Lemma js_set_from_In (xs seen : list string) (x : string) :
  In x (js_set_from seen xs) <-> In x xs /\ ~ In x seen.
Proof.
  revert seen. induction xs as [|y xs IH]; intro seen; cbn.
  - tauto.
  - destruct (existsb (String.eqb y) seen) eqn:E.
    + apply existsb_exists in E. destruct E as (z & Hz & Hyz).
      apply String.eqb_eq in Hyz. subst z.
      rewrite IH. split.
      * intros [H1 H2]. split; [now right | exact H2].
      * intros [[<- | H1] H2]; [contradiction | now split].
    + assert (Hy : ~ In y seen).
      { intro Hy.
        assert (Ht : existsb (String.eqb y) seen = true).
        { apply existsb_exists. exists y.
          split; [exact Hy | apply String.eqb_refl]. }
        congruence. }
      cbn. rewrite IH. split.
      * intros [<- | [H1 H2]]; [split; [now left | exact Hy]|].
        split; [now right|]. intro H. apply H2, in_or_app. now left.
      * intros [[<- | H1] H2]; [now left|].
        destruct (String.eqb_spec y x) as [-> | Hne]; [now left|].
        right. split; [exact H1|].
        intro H. apply in_app_or in H. destruct H as [H | [H | []]];
          [contradiction | congruence].
Qed.

Lemma js_set_In (xs : list string) (x : string) : In x (js_set xs) <-> In x xs.
Proof. unfold js_set. rewrite js_set_from_In. cbn. tauto. Qed.

Lemma js_set_nonempty (xs : list string) : xs <> [] -> js_set xs <> [].
Proof.
  destruct xs as [|x xs]; [congruence|]. intros _ H.
  assert (Hx : In x (js_set (x :: xs))) by (apply js_set_In; now left).
  rewrite H in Hx. contradiction.
Qed.

Lemma filter_all {A} (f : A -> bool) (l : list A) :
  (forall x, In x l -> f x = true) -> filter f l = l.
Proof.
  induction l as [|x l IH]; intro H; [reflexivity|]. cbn.
  rewrite (H x (or_introl eq_refl)). f_equal. apply IH.
  intros y Hy. apply H. now right.
Qed.

(** A non-empty token list is at similarity 1 from itself. *)
Lemma calculateSimilarity_self (tokens : list string) :
  tokens <> [] -> (calculateSimilarity tokens tokens == 1)%Q.
Proof.
  intro Hne. unfold calculateSimilarity. cbv zeta.
  rewrite filter_all.
  2:{ intros x Hx. apply existsb_exists. exists x.
      split; [exact Hx | apply String.eqb_refl]. }
  pose proof (js_set_nonempty Hne) as Hset.
  set (n := Z.of_nat (List.length (js_set tokens))).
  assert (Hn : 0 < n).
  { subst n. destruct (js_set tokens); [congruence | cbn; lia]. }
  replace (n + n - n) with n by lia.
  destruct (n >? 0) eqn:E; [|lia].
  apply Qmult_inv_r.
  intro H0. unfold Qeq in H0. cbn in H0. lia.
Qed.

(** C6, as the code has it. A stored entry that succeeded and whose
    request has at least one token longer than two characters is among
    the results of [getSimilarSuccesses] (the spec's
    [findSimilarSuccesses]) for a request identical to its own, asked
    without a strategy filter or with the strategy of one of the entry's
    attempts: the similarity of the two token sets is 1, above 0.5.  (A
    request without such a token has an empty token set, for which the
    similarity is defined as 0.) *)
Theorem C6_identical_request_is_found
  (store : Store) (id : string) (m : ExecutionMemory)
  (specialty : option string) :
  In (id, m) store ->
  em_succeeded m = true ->
  tokenize (originalRequest m) <> [] ->
  (truthy_str specialty = false
   \/ exists s, In s (attemptedSolutions m)
                /\ specialty = Some (agentSpecialty s)) ->
  (calculateSimilarity (tokenize (originalRequest m))
     (tokenize (originalRequest m)) == 1)%Q
  /\ In m (getSimilarSuccesses store (originalRequest m) specialty).
Proof.
  intros Hin Hok Htok Hfilter.
  pose proof (calculateSimilarity_self Htok) as Hsim.
  split; [exact Hsim|].
  unfold getSimilarSuccesses. cbv zeta.
  apply (Permutation_in _ (Permutation_sym (JsFacts.sort_perm _ _))).
  apply filter_In. split.
  - unfold map_values. apply (in_map snd) in Hin. exact Hin.
  - rewrite Hok. cbn [andb].
    apply andb_true_iff. split.
    + apply JsFacts.Qltb_lt. rewrite Hsim. reflexivity.
    + destruct Hfilter as [Hnone | (s & Hs & ->)].
      * now rewrite Hnone.
      * apply orb_true_iff. right. apply existsb_exists.
        exists s. split; [exact Hs | apply String.eqb_refl].
Qed.

(** The entry stored for "fix database query" is found again, asked
    without a filter. *)
Lemma C6_witness :
  In (Scenarios.entryAt "b" "fix database query" 10)
    (getSimilarSuccesses Scenarios.threeEntries "fix database query" None).
Proof.
  apply (@C6_identical_request_is_found Scenarios.threeEntries "b"
           (Scenarios.entryAt "b" "fix database query" 10) None).
  - right. left. reflexivity.
  - reflexivity.
  - vm_compute. discriminate.
  - left. reflexivity.
Defined.

(** C6 as stated fails for a request with no token longer than two
    characters: the entry stored for "do it" succeeded, and asking for
    "do it" again does not return it. *)
Lemma C6_counterexample :
  em_succeeded Scenarios.shortRequestEntry = true
  /\ originalRequest Scenarios.shortRequestEntry = "do it"
  /\ tokenize "do it" = []
  /\ calculateSimilarity (tokenize "do it") (tokenize "do it") = 0%Q
  /\ getSimilarSuccesses [("run-1", Scenarios.shortRequestEntry)] "do it" None
     = []
  /\ ~ In Scenarios.shortRequestEntry
         (getSimilarSuccesses [("run-1", Scenarios.shortRequestEntry)]
            "do it" None).
Proof.
  split; [reflexivity|]. split; [reflexivity|]. split; [reflexivity|].
  split; [reflexivity|]. split; [reflexivity|].
  intros [].
Qed.

(** *** Pruning *)

Lemma set_fresh (store : Store) (id : string) (m : ExecutionMemory) :
  ~ In id (map_keys store) -> set store id m = store ++ [(id, m)].
Proof.
  unfold set. induction store as [|[k v] store IH]; intro H; [reflexivity|].
  cbn. destruct (String.eqb_spec id k) as [-> | Hne].
  - exfalso. apply H. now left.
  - f_equal. apply IH. intro Hin. apply H. now right.
Qed.

(** [set] keeps the keys of a store, or adds the new one at the end; so
    every store built from the empty one holds one entry per id. *)
Lemma set_keys (store : Store) (id : string) (m : ExecutionMemory) :
  map_keys (set store id m)
  = if existsb (String.eqb id) (map_keys store) then map_keys store
    else map_keys store ++ [id].
Proof.
  unfold set, map_keys.
  induction store as [|[k v] store IH]; [reflexivity|].
  cbn. destruct (String.eqb_spec id k) as [-> | Hne]; [reflexivity|].
  cbn. rewrite IH.
  now destruct (existsb (String.eqb id) (List.map fst store)).
Qed.

Lemma wf_empty : wf [].
Proof. constructor. Qed.

Lemma wf_set (store : Store) (id : string) (m : ExecutionMemory) :
  wf store -> wf (set store id m).
Proof.
  unfold wf. intro H. rewrite set_keys.
  destruct (existsb (String.eqb id) (map_keys store)) eqn:E; [exact H|].
  apply NoDup_rev in H. rewrite <- (rev_involutive (_ ++ _)).
  apply NoDup_rev. rewrite rev_app_distr. cbn.
  constructor; [|exact H].
  intro Hin. apply in_rev in Hin.
  assert (Ht : existsb (String.eqb id) (map_keys store) = true).
  { apply existsb_exists. exists id.
    split; [exact Hin | apply String.eqb_refl]. }
  congruence.
Qed.

Lemma refill (entries acc : Store) :
  NoDup (map_keys (acc ++ entries)) ->
  fold_left (fun m e => set m (fst e) (snd e)) entries acc = acc ++ entries.
Proof.
  revert acc. induction entries as [|[k v] entries IH]; intros acc H; cbn.
  - now rewrite app_nil_r.
  - assert (Hk : ~ In k (map_keys acc)).
    { unfold map_keys in *. rewrite map_app in H. cbn in H.
      apply NoDup_remove_2 in H. intro Hin. apply H, in_or_app. now left. }
    rewrite (@set_fresh acc k v Hk).
    rewrite IH; rewrite <- app_assoc; [reflexivity | exact H].
Qed.

Lemma slice0_nonneg {A} (l : list A) (e : Z) :
  0 <= e -> slice0 l e = firstn (Z.to_nat e) l.
Proof.
  intro H. unfold slice0. cbv zeta.
  destruct (e <? 0) eqn:E; [lia|].
  destruct (Z.min_spec e (Z.of_nat (List.length l))) as [[H1 ->] | [H1 ->]];
    [reflexivity|].
  rewrite Nat2Z.id, firstn_all. symmetry. apply firstn_all2. lia.
Qed.

Lemma NoDup_firstn {A} (l : list A) (n : nat) : NoDup l -> NoDup (firstn n l).
Proof.
  intro H. rewrite <- (firstn_skipn n l) in H.
  now apply NoDup_app_remove_r in H.
Qed.

Lemma timestamp_compare (a b : string * ExecutionMemory) :
  (inject_Z (timestamp (snd b) - timestamp (snd a)) <= 0)%Q
  <-> (inject_Z (timestamp (snd b)) <= inject_Z (timestamp (snd a)))%Q.
Proof.
  rewrite <- !Zle_Qle. change 0%Q with (inject_Z 0).
  rewrite <- Zle_Qle. lia.
Qed.

(** What [pruneMemory] leaves when it has to evict: the first [N]
    entries of the store sorted by time stamp, newest first. *)
Lemma pruneMemory_evicts (store : Store) (N : nat) :
  wf store ->
  (N < List.length store)%nat ->
  pruneMemory store (Some (Z.of_nat N))
  = firstn N
      (Js.sort
         (fun a b => inject_Z (timestamp (snd b) - timestamp (snd a)))
         store).
Proof.
  intros Hwf Hlt. unfold pruneMemory, map_size. cbv zeta.
  destruct (Z.of_nat (List.length store) <=? Z.of_nat N) eqn:E; [lia|].
  rewrite slice0_nonneg by lia. rewrite Nat2Z.id.
  apply (refill _ []). cbn.
  unfold map_keys. rewrite <- firstn_map. apply NoDup_firstn.
  eapply Permutation_NoDup; [|exact Hwf].
  apply Permutation_map, Permutation_sym, JsFacts.sort_perm.
Qed.

(** C7. For every keep count [N], [pruneMemory(N)] leaves exactly
    [min(N, totalEntries)] entries, all of them entries of the store, and
    no retained entry is older than an evicted one.  Without an argument
    the keep count is 100. *)
Theorem C7_prune_keeps_the_newest (store : Store) (N : nat) :
  wf store ->
  let pruned := pruneMemory store (Some (Z.of_nat N)) in
  map_size pruned = Z.min (Z.of_nat N) (map_size store)
  /\ incl pruned store
  /\ wf pruned
  /\ (forall kept evicted,
        In kept pruned -> In evicted store -> ~ In evicted pruned ->
        timestamp (snd evicted) <= timestamp (snd kept))
  /\ pruneMemory store None = pruneMemory store (Some 100).
Proof.
  intros Hwf pruned.
  destruct (Nat.le_gt_cases (List.length store) N) as [Hle | Hgt].
  - (* nothing to evict *)
    assert (Hsame : pruned = store).
    { subst pruned. unfold pruneMemory, map_size.
      destruct (Z.of_nat (List.length store) <=? Z.of_nat N) eqn:E;
        [reflexivity | lia]. }
    rewrite Hsame. unfold map_size.
    split; [lia|]. split; [apply incl_refl|]. split; [exact Hwf|].
    split; [intros kept evicted _ Hin Hout; contradiction | reflexivity].
  - pose proof (pruneMemory_evicts Hwf Hgt) as Hpruned.
    fold pruned in Hpruned.
    set (sorted :=
           Js.sort
             (fun a b => inject_Z (timestamp (snd b) - timestamp (snd a)))
             store) in *.
    assert (Hperm : Permutation sorted store) by apply JsFacts.sort_perm.
    assert (Hsorted :
              StronglySorted
                (descending
                   (fun e : string * ExecutionMemory =>
                      inject_Z (timestamp (snd e))))
                sorted)
      by (apply JsFacts.sort_sorted, timestamp_compare).
    rewrite Hpruned. unfold map_size.
    split.
    { rewrite length_firstn.
      rewrite (Permutation_length Hperm). lia. }
    split.
    { intros x Hx. apply (Permutation_in _ Hperm).
      rewrite <- (firstn_skipn N sorted). apply in_or_app. now left. }
    split.
    { unfold wf, map_keys. rewrite <- firstn_map. apply NoDup_firstn.
      eapply Permutation_NoDup; [|exact Hwf].
      apply Permutation_map, Permutation_sym, Hperm. }
    split; [|reflexivity].
    intros kept evicted Hkept Hin Hout.
    assert (Hev : In evicted (skipn N sorted)).
    { apply (Permutation_in _ (Permutation_sym Hperm)) in Hin.
      rewrite <- (firstn_skipn N sorted) in Hin.
      apply in_app_or in Hin. destruct Hin; [contradiction | assumption]. }
    rewrite <- (firstn_skipn N sorted) in Hsorted.
    pose proof (@JsFacts.sorted_app_order _ _ _ _ Hsorted _ _ Hkept Hev)
      as Hord.
    unfold descending in Hord. now rewrite <- Zle_Qle in Hord.
Qed.

(** Keeping two of three entries. *)
Lemma C7_witness :
  map_size (pruneMemory Scenarios.threeEntries (Some (Z.of_nat 2))) = 2.
Proof.
  destruct (@C7_prune_keeps_the_newest Scenarios.threeEntries 2%nat)
    as (Hsize & _).
  - unfold wf. cbn.
    repeat constructor; cbn; intuition discriminate.
  - exact Hsize.
Defined.

End MemoryFacts.

(* ================================================================== *)
(** ** The protocol run, for any check and any engine *)
(* ================================================================== *)

Module ProtocolInvariants.

Import RaphLoopProtocol.

(** Running the check never throws, whatever the child process does. *)
Lemma executeVerificationScript_returns
  (run : Completion string) (script : VerificationScript) :
  exists executed,
    VerificationManager.executeVerificationScript run script = Normal executed
    /\ path executed = path script /\ code executed = code script
    /\ (VerificationManager.isVerificationPassed executed = true
        <-> exists out, run = Normal out).
Proof.
  destruct run as [out|e]; cbn.
  - eexists. split; [reflexivity|]. cbn.
    split; [reflexivity|]. split; [reflexivity|]. split; [eauto | reflexivity].
  - eexists. split; [reflexivity|].
    split; [reflexivity|]. split; [reflexivity|].
    unfold VerificationManager.isVerificationPassed; cbn. split.
    + intro H. apply Z.eqb_eq in H.
      exfalso. revert H. apply VerificationFacts.num_or_nonzero. lia.
    + intros [out H]. discriminate.
Qed.

Section AnyCollaborators.

Variable config : RaphLoopConfig.
Variable execSync : Z -> Completion string.
Variable executeIteration : string -> string -> Z -> IterationResult.
Variable context : RequestContext.

Let maxIterations := cfg_maxIterations config.

(** What one call of the loop adds to the state, in its three ways of
    ending: the check passed; the budget is used up; a fix was not
    applied. *)
Lemma loop_outcome (remaining : nat) :
  forall st script,
    verificationScript st = Some script ->
    remaining = Z.to_nat (maxIterations - currentIteration st) ->
    exists passed st' new last,
      loop config execSync executeIteration remaining context st
      = (Normal passed, st')
      /\ iterationHistory st' = iterationHistory st ++ new
      /\ verificationScript st' = Some last
      /\ path last = path script /\ code last = code script
      /\ let passes := currentIteration st' - currentIteration st in
         0 <= passes <= Z.of_nat remaining
         /\ ((passed = true
              /\ 1 <= passes
              /\ Z.of_nat (List.length new) = passes - 1
              /\ Forall (fun r => ir_success r = true) new
              /\ VerificationManager.isVerificationPassed last = true)
             \/ (passed = false
                 /\ passes = Z.of_nat remaining
                 /\ List.length new = pred remaining
                 /\ Forall (fun r => ir_success r = true) new
                 /\ (1 <= remaining ->
                     VerificationManager.isVerificationPassed last = false)%nat)
             \/ (passed = false
                 /\ 1 <= passes < Z.of_nat remaining
                 /\ Z.of_nat (List.length new) = passes
                 /\ VerificationManager.isVerificationPassed last = false
                 /\ exists earlier r,
                      new = earlier ++ [r]
                      /\ Forall (fun r => ir_success r = true) earlier
                      /\ ir_success r = false)).
Proof.
  induction remaining as [|remaining IH]; intros st script Hscript Hrem.
  - exists false, st, [], script. cbn.
    rewrite app_nil_r. split; [reflexivity|]. split; [reflexivity|].
    split; [exact Hscript|]. split; [reflexivity|]. split; [reflexivity|].
    split; [lia|].
    right; left. repeat split; try lia. constructor.
  - cbn [loop].
    cbn [set_currentIteration verificationScript currentIteration].
    rewrite Hscript.
    destruct (executeVerificationScript_returns
                (execSync (currentIteration st + 1)) script)
      as (executed & -> & Hpath & Hcode & _).
    cbn [set_verificationScript set_currentIteration currentIteration].
    destruct (VerificationManager.isVerificationPassed executed) eqn:Hpassed.
    { (* the check passed *)
      exists true. eexists. exists [], executed.
      split; [reflexivity|]. cbn.
      rewrite app_nil_r. split; [reflexivity|]. split; [reflexivity|].
      split; [exact Hpath|]. split; [exact Hcode|].
      split; [lia|].
      left. repeat split; try lia; [constructor | exact Hpassed]. }
    destruct (currentIteration st + 1 >=? cfg_maxIterations config) eqn:Hge.
    { (* the budget is used up *)
      apply Z.geb_le in Hge.
      assert (remaining = O) by (unfold maxIterations in *; lia).
      subst remaining.
      exists false. eexists. exists [], executed.
      split; [reflexivity|]. cbn.
      rewrite app_nil_r. split; [reflexivity|]. split; [reflexivity|].
      split; [exact Hpath|]. split; [exact Hcode|].
      split; [lia|].
      right; left. repeat split; try lia; [constructor|].
      intros _. exact Hpassed. }
    assert (Hlt : currentIteration st + 1 < cfg_maxIterations config).
    { destruct (Z.ltb_spec (currentIteration st + 1)
                  (cfg_maxIterations config)) as [H|H]; [exact H|].
      apply Z.geb_le in H. congruence. }
    match goal with
    | |- context [executeIteration ?eo ?cb ?i] =>
        set (iterationResult := executeIteration eo cb i)
    end.
    destruct (ir_success iterationResult) eqn:Hsucc; cbn [negb].
    + (* the fix was applied: go round again *)
      match goal with
      | |- context [loop _ _ _ remaining context ?s] =>
          destruct (IH s executed eq_refl)
            as (passed & st' & new & last & Hloop & Hhist & Hlast & Hpath'
                & Hcode' & Hpasses & Hcases)
      end.
      { cbn. unfold maxIterations in *. lia. }
      cbn in Hhist, Hpasses, Hcases.
      exists passed, st', (iterationResult :: new), last.
      split; [exact Hloop|].
      split; [rewrite Hhist, <- app_assoc; reflexivity|].
      split; [exact Hlast|].
      split; [congruence|]. split; [congruence|]. cbn zeta.
      split; [lia|].
      destruct Hcases
        as [(Hp & H1 & Hlen & Hall & Hok)
           | [(Hp & H1 & Hlen & Hall & Hnok)
             | (Hp & H1 & Hlen & Hnok & earlier & r & Hnew & Hall & Hr)]].
      * left. split; [exact Hp|]. split; [lia|].
        split; [cbn [List.length]; lia|].
        split; [constructor; assumption | exact Hok].
      * right; left. split; [exact Hp|]. split; [lia|].
        split; [cbn [List.length pred]; unfold maxIterations in *; lia|].
        split; [constructor; assumption|].
        intros _. apply Hnok. unfold maxIterations in *. lia.
      * right; right. split; [exact Hp|]. split; [lia|].
        split; [cbn [List.length]; lia|]. split; [exact Hnok|].
        exists (iterationResult :: earlier), r.
        split; [rewrite Hnew; reflexivity|].
        split; [constructor; assumption | exact Hr].
    + (* the fix was not applied: the loop is left *)
      exists false. eexists. exists [iterationResult], executed.
      split; [reflexivity|]. cbn.
      split; [reflexivity|]. split; [reflexivity|].
      split; [exact Hpath|]. split; [exact Hcode|].
      split; [lia|].
      right; right. split; [reflexivity|].
      split; [unfold maxIterations in *; lia|].
      split; [lia|]. split; [exact Hpassed|].
      exists [], iterationResult. repeat split; [constructor | exact Hsucc].
Qed.

(** The check passes for the first time on pass [i]: the loop stops
    there. *)
Lemma loop_first_pass (failing : nat) :
  forall st script out i,
    verificationScript st = Some script ->
    i = currentIteration st + Z.of_nat failing + 1 ->
    i <= maxIterations ->
    (forall j, currentIteration st < j < i ->
       (exists e, execSync j = Throw e)
       /\ forall errorOutput codebase,
            ir_success (executeIteration errorOutput codebase j) = true) ->
    execSync i = Normal out ->
    exists st' new,
      loop config execSync executeIteration
        (Z.to_nat (maxIterations - currentIteration st)) context st
      = (Normal true, st')
      /\ currentIteration st' = i
      /\ iterationHistory st' = iterationHistory st ++ new
      /\ List.length new = failing
      /\ verificationScript st'
         = Some (mkVerificationScript (path script) (code script)
                   (Some 0) (Some out) (Some "")).
Proof.
  induction failing as [|failing IH];
    intros st script out i Hscript Hi Hmax Hbefore Hout.
  - destruct (Z.to_nat (maxIterations - currentIteration st))
      as [|remaining] eqn:Hrem; [lia|].
    cbn [loop].
    cbn [set_currentIteration verificationScript currentIteration].
    rewrite Hscript.
    replace (currentIteration st + 1) with i by lia.
    rewrite Hout. cbn.
    eexists. exists []. rewrite app_nil_r.
    repeat split; reflexivity.
  - destruct (Z.to_nat (maxIterations - currentIteration st))
      as [|remaining] eqn:Hrem; [lia|].
    cbn [loop].
    cbn [set_currentIteration verificationScript currentIteration].
    rewrite Hscript.
    destruct (Hbefore (currentIteration st + 1)) as [[e He] Happlied]; [lia|].
    rewrite He.
    cbn [VerificationManager.executeVerificationScript try_catch bind].
    match goal with
    | |- context [VerificationManager.isVerificationPassed ?s] =>
        assert (Hnp : VerificationManager.isVerificationPassed s = false)
    end.
    { unfold VerificationManager.isVerificationPassed; simpl.
      apply Z.eqb_neq, VerificationFacts.num_or_nonzero. lia. }
    rewrite Hnp.
    cbn [set_verificationScript set_currentIteration currentIteration].
    destruct (currentIteration st + 1 >=? cfg_maxIterations config) eqn:Hge.
    { apply Z.geb_le in Hge. unfold maxIterations in *. lia. }
    rewrite Happlied. cbn [negb].
    match goal with
    | |- context [loop _ _ _ remaining context ?s] =>
        destruct (IH s _ out i eq_refl) as (st' & new & Hloop & Hcur & Hhist
                                            & Hlen & Hlast)
    end.
    { cbn. lia. }
    { exact Hmax. }
    { cbn. intros j Hj. apply Hbefore. lia. }
    { exact Hout. }
    cbn in Hloop, Hhist, Hlast.
    replace (Z.to_nat (maxIterations - (currentIteration st + 1)))
      with remaining in Hloop by lia.
    exists st'. eexists.
    split; [exact Hloop|]. split; [exact Hcur|].
    split; [rewrite Hhist, <- app_assoc; reflexivity|].
    split; [cbn; rewrite Hlen; reflexivity | exact Hlast].
Qed.

End AnyCollaborators.

(** X1. A run always completes, and in one of two ways. When the check
    cannot be created the run is a failure whose error is the message of
    the exception, left in the probe phase with its counter at 0 and no
    record. Otherwise it reaches the completion phase with no error,
    whatever the check and the engine do, and the check it holds at the
    end is the one created, path and code unchanged. *)
Theorem X1_run_completes_and_fails_only_in_probe
  (config : RaphLoopConfig)
  (createVerificationScript :
     string -> string -> Completion VerificationScript)
  (execSync : Z -> Completion string)
  (executeIteration : string -> string -> Z -> IterationResult)
  (context : RequestContext) :
  let st :=
    execute config createVerificationScript execSync executeIteration
      context in
  completed st = true
  /\ ((exists e,
         createVerificationScript (rc_request context) (codebase context)
         = Throw e
         /\ phase st = PROBE
         /\ succeeded st = false
         /\ failureError st = message e
         /\ currentIteration st = 0
         /\ iterationHistory st = []
         /\ verificationScript st = None)
      \/ (exists script last,
            createVerificationScript (rc_request context) (codebase context)
            = Normal script
            /\ phase st = COMPLETION
            /\ failureError st = None
            /\ verificationScript st = Some last
            /\ path last = path script /\ code last = code script)).
Proof.
  cbv zeta. unfold execute, executeProbePhase, executeLoopPhase.
  destruct (createVerificationScript (rc_request context) (codebase context))
    as [script|e] eqn:Hprobe.
  - cbn [currentIteration set_phase set_verificationScript initializeState].
    destruct (@loop_outcome config execSync executeIteration context
                (Z.to_nat (cfg_maxIterations config - 0))
                (set_phase
                   (set_verificationScript (set_phase initializeState PROBE)
                      (Some script)) LOOP)
                script eq_refl eq_refl)
      as (passed & st' & new & last & Hloop & Hhist & Hlast & Hpath & Hcode
          & _).
    pose proof (@ProtocolFacts.loop_keeps_flags config execSync
                  executeIteration context _ _ _ _ Hloop)
      as (Hphase & Hcompleted & Herr).
    rewrite Hloop. cbn. split; [reflexivity|].
    right. exists script, last.
    split; [reflexivity|]. split; [reflexivity|].
    split; [exact Herr|]. split; [exact Hlast|].
    split; [exact Hpath | exact Hcode].
  - cbn. split; [reflexivity|].
    left. exists e. repeat split; reflexivity.
Qed.

(** X2. The accounting of a run whose check was created, for any check
    and any engine. The counter stays within the budget. A run that
    succeeds made one fix attempt fewer than its counter, all of them
    reported as applied, and holds a check that passed. A run that does
    not succeed either used the whole budget, with one record per pass but
    the last and all fixes applied, or stopped earlier on a fix that was
    not applied, whose record is the last one. With a budget of at least 1
    the run succeeds exactly when the last execution of the check
    passed. *)
Theorem X2_run_accounting
  (config : RaphLoopConfig)
  (createVerificationScript :
     string -> string -> Completion VerificationScript)
  (execSync : Z -> Completion string)
  (executeIteration : string -> string -> Z -> IterationResult)
  (context : RequestContext) (script : VerificationScript) :
  createVerificationScript (rc_request context) (codebase context)
  = Normal script ->
  let st :=
    execute config createVerificationScript execSync executeIteration
      context in
  let budget := Z.max 0 (cfg_maxIterations config) in
  let records := Z.of_nat (List.length (iterationHistory st)) in
  0 <= currentIteration st <= budget
  /\ (succeeded st = true ->
      1 <= currentIteration st
      /\ records = currentIteration st - 1
      /\ Forall (fun r => ir_success r = true) (iterationHistory st))
  /\ (succeeded st = false ->
      (currentIteration st = budget
       /\ records = Z.max 0 (budget - 1)
       /\ Forall (fun r => ir_success r = true) (iterationHistory st))
      \/ (1 <= currentIteration st < budget
          /\ records = currentIteration st
          /\ exists earlier r,
               iterationHistory st = earlier ++ [r]
               /\ Forall (fun r => ir_success r = true) earlier
               /\ ir_success r = false))
  /\ (1 <= cfg_maxIterations config ->
      exists last,
        verificationScript st = Some last
        /\ succeeded st = VerificationManager.isVerificationPassed last).
Proof.
  intros Hprobe. cbv zeta.
  unfold execute, executeProbePhase, executeLoopPhase.
  rewrite Hprobe.
  cbn [currentIteration set_phase set_verificationScript initializeState].
  destruct (@loop_outcome config execSync executeIteration context
              (Z.to_nat (cfg_maxIterations config - 0))
              (set_phase
                 (set_verificationScript (set_phase initializeState PROBE)
                    (Some script)) LOOP)
              script eq_refl eq_refl)
    as (passed & st' & new & last & Hloop & Hhist & Hlast & _ & _ & Hpasses
        & Hcases).
  rewrite Hloop. cbn. cbn in Hhist, Hpasses, Hcases.
  rewrite Hhist.
  destruct Hcases
    as [(Hp & H1 & Hlen & Hall & Hok)
       | [(Hp & H1 & Hlen & Hall & Hnok)
         | (Hp & H1 & Hlen & Hnok & earlier & r & Hnew & Hall & Hr)]];
    subst passed.
  - split; [lia|]. split.
    + intros _. split; [lia|]. split; [lia | exact Hall].
    + split; [discriminate|].
      intros _. exists last. split; [exact Hlast | now rewrite Hok].
  - split; [lia|]. split; [discriminate|]. split.
    + intros _. left. split; [lia|]. split; [lia | exact Hall].
    + intros Hmax. exists last. split; [exact Hlast|].
      rewrite Hnok; [reflexivity | lia].
  - split; [lia|]. split; [discriminate|]. split.
    + intros _. right. split; [lia|]. split; [lia|].
      exists earlier, r. repeat split; assumption.
    + intros _. exists last. split; [exact Hlast | now rewrite Hnok].
Qed.

(** The default budget of 5, a check that exits with code 1 on every run
    and an engine whose fixes all apply. *)
Lemma X2_witness :
  let st :=
    execute (defaultConfig "/work") Scenarios.probeOk
      Scenarios.exitsWithCode1 Scenarios.engineApplies
      Scenarios.testRequest in
  0 <= currentIteration st <= 5
  /\ exists last,
       verificationScript st = Some last
       /\ succeeded st = VerificationManager.isVerificationPassed last.
Proof.
  destruct (@X2_run_accounting (defaultConfig "/work")
              Scenarios.probeOk Scenarios.exitsWithCode1
              Scenarios.engineApplies Scenarios.testRequest
              (mkVerificationScript "/work/verify_iteration_1.js"
                 "process.exit(1)" None None None) eq_refl)
    as (Hcur & _ & _ & Hlast).
  split; [exact Hcur|].
  apply Hlast. simpl. lia.
Defined.

(** X3. When the check fails on the passes before pass [i], each
    followed by a fix reported as applied, and passes on pass [i] within
    the budget, the run succeeds with its counter at [i] and [i - 1]
    records: no fix is attempted after the check has passed. The check it
    holds records exit code 0, the captured output and an empty error
    text. *)
Theorem X3_first_passing_check_ends_run
  (config : RaphLoopConfig)
  (createVerificationScript :
     string -> string -> Completion VerificationScript)
  (execSync : Z -> Completion string)
  (executeIteration : string -> string -> Z -> IterationResult)
  (context : RequestContext) (script : VerificationScript)
  (i : Z) (out : string) :
  createVerificationScript (rc_request context) (codebase context)
  = Normal script ->
  1 <= i <= cfg_maxIterations config ->
  (forall j, 1 <= j < i ->
     (exists e, execSync j = Throw e)
     /\ forall errorOutput codebase,
          ir_success (executeIteration errorOutput codebase j) = true) ->
  execSync i = Normal out ->
  let st :=
    execute config createVerificationScript execSync executeIteration
      context in
  succeeded st = true
  /\ completed st = true
  /\ failureError st = None
  /\ currentIteration st = i
  /\ Z.of_nat (List.length (iterationHistory st)) = i - 1
  /\ verificationScript st
     = Some (mkVerificationScript (path script) (code script)
               (Some 0) (Some out) (Some "")).
Proof.
  intros Hprobe Hi Hbefore Hout. cbv zeta.
  unfold execute, executeProbePhase, executeLoopPhase.
  rewrite Hprobe.
  cbn [currentIteration set_phase set_verificationScript initializeState].
  destruct (@loop_first_pass config execSync executeIteration context
              (Z.to_nat (i - 1))
              (set_phase
                 (set_verificationScript (set_phase initializeState PROBE)
                    (Some script)) LOOP)
              script out i eq_refl)
    as (st' & new & Hloop & Hcur & Hhist & Hlen & Hlast).
  { cbn. lia. }
  { lia. }
  { cbn. intros j Hj. apply Hbefore. lia. }
  { exact Hout. }
  pose proof (@ProtocolFacts.loop_keeps_flags config execSync
                executeIteration context _ _ _ _ Hloop)
    as (Hphase & Hcompleted & Herr).
  cbn [currentIteration set_phase set_verificationScript initializeState]
    in Hloop.
  rewrite Hloop. cbn. cbn in Hhist, Herr.
  split; [reflexivity|]. split; [reflexivity|]. split; [exact Herr|].
  split; [exact Hcur|]. split; [rewrite Hhist, Hlen; lia | exact Hlast].
Qed.

(** The default budget of 5 and a check that passes on its third run. *)
Lemma X3_witness :
  let st :=
    execute (defaultConfig "/work") Scenarios.probeOk
      Scenarios.passesOnThird Scenarios.engineApplies
      Scenarios.testRequest in
  succeeded st = true
  /\ currentIteration st = 3
  /\ Z.of_nat (List.length (iterationHistory st)) = 3 - 1.
Proof.
  destruct (@X3_first_passing_check_ends_run (defaultConfig "/work")
              Scenarios.probeOk Scenarios.passesOnThird
              Scenarios.engineApplies Scenarios.testRequest
              (mkVerificationScript "/work/verify_iteration_1.js"
                 "process.exit(1)" None None None) 3 "ok" eq_refl)
    as (Hs & _ & _ & Hcur & Hlen & _).
  - simpl; lia.
  - intros j Hj. split.
    + unfold Scenarios.passesOnThird.
      destruct (Z.ltb_spec j 3); [|lia]. eexists. reflexivity.
    + intros. reflexivity.
  - reflexivity.
  - split; [exact Hs|]. split; [exact Hcur | exact Hlen].
Defined.

End ProtocolInvariants.

(* ================================================================== *)
(** ** The error text and the iteration engine *)
(* ================================================================== *)

Module EngineFacts.

Import VerificationManager IterationEngine.

Lemma str_or_lit_nonempty (x : option string) (d : string) :
  d <> "" -> str_or_lit x d <> "".
Proof.
  intro Hd. destruct x as [[|c s]|]; cbn; [exact Hd | discriminate | exact Hd].
Qed.

(** The error text is empty exactly when the check passed. *)
Lemma error_text_empty_iff_passed (script : VerificationScript) :
  extractErrorInfo script = "" <-> isVerificationPassed script = true.
Proof.
  unfold extractErrorInfo.
  destruct (isVerificationPassed script); split; intro H;
    try reflexivity; try discriminate.
  exfalso. revert H. apply str_or_lit_nonempty. discriminate.
Qed.

Section Records.

Import RaphLoopProtocol.

Variable config : RaphLoopConfig.
Variable execSync : Z -> Completion string.
Variable executeIteration : string -> string -> Z -> IterationResult.
Variable context : RequestContext.

(** Every record the loop appends is the engine's answer to the error
    text of a failed check, for the pass it was made on. *)
Lemma loop_records (remaining : nat) :
  forall st c st',
    loop config execSync executeIteration remaining context st = (c, st') ->
    exists new,
      iterationHistory st' = iterationHistory st ++ new
      /\ forall k r,
           nth_error new k = Some r ->
           exists errorOutput,
             errorOutput <> ""
             /\ r = executeIteration errorOutput (codebase context)
                      (currentIteration st + Z.of_nat k + 1).
Proof.
  induction remaining as [|remaining IH]; intros st c st' H.
  - cbn in H. injection H as _ <-. exists []. rewrite app_nil_r.
    split; [reflexivity|]. intros [|k] r Hk; discriminate.
  - cbn [loop] in H.
    assert (Hnone : exists new,
              iterationHistory (set_currentIteration st
                                  (currentIteration st + 1))
              = iterationHistory st ++ new
              /\ forall k r,
                   nth_error new k = Some r ->
                   exists errorOutput,
                     errorOutput <> ""
                     /\ r = executeIteration errorOutput (codebase context)
                              (currentIteration st + Z.of_nat k + 1)).
    { exists []. rewrite app_nil_r. split; [reflexivity|].
      intros [|k] r Hk; discriminate. }
    destruct (verificationScript (set_currentIteration st _)) as [script|];
      [|injection H as _ <-; exact Hnone].
    destruct (executeVerificationScript _ script) as [executed|e];
      [|injection H as _ <-; exact Hnone].
    destruct (isVerificationPassed executed) eqn:Hpassed;
      [injection H as _ <-; exact Hnone|].
    destruct (_ >=? _); [injection H as _ <-; exact Hnone|].
    assert (Htext : extractErrorInfo executed <> "").
    { intro E. apply error_text_empty_iff_passed in E. congruence. }
    cbn [set_verificationScript set_currentIteration currentIteration]
      in H.
    set (r0 := executeIteration (extractErrorInfo executed)
                 (codebase context) (currentIteration st + 1)) in *.
    assert (Hfirst : forall k r,
              nth_error [r0] k = Some r ->
              exists errorOutput,
                errorOutput <> ""
                /\ r = executeIteration errorOutput (codebase context)
                         (currentIteration st + Z.of_nat k + 1)).
    { intros [|[|k]] r Hk; cbn in Hk; try discriminate.
      injection Hk as <-. exists (extractErrorInfo executed).
      split; [exact Htext|]. unfold r0. f_equal. lia. }
    destruct (negb (ir_success r0)).
    + injection H as _ <-. exists [r0]. split; [reflexivity | exact Hfirst].
    + apply IH in H. destruct H as (new & Hhist & Hnew).
      cbn in Hhist, Hnew.
      exists (r0 :: new).
      split; [rewrite Hhist, <- app_assoc; reflexivity|].
      intros [|k] r Hk.
      * now apply Hfirst.
      * cbn in Hk. destruct (Hnew k r Hk) as (errorOutput & Hne & ->).
        exists errorOutput. split; [exact Hne|]. f_equal. lia.
Qed.

End Records.

(** X4. Every record of a run is the engine's answer to a failed
    check: the record at position [k], counted from 1, is what
    [executeIteration] returned for pass [k], for the code base of the
    request and for an error text that is not empty, if only by the
    fallback ['Unknown error']. *)
Theorem X4_records_answer_failed_checks
  (config : RaphLoopConfig)
  (createVerificationScript :
     string -> string -> Completion VerificationScript)
  (execSync : Z -> Completion string)
  (executeIteration : string -> string -> Z -> IterationResult)
  (context : RequestContext) :
  let st :=
    RaphLoopProtocol.execute config createVerificationScript execSync
      executeIteration context in
  forall k r,
    nth_error (iterationHistory st) k = Some r ->
    exists errorOutput,
      errorOutput <> ""
      /\ r = executeIteration errorOutput (codebase context)
               (Z.of_nat k + 1).
Proof.
  cbv zeta.
  unfold RaphLoopProtocol.execute, RaphLoopProtocol.executeProbePhase,
    RaphLoopProtocol.executeLoopPhase.
  destruct (createVerificationScript (rc_request context) (codebase context))
    as [script|e].
  2:{ cbn. intros [|k] r Hk; discriminate. }
  destruct (RaphLoopProtocol.loop _ _ _ _ _ _) as [c st'] eqn:Hloop.
  apply loop_records in Hloop. destruct Hloop as (new & Hhist & Hnew).
  cbn in Hhist, Hnew.
  assert (Hst : forall k r,
            nth_error (iterationHistory st') k = Some r ->
            exists errorOutput,
              errorOutput <> ""
              /\ r = executeIteration errorOutput (codebase context)
                       (Z.of_nat k + 1)).
  { rewrite Hhist. exact Hnew. }
  destruct c as [passed|e]; cbn; exact Hst.
Qed.

(** The first record of a run with the default budget, a check that
    always exits with code 1 and an engine whose fixes all apply. *)
Lemma X4_witness :
  exists errorOutput,
    errorOutput <> ""
    /\ mkIterationResult true 1
         ["Fix implementation to match test expectations"] None []
       = Scenarios.engineApplies errorOutput
           (codebase Scenarios.testRequest) (Z.of_nat 0 + 1).
Proof.
  apply (@X4_records_answer_failed_checks
           (RaphLoopProtocol.defaultConfig "/work") Scenarios.probeOk
           Scenarios.exitsWithCode1 Scenarios.engineApplies
           Scenarios.testRequest 0%nat).
  reflexivity.
Defined.

(** X5. Executing the check and then extracting the error text: when the
    child process returns, the text is empty; when it throws, the text is
    its standard error if that is not empty, else the message of the
    error, else its standard output, else ['Unknown error']. *)
Theorem X5_error_text_after_execution
  (run : Completion string) (script : VerificationScript) :
  exists executed,
    executeVerificationScript run script = Normal executed
    /\ match run with
       | Normal _ => extractErrorInfo executed = ""
       | Throw e =>
           extractErrorInfo executed
           = str_or_lit
               (str_or (str_or (stderr e) (message e)) (stdout e))
               "Unknown error"
       end.
Proof.
  destruct run as [out|e]; cbn.
  - eexists. split; reflexivity.
  - eexists. split; [reflexivity|].
    unfold extractErrorInfo.
    match goal with
    | |- context [isVerificationPassed ?s] =>
        assert (Hnp : isVerificationPassed s = false)
    end.
    { unfold isVerificationPassed; simpl.
      apply Z.eqb_neq, VerificationFacts.num_or_nonzero. lia. }
    rewrite Hnp. cbn [errorOutput output].
    destruct e as [st so se msg]. cbn [Js.stderr Js.message Js.stdout].
    destruct se as [[|c1 s1]|]; destruct msg as [[|c2 s2]|];
      destruct so as [[|c3 s3]|]; reflexivity.
Qed.

Section Best.

Let confidence := fs_confidence.

Lemma bestOf_cons (best current : FixSuggestion)
  (others : list FixSuggestion) :
  bestOf best (current :: others)
  = bestOf
      (if Qgtb (fs_confidence current) (fs_confidence best) then current
       else best)
      others.
Proof. reflexivity. Qed.

(** [reduce] keeps the first of the suggestions of highest confidence. *)
Lemma bestOf_from (others : list FixSuggestion) :
  forall best before between,
    (forall s, In s before -> (confidence s < confidence best)%Q) ->
    (forall s, In s between -> (confidence s <= confidence best)%Q) ->
    exists before' after',
      before ++ best :: between ++ others
      = before' ++ bestOf best others :: after'
      /\ (forall s, In s before' ->
            (confidence s < confidence (bestOf best others))%Q)
      /\ (forall s, In s after' ->
            (confidence s <= confidence (bestOf best others))%Q).
Proof.
  induction others as [|current others IH];
    intros best before between Hbefore Hbetween.
  - exists before, between. rewrite app_nil_r. cbn. auto.
  - rewrite bestOf_cons.
    destruct (Qgtb (fs_confidence current) (fs_confidence best)) eqn:Hgt.
    + unfold Qgtb in Hgt. apply JsFacts.Qltb_lt in Hgt.
      destruct (IH current (before ++ best :: between) [])
        as (before' & after' & Heq & Hb & Ha).
      * intros s Hs. apply in_app_or in Hs.
        destruct Hs as [Hs | [<- | Hs]].
        -- eapply Qlt_trans; [apply Hbefore, Hs | exact Hgt].
        -- exact Hgt.
        -- eapply Qle_lt_trans; [apply Hbetween, Hs | exact Hgt].
      * intros s [].
      * exists before', after'. split; [|split; assumption].
        rewrite <- Heq. cbn. rewrite <- !app_assoc. reflexivity.
    + assert (Hle : (confidence current <= confidence best)%Q).
      { apply Qnot_lt_le. intro Hlt. apply JsFacts.Qltb_lt in Hlt.
        unfold confidence, Qgtb in *. congruence. }
      destruct (IH best before (between ++ [current]))
        as (before' & after' & Heq & Hb & Ha).
      * exact Hbefore.
      * intros s Hs. apply in_app_or in Hs.
        destruct Hs as [Hs | [<- | []]]; [apply Hbetween, Hs | exact Hle].
      * exists before', after'. split; [|split; assumption].
        rewrite <- Heq. rewrite <- !app_assoc. reflexivity.
Qed.

End Best.

(** X6. One iteration of the engine. Without a suggestion it fails with
    ['No fix suggestions generated'] and changes nothing. Otherwise it
    applies exactly one suggestion: the first, in the order generated, of
    those of highest confidence; the result reports that suggestion's
    description and files, succeeds exactly when [applyFix] returned
    true, and carries an error exactly when it did not succeed. *)
Theorem X6_iteration_applies_first_most_confident
  (generateFixSuggestions : string -> string -> list FixSuggestion)
  (applyFix : FixSuggestion -> bool)
  (errorOutput codebaseContext : string) (iteration : Z) :
  let suggestions := generateFixSuggestions errorOutput codebaseContext in
  let r :=
    executeIteration generateFixSuggestions applyFix errorOutput
      codebaseContext iteration in
  ir_iteration r = iteration
  /\ (ir_error r = None <-> ir_success r = true)
  /\ (suggestions = [] ->
      r = mkIterationResult false iteration []
            (Some "No fix suggestions generated") [])
  /\ (suggestions <> [] ->
      exists before best after,
        suggestions = before ++ best :: after
        /\ (forall s, In s before -> (fs_confidence s < fs_confidence best)%Q)
        /\ (forall s, In s after -> (fs_confidence s <= fs_confidence best)%Q)
        /\ ir_success r = applyFix best
        /\ ir_changes r = [fs_description best]
        /\ ir_modifiedFiles r = files best).
Proof.
  cbv zeta. unfold executeIteration.
  destruct (generateFixSuggestions errorOutput codebaseContext)
    as [|first others].
  - cbn. split; [reflexivity|]. split; [split; discriminate|].
    split; [reflexivity|]. intro H. now contradiction H.
  - cbn [ir_iteration ir_error ir_success ir_changes ir_modifiedFiles].
    split; [reflexivity|]. split.
    { destruct (applyFix (bestOf first others)); split; intro H;
        try reflexivity; discriminate. }
    split; [discriminate|]. intros _.
    destruct (@bestOf_from others first [] [])
      as (before & after & Heq & Hb & Ha); [intros s [] | intros s [] |].
    cbn in Heq.
    exists before, (bestOf first others), after.
    repeat split; try assumption; reflexivity.
Qed.

End EngineFacts.

(* ================================================================== *)
(** ** What a specialist's run reports *)
(* ================================================================== *)

Module AgentRuns.

Import SpecialistAgent.

Lemma js_set_from_NoDup (xs seen : list string) :
  NoDup (js_set_from seen xs).
Proof.
  revert seen. induction xs as [|x xs IH]; intro seen; cbn.
  - constructor.
  - destruct (existsb (String.eqb x) seen); [apply IH|].
    constructor; [|apply IH].
    intro H. apply MemoryFacts.js_set_from_In in H. destruct H as [_ H].
    apply H, in_or_app. right. now left.
Qed.

Lemma js_set_NoDup (xs : list string) : NoDup (js_set xs).
Proof. apply js_set_from_NoDup. Qed.

Lemma score_at_1 (s : FixSuggestion) : (score s 1 == fs_confidence s)%Q.
Proof. unfold score. change (inject_Z (1 - 1)) with 0%Q. ring. Qed.

Lemma lastOf_cons {A} (x y : A) (l : list A) :
  lastOf l = Some y -> lastOf (x :: l) = Some y.
Proof. intro H. cbn. now rewrite H. Qed.

Section Loop.

Variable World : Type.
Variable a : SpecialistAgent World.

(** The value of [iteration] when the loop is left, against the passes
    made. *)
Lemma loop_exit (remaining : nat) :
  forall iteration suggestions st exit st' passes,
    loop a remaining iteration suggestions st = (exit, st', passes) ->
    suggestions <> [] ->
    match exit with
    | Finished true i =>
        i = iteration + Z.of_nat (List.length passes) - 1
        /\ exists p, lastOf passes = Some p /\ decisive p
    | Finished false i =>
        i = iteration + Z.of_nat remaining
        /\ List.length passes = remaining
        /\ Forall (fun p => exists applied, pass_applied p = Normal applied)
             passes
    | Threw e i =>
        i = iteration + Z.of_nat (List.length passes) - 1
        /\ exists p, lastOf passes = Some p /\ pass_applied p = Throw e
    end.
Proof.
  induction remaining as [|remaining IH];
    intros iteration suggestions st exit st' passes H Hne.
  - cbn in H. injection H as <- <- <-. cbn.
    split; [lia|]. split; [reflexivity | constructor].
  - cbn [loop] in H.
    destruct (@AgentFacts.selectBestSuggestion_spec suggestions iteration Hne)
      as (s & sorted & Hsel & Hperm & Hin & Hmax).
    rewrite Hsel in H.
    assert (Hsorted : sorted <> []).
    { intro E. rewrite E in Hperm. apply Permutation_nil in Hperm.
      contradiction. }
    destruct (applyFix a s st) as [outcome st1] eqn:Happly.
    assert (Htail : forall exit1 st2 passes1 applied,
              loop a remaining (iteration + 1) sorted st1
              = (exit1, st2, passes1) ->
              match exit1 with
              | Finished true i =>
                  i = iteration
                      + Z.of_nat
                          (List.length
                             (mkPass iteration s (Normal applied) :: passes1))
                      - 1
                  /\ exists p,
                       lastOf (mkPass iteration s (Normal applied) :: passes1)
                       = Some p /\ decisive p
              | Finished false i =>
                  i = iteration + Z.of_nat (S remaining)
                  /\ List.length
                       (mkPass iteration s (Normal applied) :: passes1)
                     = S remaining
                  /\ Forall
                       (fun p => exists applied,
                          pass_applied p = Normal applied)
                       (mkPass iteration s (Normal applied) :: passes1)
              | Threw e i =>
                  i = iteration
                      + Z.of_nat
                          (List.length
                             (mkPass iteration s (Normal applied) :: passes1))
                      - 1
                  /\ exists p,
                       lastOf (mkPass iteration s (Normal applied) :: passes1)
                       = Some p /\ pass_applied p = Throw e
              end).
    { intros exit1 st2 passes1 applied Hloop.
      apply IH in Hloop; [|exact Hsorted].
      destruct exit1 as [[|] i | e i].
      - destruct Hloop as (Hi & p & Hp & Hd).
        split; [cbn [List.length]; lia|].
        exists p. split; [now apply lastOf_cons | exact Hd].
      - destruct Hloop as (Hi & Hlen & Hall).
        split; [lia|]. split; [cbn [List.length]; lia|].
        constructor; [now exists applied | exact Hall].
      - destruct Hloop as (Hi & p & Hp & Hd).
        split; [cbn [List.length]; lia|].
        exists p. split; [now apply lastOf_cons | exact Hd]. }
    destruct outcome as [applied | e].
    + destruct applied; cbn [negb] in H.
      * destruct (Qgtb (fs_confidence s) (8 # 10)) eqn:Hconf.
        -- injection H as <- <- <-. cbn [List.length].
           split; [lia|]. eexists. split; [reflexivity|].
           split; [reflexivity|]. cbn. now apply JsFacts.Qltb_lt.
        -- destruct (loop a remaining (iteration + 1) sorted st1)
             as [[exit1 st2] passes1] eqn:Hloop.
           injection H as <- <- <-.
           apply (Htail _ _ _ true eq_refl).
      * destruct (loop a remaining (iteration + 1) sorted st1)
          as [[exit1 st2] passes1] eqn:Hloop.
        injection H as <- <- <-.
        apply (Htail _ _ _ false eq_refl).
    + injection H as <- <- <-. cbn [List.length].
      split; [lia|]. eexists. split; reflexivity.
Qed.

(** A loop in which no pass can be decisive and no fix throws runs to
    the end of its budget. *)
Lemma loop_exhausts (remaining : nat) :
  forall iteration suggestions st,
    suggestions <> [] ->
    (forall s st0, In s suggestions ->
       exists applied st1,
         applyFix a s st0 = (Normal applied, st1)
         /\ (applied = true -> (fs_confidence s <= 8 # 10)%Q)) ->
    exists st' passes,
      loop a remaining iteration suggestions st
      = (Finished false (iteration + Z.of_nat remaining), st', passes)
      /\ List.length passes = remaining.
Proof.
  induction remaining as [|remaining IH];
    intros iteration suggestions st Hne Hweak.
  - exists st, []. cbn. split; [|reflexivity].
    do 3 f_equal. lia.
  - cbn [loop].
    destruct (@AgentFacts.selectBestSuggestion_spec suggestions iteration Hne)
      as (s & sorted & Hsel & Hperm & Hin & Hmax).
    rewrite Hsel.
    assert (Hsorted : sorted <> []).
    { intro E. rewrite E in Hperm. apply Permutation_nil in Hperm.
      contradiction. }
    destruct (Hweak s st Hin) as (applied & st1 & Happly & Hconf).
    rewrite Happly.
    destruct (IH (iteration + 1) sorted st1 Hsorted)
      as (st' & passes & Hloop & Hlen).
    { intros s' st0 Hs'. apply Hweak.
      eapply Permutation_in; eassumption. }
    assert (Hrest :
              (let '(exit, st2, passes1) :=
                 loop a remaining (iteration + 1) sorted st1 in
               (exit, st2, mkPass iteration s (Normal applied) :: passes1))
              = (Finished false (iteration + Z.of_nat (S remaining)), st',
                 mkPass iteration s (Normal applied) :: passes)).
    { rewrite Hloop. do 3 f_equal. lia. }
    exists st', (mkPass iteration s (Normal applied) :: passes).
    split; [|cbn; now rewrite Hlen].
    destruct applied; cbn [negb]; [|exact Hrest].
    destruct (Qgtb (fs_confidence s) (8 # 10)) eqn:Hgt; [|exact Hrest].
    apply JsFacts.Qltb_lt in Hgt. specialize (Hconf eq_refl).
    exfalso. apply (Qlt_not_le _ _ Hgt Hconf).
Qed.

(** With fixes that always apply, a suggestion above the threshold
    settles the first pass. *)
Lemma loop_decides_at_once (remaining : nat)
  (suggestions : list FixSuggestion) (st : AgentState World) :
  (forall s st0, fst (applyFix a s st0) = Normal true) ->
  (exists s, In s suggestions /\ (8 # 10 < fs_confidence s)%Q) ->
  exists best st',
    loop a (S remaining) 1 suggestions st
    = (Finished true 1, st', [mkPass 1 best (Normal true)])
    /\ In best suggestions
    /\ forall s, In s suggestions ->
         (fs_confidence s <= fs_confidence best)%Q.
Proof.
  intros Halways (strong & Hstrong & Hconf).
  assert (Hne : suggestions <> []) by (intro E; now rewrite E in Hstrong).
  cbn [loop].
  destruct (@AgentFacts.selectBestSuggestion_spec suggestions 1 Hne)
    as (best & sorted & Hsel & Hperm & Hin & Hbest).
  rewrite Hsel.
  pose proof (Halways best st) as Happly.
  destruct (applyFix a best st) as [outcome st2]. cbn in Happly.
  subst outcome. cbn [negb].
  assert (Hall : forall s, In s suggestions ->
                   (fs_confidence s <= fs_confidence best)%Q).
  { intros s Hs. rewrite <- (score_at_1 s), <- (score_at_1 best).
    now apply Hbest. }
  assert (Hgt : Qgtb (fs_confidence best) (8 # 10) = true).
  { apply JsFacts.Qltb_lt.
    eapply Qlt_le_trans; [exact Hconf | now apply Hall]. }
  rewrite Hgt. exists best, st2. split; [reflexivity|]. split; assumption.
Qed.

(** A fix that leaves the agent alone leaves it alone over the whole
    loop. *)
Lemma loop_keeps_state (remaining : nat) :
  (forall s st, snd (applyFix a s st) = st) ->
  forall iteration suggestions st exit st' passes,
    loop a remaining iteration suggestions st = (exit, st', passes) ->
    st' = st.
Proof.
  intro Hkeep.
  induction remaining as [|remaining IH];
    intros iteration suggestions st exit st' passes H.
  - cbn in H. now injection H as _ <- _.
  - cbn [loop] in H.
    destruct (selectBestSuggestion suggestions iteration)
      as [[s|] sorted]; [|now injection H as _ <- _].
    pose proof (Hkeep s st) as Hs.
    destruct (applyFix a s st) as [[applied|e] st1]; cbn in Hs; subst st1;
      [|now injection H as _ <- _].
    destruct applied; cbn [negb] in H.
    + destruct (Qgtb _ _); [now injection H as _ <- _|].
      destruct (loop a remaining (iteration + 1) sorted st)
        as [[exit1 st2] passes1] eqn:Hloop.
      injection H as _ <- _. eapply IH; eassumption.
    + destruct (loop a remaining (iteration + 1) sorted st)
        as [[exit1 st2] passes1] eqn:Hloop.
      injection H as _ <- _. eapply IH; eassumption.
Qed.

End Loop.

(** X7. What [iterations] counts in the result of [execute]. A run that
    succeeds, or that ends on a fix that threw, reports the number of its
    passes, and its last pass is the decisive or the throwing one. A run
    that fails without an exception after a non-empty analysis made
    [maxIterations] passes (none for a budget below 1) and reports one
    more, the value of the loop counter past the budget. A run whose
    analysis is empty or throws reports 0. *)
Theorem X7_iterations_reported
  (World : Type) (a : SpecialistAgent World)
  (context : AgentExecutionContext) (st : AgentState World) :
  let result := fst (fst (execute_passes a context st)) in
  let passes := snd (execute_passes a context st) in
  let made := Z.of_nat (List.length passes) in
  (success result = true ->
   error result = None /\ iterations result = made
   /\ exists p, lastOf passes = Some p /\ decisive p)
  /\ (forall p e, lastOf passes = Some p -> pass_applied p = Throw e ->
      success result = false /\ error result = message e
      /\ iterations result = made)
  /\ (forall suggestions st1,
        analyzeContext a context (mkAgentState [] (world st))
        = (Normal suggestions, st1) ->
        suggestions <> [] ->
        success result = false ->
        (forall p, lastOf passes = Some p ->
           exists applied, pass_applied p = Normal applied) ->
        error result = None
        /\ made = Z.max 0 (maxIterations a)
        /\ iterations result = made + 1)
  /\ ((forall suggestions st1,
         analyzeContext a context (mkAgentState [] (world st))
         = (Normal suggestions, st1) -> suggestions = []) ->
      success result = false /\ iterations result = 0 /\ passes = []).
Proof.
  cbv zeta. unfold execute_passes.
  destruct (analyzeContext a context (mkAgentState [] (world st)))
    as [[suggestions|e0] st1] eqn:Hanalyze.
  2:{ cbn. split; [discriminate|]. split; [discriminate|].
      split; [discriminate|]. intros _. repeat split; reflexivity. }
  destruct suggestions as [|s0 rest] eqn:E.
  { cbn. split; [discriminate|]. split; [discriminate|].
    split; [intros ? ? H; injection H as <- <-; congruence|].
    intros _. repeat split; reflexivity. }
  rewrite <- E in *.
  assert (Hne : suggestions <> []) by (rewrite E; discriminate).
  replace (List.length suggestions =? 0)%nat with false
    by (rewrite E; reflexivity).
  destruct (loop a (Z.to_nat (maxIterations a)) 1 suggestions st1)
    as [[exit st2] passes] eqn:Hloop.
  pose proof (@loop_exit World a _ _ _ _ _ _ _ Hloop Hne) as Hexit.
  destruct exit as [[|] i | e i]; cbn.
  - destruct Hexit as (Hi & p & Hp & Hd).
    split; [intros _; split; [reflexivity|]; split; [lia|]; now exists p|].
    split.
    { intros p' e Hp' Hthrow. rewrite Hp in Hp'. injection Hp' as <-.
      destruct Hd as [Hd _]. congruence. }
    split; [discriminate|].
    intro Hall. specialize (Hall _ _ eq_refl). congruence.
  - destruct Hexit as (Hi & Hlen & Hall).
    split; [discriminate|]. split.
    { intros p e Hp Hthrow. exfalso.
      assert (Hin : In p passes).
      { clear - Hp. revert p Hp. induction passes as [|q passes IH];
          intros p Hp; [discriminate|].
        cbn in Hp. destruct (lastOf passes) as [y|] eqn:El.
        - injection Hp as <-. right. now apply IH.
        - injection Hp as <-. now left. }
      rewrite Forall_forall in Hall. destruct (Hall p Hin) as [b Hb].
      congruence. }
    split.
    { intros suggestions' st1' Heq _ _ _. split; [reflexivity|].
      split; lia. }
    intro Hempty. specialize (Hempty _ _ eq_refl). congruence.
  - destruct Hexit as (Hi & p & Hp & Hthrow).
    split; [discriminate|]. split.
    { intros p' e' Hp' Hthrow'. rewrite Hp in Hp'. injection Hp' as <-.
      rewrite Hthrow in Hthrow'. injection Hthrow' as <-.
      split; [reflexivity|]. split; [reflexivity | lia]. }
    split.
    { intros suggestions' st1' _ _ _ Hlast.
      destruct (Hlast p Hp) as [b Hb]. congruence. }
    intro Hempty. specialize (Hempty _ _ eq_refl). congruence.
Qed.

(** X8. The result of [execute] is built from the history the agent
    holds at the end of the run: its changes are those of the recorded
    iterations, in order, and its modified files are the files of those
    iterations, each listed once. *)
Theorem X8_result_reports_recorded_history
  (World : Type) (a : SpecialistAgent World)
  (context : AgentExecutionContext) (st : AgentState World) :
  let result := fst (execute a context st) in
  let history := getIterationHistory (snd (execute a context st)) in
  agent result = cap_specialty (getCapability a)
  /\ changes result = flat_map ir_changes history
  /\ NoDup (modifiedFiles result)
  /\ (forall file,
        In file (modifiedFiles result)
        <-> exists r, In r history /\ In file (ir_modifiedFiles r)).
Proof.
  cbv zeta. unfold execute, execute_passes, getIterationHistory.
  assert (Hbuild : forall succeeded n err st',
            let result := buildResult a succeeded context n err st' in
            agent result = cap_specialty (getCapability a)
            /\ changes result = flat_map ir_changes (iterationHistory st')
            /\ NoDup (modifiedFiles result)
            /\ (forall file,
                  In file (modifiedFiles result)
                  <-> exists r, In r (iterationHistory st')
                                /\ In file (ir_modifiedFiles r))).
  { intros succeeded n err st'. cbn.
    split; [reflexivity|]. split; [reflexivity|].
    split; [apply js_set_NoDup|].
    intro file. rewrite MemoryFacts.js_set_In, in_flat_map. reflexivity. }
  destruct (analyzeContext a context (mkAgentState [] (world st)))
    as [[suggestions|e0] st1]; [|apply Hbuild].
  destruct (List.length suggestions =? 0)%nat; [apply Hbuild|].
  destruct (loop a (Z.to_nat (maxIterations a)) 1 suggestions st1)
    as [[[succeeded i | e i] st2] passes]; apply Hbuild.
Qed.

(** X9. An agent whose [applyFix] returns true for every suggestion
    decides on its first pass. If the analysis has a suggestion of
    confidence above 0.8, the run succeeds after one pass, which applied
    a suggestion of highest confidence; otherwise it repeats for the
    whole budget and fails. *)
Theorem X9_agent_that_always_applies
  (World : Type) (a : SpecialistAgent World)
  (context : AgentExecutionContext) (st : AgentState World)
  (suggestions : list FixSuggestion) (st1 : AgentState World) :
  (forall s st0, fst (applyFix a s st0) = Normal true) ->
  analyzeContext a context (mkAgentState [] (world st))
  = (Normal suggestions, st1) ->
  suggestions <> [] ->
  1 <= maxIterations a ->
  let result := fst (fst (execute_passes a context st)) in
  let passes := snd (execute_passes a context st) in
  ((exists s, In s suggestions /\ (8 # 10 < fs_confidence s)%Q) ->
   success result = true /\ iterations result = 1
   /\ exists best,
        passes = [mkPass 1 best (Normal true)]
        /\ In best suggestions
        /\ forall s, In s suggestions ->
             (fs_confidence s <= fs_confidence best)%Q)
  /\ ((forall s, In s suggestions -> (fs_confidence s <= 8 # 10)%Q) ->
      success result = false
      /\ iterations result = maxIterations a + 1
      /\ Z.of_nat (List.length passes) = maxIterations a).
Proof.
  intros Halways Hanalyze Hne Hmax. cbv zeta.
  unfold execute_passes. rewrite Hanalyze.
  replace (List.length suggestions =? 0)%nat with false
    by (destruct suggestions; [congruence | reflexivity]).
  split.
  - intros Hstrong.
    destruct (Z.to_nat (maxIterations a)) as [|remaining] eqn:Hrem; [lia|].
    destruct (@loop_decides_at_once World a remaining suggestions st1
                Halways Hstrong)
      as (best & st' & Hloop & Hin & Hall).
    rewrite Hloop. cbn.
    split; [reflexivity|]. split; [reflexivity|].
    exists best. split; [reflexivity|]. split; assumption.
  - intro Hweak.
    destruct (@loop_exhausts World a (Z.to_nat (maxIterations a)) 1
                suggestions st1 Hne)
      as (st' & passes & Hloop & Hlen).
    { intros s st0 Hs. pose proof (Halways s st0) as Happly.
      destruct (applyFix a s st0) as [outcome st2]. cbn in Happly.
      subst outcome. exists true, st2. split; [reflexivity|].
      intros _. now apply Hweak. }
    rewrite Hloop. cbn [fst snd buildResult success iterations error].
    split; [reflexivity|]. split; lia.
Qed.

(** The web agent's budget of three and its two session suggestions,
    neither above the threshold. *)
Lemma X9_witness :
  let result :=
    fst (fst (execute_passes Scenarios.twoSuggestionAgent
                Scenarios.sessionContext (mkAgentState [] tt))) in
  success result = false /\ iterations result = 3 + 1.
Proof.
  destruct (@X9_agent_that_always_applies unit Scenarios.twoSuggestionAgent
              Scenarios.sessionContext (mkAgentState [] tt)
              [Scenarios.refreshHook; Scenarios.persistCheck]
              (mkAgentState [] tt))
    as [_ Hweak].
  - intros s st0. reflexivity.
  - reflexivity.
  - discriminate.
  - simpl. lia.
  - destruct Hweak as (Hs & Hi & _).
    + intros s [<- | [<- | []]]; cbn; unfold Qle; cbn; lia.
    + split; [exact Hs | exact Hi].
Defined.

(** X10. An agent none of whose fixes throws, and which applies no
    suggestion of confidence above 0.8, never succeeds: after a non-empty
    analysis it makes exactly [maxIterations] passes and reports
    [maxIterations + 1] iterations and no error. *)
Theorem X10_agent_without_decisive_fix
  (World : Type) (a : SpecialistAgent World)
  (context : AgentExecutionContext) (st : AgentState World)
  (suggestions : list FixSuggestion) (st1 : AgentState World) :
  analyzeContext a context (mkAgentState [] (world st))
  = (Normal suggestions, st1) ->
  suggestions <> [] ->
  (forall s st0, In s suggestions ->
     exists applied st2,
       applyFix a s st0 = (Normal applied, st2)
       /\ (applied = true -> (fs_confidence s <= 8 # 10)%Q)) ->
  let result := fst (fst (execute_passes a context st)) in
  let passes := snd (execute_passes a context st) in
  success result = false
  /\ error result = None
  /\ Z.of_nat (List.length passes) = Z.max 0 (maxIterations a)
  /\ iterations result = Z.max 0 (maxIterations a) + 1.
Proof.
  intros Hanalyze Hne Hweak. cbv zeta.
  unfold execute_passes. rewrite Hanalyze.
  replace (List.length suggestions =? 0)%nat with false
    by (destruct suggestions; [congruence | reflexivity]).
  destruct (@loop_exhausts World a (Z.to_nat (maxIterations a)) 1
              suggestions st1 Hne Hweak)
    as (st' & passes & Hloop & Hlen).
  rewrite Hloop. cbn [fst snd buildResult success iterations error].
  split; [reflexivity|]. split; [reflexivity|]. split; lia.
Qed.

(** The data analysis agent, with its budget of 7, on an SQL error: two
    suggestions, of confidence 0.8 and 0.7, every fix recorded as
    applied. *)
Lemma X10_witness :
  let result :=
    fst (fst (execute_passes Scenarios.dataAgent Scenarios.dataTestContext
                (mkAgentState [] tt))) in
  success result = false /\ iterations result = Z.max 0 7 + 1.
Proof.
  destruct (@X10_agent_without_decisive_fix unit Scenarios.dataAgent
              Scenarios.dataTestContext (mkAgentState [] tt)
              (DataAnalysisSpecialistAgent.generateSQLFixSuggestions [])
              (mkAgentState [] tt))
    as (Hs & _ & _ & Hi).
  - reflexivity.
  - discriminate.
  - intros s st0 [<- | [<- | []]]; (eexists; eexists;
      split; [reflexivity|]); intros _; cbn; unfold Qle; cbn; lia.
  - split; [exact Hs | exact Hi].
Defined.
End AgentRuns.

(* ================================================================== *)
(** ** The web development agent *)
(* ================================================================== *)

Module WebAgentFacts.

Import SpecialistAgent WebDevelopmentSpecialistAgent.

(** The problems whose analysis can bring a suggestion above the success
    threshold: session problems whose backend or network check fails. *)
Lemma analysis_strength (context : AgentExecutionContext) :
  let problemType :=
    detectProblemType (request context) (ctx_errorOutput context) in
  let backendCheck :=
    verifyBackendAPI context (detectFramework (codebaseContext context)) in
  let networkCheck :=
    verifyNetworkHeaders context
      (detectSessionStorage (codebaseContext context)) in
  if isSessionRelated problemType
     && (negb (valid backendCheck) || negb (valid networkCheck))
  then exists s,
         In s (analyzeContext context) /\ (8 # 10 < fs_confidence s)%Q
  else forall s,
         In s (analyzeContext context) -> (fs_confidence s <= 8 # 10)%Q.
Proof.
  cbv zeta. unfold analyzeContext. cbv zeta.
  destruct (isSessionRelated _); cbn [andb].
  - unfold analyzeSessionIssue. cbv zeta.
    destruct (valid (verifyBackendAPI _ _)); cbn [negb orb].
    + destruct (valid (verifyNetworkHeaders _ _)); cbn [negb].
      * intros s Hs. cbn [app] in Hs.
        destruct (valid (verifyFrontendStore _ _)); cbn in Hs;
          [contradiction|].
        destruct Hs as [<- | []]. cbn. unfold Qle; cbn; lia.
      * eexists. split; [left; reflexivity|]. cbn. unfold Qlt; cbn; lia.
    + eexists. split; [left; reflexivity|]. cbn. unfold Qlt; cbn; lia.
  - destruct (isUIRelated _).
    + unfold analyzeUIIssue. intros s Hs.
      destruct (_ || _); [|contradiction].
      destruct Hs as [<- | []]. cbn. unfold Qle; cbn; lia.
    + destruct (isMiddlewareRelated _); [|intros s []].
      unfold analyzeMiddlewareChain. intros s Hs.
      destruct (is_EXPRESS_or_NEXTAUTH _); [|contradiction].
      destruct Hs as [<- | []]. cbn. unfold Qle; cbn; lia.
Qed.

(** X11. The web agent has no analysis for the problems it classifies as
    authentication problems (login failure, auth redirect, CSRF, CORS):
    its run on them fails at once, with 0 iterations and no pass. *)
Theorem X11_auth_problems_get_no_analysis
  (World : Type) (maxIterations : option Z)
  (context : AgentExecutionContext) (st : AgentState World) :
  isAuthRelated
    (detectProblemType (request context) (ctx_errorOutput context)) = true ->
  let run := execute_passes (make World maxIterations) context st in
  analyzeContext context = []
  /\ success (fst (fst run)) = false
  /\ iterations (fst (fst run)) = 0
  /\ changes (fst (fst run)) = []
  /\ error (fst (fst run)) = None
  /\ snd run = [].
Proof.
  intro Hauth. cbv zeta.
  assert (Hnone : analyzeContext context = []).
  { unfold analyzeContext. cbv zeta.
    destruct (detectProblemType (request context) (ctx_errorOutput context));
      try discriminate; reflexivity. }
  split; [exact Hnone|].
  unfold execute_passes, make, construct.
  cbn [SpecialistAgent.analyzeContext].
  rewrite Hnone. cbn. repeat split; reflexivity.
Qed.

(** A login that fails with a 401. *)
Lemma X11_witness :
  success
    (fst (fst (execute_passes (make unit None)
                 (mkAgentExecutionContext "login fails with error 401"
                    "app.post('/login')" None None)
                 (mkAgentState [] tt)))) = false
  /\ iterations
       (fst (fst (execute_passes (make unit None)
                    (mkAgentExecutionContext "login fails with error 401"
                       "app.post('/login')" None None)
                    (mkAgentState [] tt)))) = 0.
Proof.
  destruct (@X11_auth_problems_get_no_analysis unit None
              (mkAgentExecutionContext "login fails with error 401"
                 "app.post('/login')" None None)
              (mkAgentState [] tt) eq_refl)
    as (_ & Hs & Hi & _).
  split; [exact Hs | exact Hi].
Defined.

(** X12. The outcome of the web agent on any problem, for a budget of
    at least 1. It succeeds exactly on a session problem whose backend
    check or network check fails, and then after one pass. Otherwise it
    fails: with 0 iterations when the analysis is empty, and else after
    repeating a suggestion for the whole budget, reporting one iteration
    more than the budget. In every case it reports no change, no
    modified file and no error, and records nothing. *)
Theorem X12_web_agent_outcome
  (World : Type) (budget : option Z)
  (context : AgentExecutionContext) (st : AgentState World) :
  1 <= maxIterations (make World budget) ->
  let problemType :=
    detectProblemType (request context) (ctx_errorOutput context) in
  let backendCheck :=
    verifyBackendAPI context (detectFramework (codebaseContext context)) in
  let networkCheck :=
    verifyNetworkHeaders context
      (detectSessionStorage (codebaseContext context)) in
  let result := fst (execute (make World budget) context st) in
  success result
  = isSessionRelated problemType
    && (negb (valid backendCheck) || negb (valid networkCheck))
  /\ iterations result
     = (if success result then 1
        else if (List.length (analyzeContext context) =? 0)%nat then 0
        else maxIterations (make World budget) + 1)
  /\ changes result = []
  /\ modifiedFiles result = []
  /\ error result = None
  /\ snd (execute (make World budget) context st)
     = mkAgentState [] (world st).
Proof.
  intro Hbudget. cbv zeta.
  pose proof (analysis_strength context) as Hstrength. cbv zeta in Hstrength.
  set (decisive :=
         isSessionRelated
           (detectProblemType (request context) (ctx_errorOutput context))
         && (negb (valid (verifyBackendAPI context
                            (detectFramework (codebaseContext context))))
             || negb (valid (verifyNetworkHeaders context
                               (detectSessionStorage
                                  (codebaseContext context)))))) in *.
  set (a := make World budget) in *.
  assert (Halways : forall s st0, fst (applyFix a s st0) = Normal true)
    by reflexivity.
  assert (Hkeep : forall s st0, snd (applyFix a s st0) = st0)
    by reflexivity.
  unfold execute, execute_passes.
  change (SpecialistAgent.analyzeContext a context
            (mkAgentState [] (world st)))
    with (@Normal (list FixSuggestion) (analyzeContext context),
          mkAgentState [] (world st)).
  cbv iota.
  destruct (analyzeContext context) as [|s0 rest] eqn:Hanalysis.
  - (* nothing to try *)
    destruct decisive.
    + destruct Hstrength as (s & [] & _).
    + cbn. repeat split; reflexivity.
  - rewrite <- Hanalysis in *.
    assert (Hne : analyzeContext context <> [])
      by (rewrite Hanalysis; discriminate).
    replace (List.length (analyzeContext context) =? 0)%nat with false
      by (rewrite Hanalysis; reflexivity).
    destruct (loop a (Z.to_nat (maxIterations a)) 1 (analyzeContext context)
                (mkAgentState [] (world st)))
      as [[exit st'] passes] eqn:Hloop.
    pose proof (@AgentRuns.loop_keeps_state World a _ Hkeep _ _ _ _ _ _ Hloop)
      as Hst. subst st'.
    destruct decisive.
    + destruct (Z.to_nat (maxIterations a)) as [|remaining] eqn:Hrem; [lia|].
      destruct (@AgentRuns.loop_decides_at_once World a remaining
                  (analyzeContext context) (mkAgentState [] (world st))
                  Halways Hstrength)
        as (best & st' & Hloop' & _).
      rewrite Hloop' in Hloop. injection Hloop as <- _ _.
      cbn. repeat split; reflexivity.
    + destruct (@AgentRuns.loop_exhausts World a (Z.to_nat (maxIterations a))
                  1 (analyzeContext context) (mkAgentState [] (world st)) Hne)
        as (st' & passes' & Hloop' & Hlen).
      { intros s st0 Hs. exists true, st0. split; [reflexivity|].
        intros _. now apply Hstrength. }
      replace (1 + Z.of_nat (Z.to_nat (maxIterations a)))
        with (maxIterations a + 1) in Hloop' by lia.
      rewrite Hloop' in Hloop. injection Hloop as <- _ _.
      cbn [fst snd buildResult success iterations error changes
           modifiedFiles SpecialistAgent.iterationHistory flat_map js_set
           js_set_from].
      repeat split; reflexivity.
Qed.

(** The declared budget of 12 and a session problem whose only failing
    check is the frontend store. *)
Lemma X12_witness :
  let result :=
    fst (execute (make unit None) Scenarios.sessionContext
           (mkAgentState [] tt)) in
  success result = false /\ iterations result = 12 + 1.
Proof.
  destruct (@X12_web_agent_outcome unit None Scenarios.sessionContext
              (mkAgentState [] tt))
    as (Hs & Hi & _).
  - simpl. lia.
  - split; [exact Hs|]. rewrite Hi, Hs. reflexivity.
Defined.

End WebAgentFacts.

(* ================================================================== *)
(** ** Routing *)
(* ================================================================== *)

Module RoutingFacts.

Import MultiAgentOrchestrator.

Lemma AgentSpecialty_eqb_eq (a b : AgentSpecialty) :
  AgentSpecialty_eqb a b = true <-> a = b.
Proof. destruct a, b; cbn; split; intro H; congruence. Qed.

Lemma Subsequence_nil_l {A} (l : list A) : Subsequence [] l.
Proof.
  induction l; [apply Subsequence_nil | now apply Subsequence_skip].
Qed.

Lemma subsequenceb_sound {A} (eqb : A -> A -> bool) :
  (forall x y, eqb x y = true -> x = y) ->
  forall l2 l1, subsequenceb eqb l1 l2 = true -> Subsequence l1 l2.
Proof.
  intro Heqb. induction l2 as [|y l2 IH]; intros [|x l1] H; cbn in H.
  - constructor.
  - discriminate.
  - apply Subsequence_nil_l.
  - destruct (eqb x y) eqn:E.
    + apply Heqb in E. subst y. apply Subsequence_take. now apply IH.
    + apply Subsequence_skip. now apply IH.
Qed.

(** The specialties in the order in which [selectSuitableAgents] considers
    them. *)
Lemma selectSuitableAgents_cases (primaryCategory : ErrorCategory)
  (secondaryCategories : list ErrorCategory)
  (context : AgentExecutionContext) :
  let suggested :=
    selectSuitableAgents primaryCategory secondaryCategories context in
  subsequenceb AgentSpecialty_eqb suggested
    [WEB_DEVELOPMENT; UI_REFACTORING; DATA_ANALYSIS; TESTING; ARCHITECTURE;
     PERFORMANCE; SECURITY; GENERAL] = true
  /\ (existsb (AgentSpecialty_eqb WEB_DEVELOPMENT) suggested
      && existsb (AgentSpecialty_eqb UI_REFACTORING) suggested) = false
  /\ (existsb (AgentSpecialty_eqb GENERAL) suggested = true ->
      suggested = [GENERAL])
  /\ (1 <= List.length suggested <= 6)%nat
  /\ (ErrorCategory_eqb primaryCategory TEST = true ->
      existsb (AgentSpecialty_eqb TESTING) suggested = true).
Proof.
  cbv zeta. unfold selectSuitableAgents. cbv zeta.
  set (r := Str.toLowerCase (request context)).
  set (c := Str.toLowerCase (codebaseContext context)).
  generalize
    (existsb (fun kw => Str.includes r kw || Str.includes c kw)
       webDevKeywords).
  generalize
    (existsb (fun kw => Str.includes r kw || Str.includes c kw) uiKeywords).
  generalize
    (Str.includes r "data" || Str.includes r "query" || Str.includes r "sql"
     || Str.includes r "parse" || Str.includes r "transform"
     || Str.includes r "analysis").
  generalize (Str.includes r "test").
  generalize (ErrorCategory_eqb primaryCategory TEST).
  generalize
    (Str.includes r "architecture" || Str.includes r "structure"
     || Str.includes r "refactor" || Str.includes r "design").
  generalize
    (Str.includes r "performance" || Str.includes r "optimize"
     || Str.includes r "fast" || Str.includes r "slow").
  generalize
    (Str.includes r "security" || Str.includes r "vulnerable"
     || Str.includes r "encrypt").
  intros bs bp ba bc bt bd bu bw.
  destruct bw, bu, bd, bt, bc, ba, bp, bs; cbn;
    (split; [reflexivity|]); (split; [reflexivity|]);
    (split; [first [discriminate | reflexivity]|]);
    (split; [lia|]); first [discriminate | reflexivity].
Qed.

(** X13. The candidate agents of a classification come in one fixed
    order of priority (web development, UI refactoring, data analysis,
    testing, architecture, performance, security, and the general agent
    last and only alone), none of them twice, between one and six of
    them, never web development together with UI refactoring; an error
    of the test category always has the testing agent among them. The
    secondary categories play no part. *)
Theorem X13_candidates_in_priority_order
  (primaryCategory : ErrorCategory)
  (secondaryCategories : list ErrorCategory)
  (context : AgentExecutionContext) :
  let suggested :=
    selectSuitableAgents primaryCategory secondaryCategories context in
  Subsequence suggested
    [WEB_DEVELOPMENT; UI_REFACTORING; DATA_ANALYSIS; TESTING; ARCHITECTURE;
     PERFORMANCE; SECURITY; GENERAL]
  /\ NoDup suggested
  /\ ~ (In WEB_DEVELOPMENT suggested /\ In UI_REFACTORING suggested)
  /\ (1 <= List.length suggested <= 6)%nat
  /\ (primaryCategory = TEST -> In TESTING suggested)
  /\ suggested = selectSuitableAgents primaryCategory [] context.
Proof.
  cbv zeta.
  pose proof (selectSuitableAgents_cases primaryCategory secondaryCategories
                context) as (Hsub & Hexcl & _ & Hlen & Htest).
  cbv zeta in Hsub, Hexcl, Hlen, Htest.
  apply (subsequenceb_sound AgentSpecialty_eqb) in Hsub.
  2:{ intros x y. apply AgentSpecialty_eqb_eq. }
  assert (Hin : forall s l,
            In s l -> existsb (AgentSpecialty_eqb s) l = true).
  { intros s l Hs. apply existsb_exists. exists s.
    split; [exact Hs | now apply AgentSpecialty_eqb_eq]. }
  split; [exact Hsub|]. split.
  { (* a list that follows a duplicate-free list has no duplicate *)
    revert Hsub.
    generalize (selectSuitableAgents primaryCategory secondaryCategories
                  context).
    assert (Hnd : NoDup [WEB_DEVELOPMENT; UI_REFACTORING; DATA_ANALYSIS;
                         TESTING; ARCHITECTURE; PERFORMANCE; SECURITY;
                         GENERAL]).
    { repeat constructor; cbn; intuition discriminate. }
    revert Hnd.
    generalize [WEB_DEVELOPMENT; UI_REFACTORING; DATA_ANALYSIS; TESTING;
                ARCHITECTURE; PERFORMANCE; SECURITY; GENERAL].
    intros l2 Hnd l1 Hsub'.
    assert (Hboth : NoDup l1 /\ forall x, In x l1 -> In x l2).
    { induction Hsub' as [|x l1 l2 Hsub' IH|x l1 l2 Hsub' IH].
      - split; [constructor | intros x []].
      - apply NoDup_cons_iff in Hnd. destruct Hnd as [_ Hnd].
        destruct (IH Hnd) as [H1 H2].
        split; [exact H1 | intros y Hy; right; now apply H2].
      - apply NoDup_cons_iff in Hnd. destruct Hnd as [Hx Hnd].
        destruct (IH Hnd) as [H1 H2]. split.
        + constructor; [|exact H1]. intro Hx'. apply Hx. now apply H2.
        + intros y [<- | Hy]; [now left | right; now apply H2]. }
    exact (proj1 Hboth). }
  split.
  { intros [Hw Hu]. apply Hin in Hw, Hu. rewrite Hw, Hu in Hexcl.
    discriminate. }
  split; [exact Hlen|]. split; [|reflexivity].
  intros ->. specialize (Htest eq_refl).
  apply existsb_exists in Htest. destruct Htest as (s & Hs & Heq).
  apply AgentSpecialty_eqb_eq in Heq. now subst s.
Qed.

(** X14. The confidence of a classification lies between 0.3 and 0.9,
    the upper clamp of 0.95 being out of reach; and it is 0.3, the
    floor, whenever there is no error output or one of at most 300
    characters. *)
Theorem X14_classification_confidence_range
  (context : AgentExecutionContext) :
  let classification := classifyProblem context in
  (3 # 10 <= pc_confidence classification <= 9 # 10)%Q
  /\ (Str.slen (str_or_lit (ctx_errorOutput context) "") <= 300 ->
      (pc_confidence classification == 3 # 10)%Q)
  /\ (ctx_errorOutput context = None ->
      (pc_confidence classification == 3 # 10)%Q).
Proof.
  cbv zeta. unfold classifyProblem. cbv zeta. cbn [pc_confidence].
  set (errorOutput := str_or_lit (ctx_errorOutput context) "").
  set (suggested := selectSuitableAgents _ _ context).
  pose proof (selectSuitableAgents_cases
                (detectPrimaryCategory errorOutput (request context))
                (detectSecondaryCategories errorOutput) context)
    as (_ & _ & _ & Hlen & _).
  cbv zeta in Hlen. fold suggested in Hlen.
  unfold calculateClassificationConfidence. cbv zeta.
  set (len := Str.slen errorOutput).
  assert (Hlen0 : 0 <= len) by (unfold len, Str.slen; lia).
  set (n := Z.of_nat (List.length suggested)).
  assert (Hn : 1 <= n <= 6) by (unfold n; lia).
  assert (Hn1 : (inject_Z 0 <= inject_Z (n - 1))%Q)
    by (apply JsFacts.inject_Z_le; lia).
  assert (Hn2 : (inject_Z (n - 1) <= inject_Z 5)%Q)
    by (apply JsFacts.inject_Z_le; lia).
  change (inject_Z 0) with 0%Q in Hn1. change (inject_Z 5) with 5%Q in Hn2.
  set (f := inject_Z (n - 1)) in *.
  assert (Hl0 : (inject_Z 0 <= inject_Z len)%Q)
    by (apply JsFacts.inject_Z_le; lia).
  change (inject_Z 0) with 0%Q in Hl0.
  unfold Qdiv. change (/ 1000)%Q with (1 # 1000)%Q.
  set (l := inject_Z len) in *.
  assert (Hshort : len <= 300 -> (l <= 300)%Q).
  { intro H. apply JsFacts.inject_Z_le in H. exact H. }
  destruct (JsFacts.Math_min_spec (9 # 10) (l * (1 # 1000)))
    as [[H1 ->] | [H1 ->]].
  - (* a long error output: the length part is 0.9 *)
    set (x := ((9 # 10) * (1 - f * (1 # 10)))%Q).
    assert (Hx : (45 # 100 <= x <= 9 # 10)%Q) by (unfold x; split; lra).
    destruct (JsFacts.Math_min_spec (95 # 100) x) as [[H2 ->] | [H2 ->]];
      [lra|].
    destruct (JsFacts.Math_max_spec (3 # 10) x) as [[H3 ->] | [H3 ->]].
    + split; [lra|]. split; [intro H; apply Hshort in H; lra|].
      intro Hnone. exfalso.
      assert (Hzero : len = 0).
      { unfold len, errorOutput. rewrite Hnone. reflexivity. }
      assert (Hl : (l == 0)%Q) by (unfold l; rewrite Hzero; reflexivity).
      lra.
    + lra.
  - set (x := (l * (1 # 1000) * (1 - f * (1 # 10)))%Q).
    assert (Hx : (0 <= x <= l * (1 # 1000))%Q) by (unfold x; split; nra).
    destruct (JsFacts.Math_min_spec (95 # 100) x) as [[H2 ->] | [H2 ->]];
      [lra|].
    assert (Hnone : ctx_errorOutput context = None -> (l == 0)%Q).
    { intro Hnone.
      assert (Hzero : len = 0).
      { unfold len, errorOutput. rewrite Hnone. reflexivity. }
      unfold l. rewrite Hzero. reflexivity. }
    destruct (JsFacts.Math_max_spec (3 # 10) x) as [[H3 ->] | [H3 ->]].
    + split; [lra|].
      split; [intro H; apply Hshort in H; lra|].
      intro H. apply Hnone in H. lra.
    + split; [lra|]. split; intros _; reflexivity.
Qed.

Section Registry.

Variable World : Type.

(** X15. Registering an agent and looking it up. The agent registered
    for a specialty is the one [getAgent] returns for it, the other
    specialties keep their agents, and the list of registered
    specialties keeps its order: a specialty registered again stays in
    its place, a new one goes to the end. *)
Theorem X15_register_then_get
  (agents : Agents World) (agent : RegisteredAgent World)
  (specialty : AgentSpecialty) :
  getAgent (registerAgent agents agent specialty) specialty = Some agent
  /\ (forall other, other <> specialty ->
        getAgent (registerAgent agents agent specialty) other
        = getAgent agents other)
  /\ getRegisteredAgents (registerAgent agents agent specialty)
     = (if existsb (AgentSpecialty_eqb specialty) (getRegisteredAgents agents)
        then getRegisteredAgents agents
        else getRegisteredAgents agents ++ [specialty]).
Proof.
  unfold getAgent, registerAgent, getRegisteredAgents, map_keys.
  induction agents as [|[k v] rest (IH1 & IH2 & IH3)].
  - cbn. split.
    + now replace (AgentSpecialty_eqb specialty specialty) with true
        by (symmetry; now apply AgentSpecialty_eqb_eq).
    + split; [|reflexivity].
      intros other Hother.
      destruct (AgentSpecialty_eqb other specialty) eqn:E; [|reflexivity].
      apply AgentSpecialty_eqb_eq in E. contradiction.
  - cbn [map_set map_get List.map fst existsb].
    destruct (AgentSpecialty_eqb specialty k) eqn:E.
    + apply AgentSpecialty_eqb_eq in E. subst k.
      cbn [map_get List.map fst orb].
      rewrite (proj2 (AgentSpecialty_eqb_eq specialty specialty) eq_refl).
      split; [reflexivity|]. split; [|reflexivity].
      intros other Hother.
      destruct (AgentSpecialty_eqb other specialty) eqn:E'; [|reflexivity].
      apply AgentSpecialty_eqb_eq in E'. contradiction.
    + cbn [map_get List.map fst orb]. rewrite E.
      split; [exact IH1|]. split.
      * intros other Hother.
        destruct (AgentSpecialty_eqb other k); [reflexivity|].
        now apply IH2.
      * rewrite IH3.
        now destruct (existsb (AgentSpecialty_eqb specialty)
                        (List.map fst rest)).
Qed.

Variable agents : Agents World.
Variable context : AgentExecutionContext.

(** Candidates without a registered agent are passed over. *)
Lemma tryAgents_none_registered (candidates : list AgentSpecialty)
  (p : Progress World) :
  (forall s, In s candidates -> getAgent agents s = None) ->
  tryAgents agents context candidates p = p.
Proof.
  induction candidates as [|s rest IH]; intro Hnone; [reflexivity|].
  cbn [tryAgents].
  pose proof (Hnone s (or_introl eq_refl)) as Hs. unfold getAgent in Hs.
  rewrite Hs. apply IH. intros s' Hs'. apply Hnone. now right.
Qed.

End Registry.

(** X16. When no candidate of the classification has a registered
    agent, [execute] runs nothing: the result is a failure with the
    general agent as primary agent, no agent used, 0 iterations, no
    change and an empty execution path, and the world is as it was. *)
Theorem X16_no_registered_candidate
  (World : Type) (agents : Agents World) (context : AgentExecutionContext)
  (w : World) :
  (forall s, In s (suggestedAgents (classifyProblem context)) ->
     getAgent agents s = None) ->
  execute agents context w
  = (mkMultiAgentResult false GENERAL [] 0 [] [] []
       (classifyProblem context), w).
Proof.
  intro Hnone. unfold execute. cbv zeta.
  rewrite (@tryAgents_none_registered World agents context _ _ Hnone).
  reflexivity.
Qed.

(** The registry with a data agent and a testing agent, and a request
    that only the general agent is a candidate for. *)
Lemma X16_witness :
  execute Scenarios.twoAgents
    (mkAgentExecutionContext "hello" "" None None) tt
  = (mkMultiAgentResult false GENERAL [] 0 [] [] []
       (classifyProblem (mkAgentExecutionContext "hello" "" None None)), tt).
Proof.
  apply (@X16_no_registered_candidate unit Scenarios.twoAgents
           (mkAgentExecutionContext "hello" "" None None) tt).
  intros s [<- | []]. reflexivity.
Defined.

(** X17. The execution path is made of one pair of entries per call of
    an agent's [execute], in the order of the calls: the start of the
    agent, followed at once by its end when the call returned and by its
    error when the call threw. The calls are those of the walk over the
    candidates; the agents used are those whose call returned, and the
    primary agent is the first of them, or the general agent when no
    call returned. *)
Theorem X17_execution_path_is_paired
  (World : Type) (agents : Agents World) (context : AgentExecutionContext)
  (w : World) :
  let outcome := fst (execute agents context w) in
  exists attempts,
    Walk agents context (suggestedAgents (classifyProblem context)) w
      attempts (snd (execute agents context w))
    /\ mar_executionPath outcome = flat_map (@pathEntries World) attempts
    /\ agentsUsed outcome = List.map fst (returned attempts)
    /\ primaryAgent outcome = hd GENERAL (List.map fst (returned attempts))
    /\ Z.of_nat (List.length (mar_executionPath outcome))
       = 2 * Z.of_nat (List.length attempts).
Proof.
  cbv zeta. unfold execute. cbv zeta.
  destruct (@OrchestratorFacts.tryAgents_walk World agents context
              (suggestedAgents (classifyProblem context))
              (mkProgress None [] 0 [] w))
    as (attempts & Hwalk & Hused & _ & _ & Hpath).
  cbn [pr_world pr_agentsUsed executionPath app] in Hwalk, Hused, Hpath.
  exists attempts.
  cbn [fst snd mar_executionPath agentsUsed primaryAgent].
  rewrite Hused, Hpath.
  split; [exact Hwalk|]. split; [reflexivity|]. split; [reflexivity|].
  split; [reflexivity|].
  clear. induction attempts as [|a attempts IH]; [reflexivity|].
  cbn [flat_map pathEntries app List.length]. lia.
Qed.

End RoutingFacts.

(* ================================================================== *)
(** ** The execution memory: similarity, lookup, bookkeeping *)
(* ================================================================== *)

Module MemoryStoreFacts.

Import EnhancedIterationEngine.

(** *** Similarity *)

Lemma filter_length_all {A} (f : A -> bool) (l : list A) :
  List.length (filter f l) = List.length l ->
  forall x, In x l -> f x = true.
Proof.
  induction l as [|y l IH]; intros Hlen x Hx; [contradiction|].
  cbn in Hlen. pose proof (filter_length_le f l) as Hle.
  destruct (f y) eqn:E; cbn in Hlen; [|lia].
  destruct Hx as [<- | Hx]; [exact E|].
  apply IH; [lia | exact Hx].
Qed.

Lemma mem_spec (x : string) (l : list string) :
  existsb (String.eqb x) l = true <-> In x l.
Proof.
  rewrite existsb_exists. split.
  - intros (y & Hy & Heq). apply String.eqb_eq in Heq. now subst y.
  - intro H. exists x. split; [exact H | apply String.eqb_refl].
Qed.

(** The sizes that [calculateSimilarity] computes with. *)
Lemma intersection_bounds (tokens1 tokens2 : list string) :
  let set1 := js_set tokens1 in
  let set2 := js_set tokens2 in
  let common := filter (fun token => existsb (String.eqb token) set2) set1 in
  (List.length common <= List.length set1)%nat
  /\ (List.length common <= List.length set2)%nat
  /\ List.length common
     = List.length
         (filter (fun token => existsb (String.eqb token) set1) set2).
Proof.
  cbv zeta.
  pose proof (AgentRuns.js_set_NoDup tokens1) as H1.
  pose proof (AgentRuns.js_set_NoDup tokens2) as H2.
  split; [apply filter_length_le|]. split.
  - apply NoDup_incl_length; [now apply NoDup_filter|].
    intros x Hx. apply filter_In in Hx. destruct Hx as [_ Hx].
    now apply mem_spec.
  - apply Permutation_length, NoDup_Permutation;
      [now apply NoDup_filter | now apply NoDup_filter|].
    intro x. rewrite !filter_In, !mem_spec. tauto.
Qed.

Lemma similarity_cases (tokens1 tokens2 : list string) :
  let set1 := js_set tokens1 in
  let set2 := js_set tokens2 in
  let common :=
    Z.of_nat
      (List.length
         (filter (fun token => existsb (String.eqb token) set2) set1)) in
  let union :=
    Z.of_nat (List.length set1) + Z.of_nat (List.length set2) - common in
  0 <= common <= union
  /\ ((union = 0 /\ calculateSimilarity tokens1 tokens2 = 0%Q)
      \/ (0 < union
          /\ calculateSimilarity tokens1 tokens2
             = (inject_Z common / inject_Z union)%Q)).
Proof.
  cbv zeta.
  pose proof (intersection_bounds tokens1 tokens2) as (H1 & H2 & _).
  cbv zeta in H1, H2.
  split; [lia|].
  unfold calculateSimilarity. cbv zeta.
  match goal with |- context [?u >? 0] => destruct (Z.gtb_spec u 0) end.
  - right. split; [lia | reflexivity].
  - left. split; [lia | reflexivity].
Qed.

(** X18. The similarity of two requests does not depend on their order,
    and lies between 0 and 1. *)
Theorem X18_similarity_symmetric_and_bounded (tokens1 tokens2 : list string) :
  calculateSimilarity tokens1 tokens2 = calculateSimilarity tokens2 tokens1
  /\ (0 <= calculateSimilarity tokens1 tokens2 <= 1)%Q.
Proof.
  split.
  - unfold calculateSimilarity. cbv zeta.
    pose proof (intersection_bounds tokens1 tokens2) as (_ & _ & Hsame).
    cbv zeta in Hsame. rewrite Hsame.
    match goal with
    | |- (if ?u >? 0 then _ else _) = (if ?v >? 0 then _ else _) =>
        replace u with v by lia
    end.
    reflexivity.
  - destruct (similarity_cases tokens1 tokens2)
      as (Hrange & [[_ ->] | [Hpos ->]]).
    + split; unfold Qle; cbn; lia.
    + cbv zeta in Hrange.
      match type of Hpos with 0 < ?u => set (union := u) in * end.
      match type of Hrange with 0 <= ?c <= _ => set (common := c) in * end.
      assert (Hu : (0 < inject_Z union)%Q)
        by (change 0%Q with (inject_Z 0); rewrite <- Zlt_Qlt; lia).
      split.
      * apply Qle_shift_div_l; [exact Hu|].
        rewrite Qmult_0_l. change 0%Q with (inject_Z 0).
        rewrite <- Zle_Qle. lia.
      * apply Qle_shift_div_r; [exact Hu|].
        rewrite Qmult_1_l, <- Zle_Qle. lia.
Qed.

(** X19. The similarity of two requests is 1 exactly when they have the
    same tokens, and at least one. *)
Theorem X19_similarity_one_iff_same_tokens (tokens1 tokens2 : list string) :
  (calculateSimilarity tokens1 tokens2 == 1)%Q
  <-> tokens1 <> [] /\ forall token, In token tokens1 <-> In token tokens2.
Proof.
  pose proof (AgentRuns.js_set_NoDup tokens1) as Hnd1.
  pose proof (AgentRuns.js_set_NoDup tokens2) as Hnd2.
  pose proof (intersection_bounds tokens1 tokens2) as (H1 & H2 & _).
  cbv zeta in H1, H2.
  destruct (similarity_cases tokens1 tokens2)
    as (Hrange & [[Hzero Hsim] | [Hpos Hsim]]); cbv zeta in *; rewrite Hsim.
  - (* no token on either side *)
    split; [intro H; discriminate H|].
    intros [Hne _]. exfalso.
    apply MemoryFacts.js_set_nonempty in Hne.
    assert (Hlen : (1 <= List.length (js_set tokens1))%nat)
      by (destruct (js_set tokens1); [congruence | cbn; lia]).
    lia.
  - set (common :=
           filter (fun token => existsb (String.eqb token) (js_set tokens2))
             (js_set tokens1)) in *.
    assert (Hu : ~ (inject_Z
                      (Z.of_nat (List.length (js_set tokens1))
                       + Z.of_nat (List.length (js_set tokens2))
                       - Z.of_nat (List.length common)) == 0)%Q).
    { change 0%Q with (inject_Z 0). rewrite inject_Z_injective. lia. }
    split.
    + intro Hone.
      apply (Qmult_inj_r _ _ _ Hu) in Hone.
      rewrite Qmult_1_l in Hone.
      unfold Qdiv in Hone. rewrite <- Qmult_assoc in Hone.
      rewrite (Qmult_comm (/ _)), Qmult_inv_r, Qmult_1_r in Hone by exact Hu.
      rewrite inject_Z_injective in Hone.
      assert (Hlen1 : List.length common = List.length (js_set tokens1))
        by lia.
      assert (Hlen2 : List.length (js_set tokens2)
                      = List.length (js_set tokens1)) by lia.
      assert (Hsub : incl (js_set tokens1) (js_set tokens2)).
      { intros x Hx. apply mem_spec.
        now apply (filter_length_all _ _ Hlen1). }
      assert (Hsup : incl (js_set tokens2) (js_set tokens1)).
      { apply NoDup_length_incl; [exact Hnd1 | lia | exact Hsub]. }
      split.
      * assert (Hl : (1 <= List.length (js_set tokens1))%nat) by lia.
        intro E. rewrite E in Hl. cbn in Hl. lia.
      * intro token. rewrite <- (MemoryFacts.js_set_In tokens1),
                       <- (MemoryFacts.js_set_In tokens2).
        split; [apply Hsub | apply Hsup].
    + intros [Hne Hsame].
      assert (Hsub : forall x, In x (js_set tokens1) ->
                       existsb (String.eqb x) (js_set tokens2) = true).
      { intros x Hx. apply mem_spec.
        apply MemoryFacts.js_set_In, Hsame, MemoryFacts.js_set_In, Hx. }
      assert (Hlen1 : List.length common = List.length (js_set tokens1)).
      { unfold common. now rewrite MemoryFacts.filter_all. }
      assert (Hlen2 : List.length (js_set tokens2)
                      = List.length (js_set tokens1)).
      { apply Permutation_length, NoDup_Permutation; [assumption..|].
        intro x. rewrite !MemoryFacts.js_set_In. symmetry. apply Hsame. }
      match goal with
      | |- (inject_Z ?c / inject_Z ?u == 1)%Q => replace u with c by lia
      end.
      apply Qmult_inv_r.
      match type of Hu with
      | ~ (inject_Z ?u == 0)%Q =>
          replace u with (Z.of_nat (List.length common)) in Hu by lia
      end.
      exact Hu.
Qed.

(** *** Lookup *)

Lemma iterations_compare (a b : ExecutionMemory) :
  (inject_Z (em_totalIterations b - em_totalIterations a) <= 0)%Q
  <-> (inject_Z (em_totalIterations b) <= inject_Z (em_totalIterations a))%Q.
Proof.
  rewrite <- !Zle_Qle. change 0%Q with (inject_Z 0).
  rewrite <- Zle_Qle. lia.
Qed.

Lemma StronglySorted_weaken {A} (R R' : A -> A -> Prop) (l : list A) :
  (forall a b, R a b -> R' a b) ->
  StronglySorted R l -> StronglySorted R' l.
Proof.
  intros Himp H. induction H as [|x l Hs IH Hall]; constructor.
  - exact IH.
  - eapply Forall_impl; [|exact Hall]. intros b. apply Himp.
Qed.

(** X20. What [getSimilarSuccesses] returns: exactly the stored entries
    that succeeded, whose request has a similarity above 0.5 with the
    current one and, when a specialty is given and not empty, that have
    an attempt of that specialty; ordered by their total iterations, the
    largest first. *)
Theorem X20_similar_successes_characterised
  (store : Store) (currentRequest : string) (specialty : option string) :
  let results := getSimilarSuccesses store currentRequest specialty in
  (forall memory,
     In memory results
     <-> In memory (exportMemory store)
         /\ em_succeeded memory = true
         /\ (5 # 10
             < calculateSimilarity (tokenize currentRequest)
                 (tokenize (originalRequest memory)))%Q
         /\ (truthy_str specialty = false
             \/ exists wanted solution,
                  specialty = Some wanted
                  /\ In solution (attemptedSolutions memory)
                  /\ agentSpecialty solution = wanted))
  /\ StronglySorted
       (fun a b => em_totalIterations b <= em_totalIterations a) results
  /\ (List.length results <= List.length store)%nat.
Proof.
  cbv zeta. unfold getSimilarSuccesses, exportMemory. cbv zeta.
  match goal with
  | |- context [Js.sort ?c (filter ?k (map_values store))] =>
      set (compare := c); set (keep := k)
  end.
  split; [|split].
  - intro memory.
    rewrite (JsFacts.sort_In compare), filter_In. unfold keep.
    rewrite !andb_true_iff, orb_true_iff, negb_true_iff.
    unfold Qgtb. rewrite JsFacts.Qltb_lt, existsb_exists.
    split.
    + intros (Hin & (Hs & Hsim) & Hspec).
      split; [exact Hin|]. split; [exact Hs|]. split; [exact Hsim|].
      destruct Hspec as [Hnone | (solution & Hsol & Heq)]; [now left|].
      destruct specialty as [wanted|]; [|discriminate].
      right. exists wanted, solution. split; [reflexivity|].
      split; [exact Hsol | now apply String.eqb_eq].
    + intros (Hin & Hs & Hsim & Hspec).
      split; [exact Hin|]. split; [now split|].
      destruct Hspec as [Hnone | (wanted & solution & -> & Hsol & Heq)];
        [now left|].
      right. exists solution. split; [exact Hsol | now apply String.eqb_eq].
  - apply StronglySorted_weaken
      with (R := descending (fun m => inject_Z (em_totalIterations m))).
    + intros a b Hab. unfold descending in Hab. now rewrite <- Zle_Qle in Hab.
    + apply JsFacts.sort_sorted. intros a b. apply iterations_compare.
  - rewrite (JsFacts.sort_length compare).
    unfold map_values. rewrite <- (length_map snd store).
    apply filter_length_le.
Qed.

(** X21. [suggestNextApproach] proposes only what worked: an approach
    it returns is that of an attempt recorded as a success, in a similar
    execution that succeeded, by one of the given specialties, and is not
    among the failed approaches. It returns nothing exactly when the
    execution is unknown or no attempt qualifies. *)
Theorem X21_suggested_approach_worked_before
  (store : Store) (id : string)
  (failedApproaches agentSpecialties : list string) :
  let qualifies (memory : ExecutionMemory) (solution : AttemptedSolution) :=
    exists similar,
      In similar (getSimilarSuccesses store (originalRequest memory) None)
      /\ In solution (attemptedSolutions similar)
      /\ att_result solution = AttemptSuccess
      /\ ~ In (approach solution) failedApproaches
      /\ In (agentSpecialty solution) agentSpecialties in
  (forall suggestion,
     suggestNextApproach store id failedApproaches agentSpecialties
     = Some suggestion ->
     exists memory solution,
       get store id = Some memory
       /\ qualifies memory solution
       /\ approach solution = suggestion)
  /\ (suggestNextApproach store id failedApproaches agentSpecialties = None
      <-> get store id = None
          \/ exists memory,
               get store id = Some memory
               /\ forall solution, ~ qualifies memory solution).
Proof.
  cbv zeta. unfold suggestNextApproach.
  destruct (get store id) as [memory|].
  2:{ split; [discriminate|]. split; [now left | reflexivity]. }
  cbv zeta.
  set (successes := getSimilarSuccesses store (originalRequest memory) None).
  match goal with
  | |- context [filter ?k (flat_map attemptedSolutions successes)] =>
      set (keep := k)
  end.
  assert (Hkeep : forall solution,
            In solution (filter keep (flat_map attemptedSolutions successes))
            <-> exists similar,
                  In similar successes
                  /\ In solution (attemptedSolutions similar)
                  /\ att_result solution = AttemptSuccess
                  /\ ~ In (approach solution) failedApproaches
                  /\ In (agentSpecialty solution) agentSpecialties).
  { intro solution. rewrite filter_In, in_flat_map. unfold keep.
    rewrite !andb_true_iff, negb_true_iff, mem_spec.
    assert (Hres : is_success (att_result solution) = true
                   <-> att_result solution = AttemptSuccess)
      by (destruct (att_result solution); cbn; split; congruence).
    assert (Hfailed : existsb (String.eqb (approach solution))
                        failedApproaches = false
                      <-> ~ In (approach solution) failedApproaches).
    { rewrite <- mem_spec.
      destruct (existsb _ failedApproaches); split; congruence. }
    rewrite Hres, Hfailed. split.
    - intros ((similar & H1 & H2) & (H3 & H4) & H5). now exists similar.
    - intros (similar & H1 & H2 & H3 & H4 & H5).
      split; [now exists similar | now split]. }
  split.
  - intros suggestion Hsome.
    destruct (filter keep (flat_map attemptedSolutions successes))
      as [|solution others] eqn:E; [discriminate|].
    cbn in Hsome. injection Hsome as <-.
    exists memory, solution. split; [reflexivity|]. split; [|reflexivity].
    apply Hkeep. now left.
  - split.
    + intro Hnone. right. exists memory. split; [reflexivity|].
      intros solution Hq. apply Hkeep in Hq.
      destruct (filter keep (flat_map attemptedSolutions successes));
        [contradiction | discriminate].
    + intros [Hnone | (memory' & Heq & Hno)]; [discriminate|].
      injection Heq as <-.
      destruct (filter keep (flat_map attemptedSolutions successes))
        as [|solution others] eqn:E; [reflexivity|].
      exfalso. apply (Hno solution), Hkeep. now left.
Qed.

(** *** The store *)

(** [Map<string, V>] *)
Section StringMap.

Context {V : Type}.

Lemma map_get_set_same (m : list (string * V)) (k : string) (v : V) :
  map_get String.eqb (map_set String.eqb m k v) k = Some v.
Proof.
  induction m as [|[k' v'] m IH]; cbn.
  - now rewrite String.eqb_refl.
  - destruct (String.eqb k k') eqn:E; cbn.
    + now rewrite String.eqb_refl.
    + now rewrite E.
Qed.

Lemma map_get_set_other (m : list (string * V)) (k other : string) (v : V) :
  other <> k ->
  map_get String.eqb (map_set String.eqb m k v) other
  = map_get String.eqb m other.
Proof.
  intro Hne. apply String.eqb_neq in Hne.
  induction m as [|[k' v'] m IH]; cbn.
  - now rewrite Hne.
  - destruct (String.eqb k k') eqn:E; cbn.
    + apply String.eqb_eq in E. subst k'. now rewrite Hne.
    + now rewrite IH.
Qed.

Lemma map_get_In (m : list (string * V)) (k : string) (v : V) :
  map_get String.eqb m k = Some v -> In (k, v) m.
Proof.
  induction m as [|[k' v'] m IH]; cbn; [discriminate|].
  destruct (String.eqb_spec k k') as [-> | Hne].
  - intro H. injection H as <-. now left.
  - intro H. right. now apply IH.
Qed.

Lemma map_get_None (m : list (string * V)) (k : string) :
  map_get String.eqb m k = None <-> ~ In k (map_keys m).
Proof.
  unfold map_keys. induction m as [|[k' v'] m IH]; cbn.
  - tauto.
  - destruct (String.eqb_spec k k') as [-> | Hne].
    + split; [discriminate | intro H; exfalso; apply H; now left].
    + rewrite IH. split.
      * intros H [Hk | Hin]; [congruence | contradiction].
      * intros H Hin. apply H. now right.
Qed.

Lemma map_In_get (m : list (string * V)) (k : string) (v : V) :
  NoDup (map_keys m) -> In (k, v) m -> map_get String.eqb m k = Some v.
Proof.
  unfold map_keys. induction m as [|[k' v'] m IH]; cbn;
    intros Hnd Hin; [contradiction|].
  apply NoDup_cons_iff in Hnd. destruct Hnd as [Hk Hnd].
  destruct Hin as [Heq | Hin].
  - injection Heq as -> ->. now rewrite String.eqb_refl.
  - destruct (String.eqb_spec k k') as [-> | Hne].
    + exfalso. apply Hk. apply in_map_iff. now exists (k', v).
    + now apply IH.
Qed.

Lemma map_In_set (m : list (string * V)) (k : string) (v : V)
  (entry : string * V) :
  In entry (map_set String.eqb m k v) -> entry = (k, v) \/ In entry m.
Proof.
  induction m as [|[k' v'] m IH]; cbn.
  - intros [<- | []]. now left.
  - destruct (String.eqb k k').
    + intros [<- | Hin]; [now left | right; now right].
    + intros [<- | Hin]; [right; now left|].
      destruct (IH Hin) as [-> | H]; [now left | right; now right].
Qed.

Lemma map_set_keys (m : list (string * V)) (k : string) (v : V) :
  map_keys (map_set String.eqb m k v)
  = if existsb (String.eqb k) (map_keys m) then map_keys m
    else map_keys m ++ [k].
Proof.
  unfold map_keys.
  induction m as [|[k' v'] m IH]; [reflexivity|].
  cbn. destruct (String.eqb_spec k k') as [-> | Hne]; [reflexivity|].
  cbn. rewrite IH.
  now destruct (existsb (String.eqb k) (List.map fst m)).
Qed.

Lemma map_set_NoDup (m : list (string * V)) (k : string) (v : V) :
  NoDup (map_keys m) -> NoDup (map_keys (map_set String.eqb m k v)).
Proof.
  intro H. rewrite map_set_keys.
  destruct (existsb (String.eqb k) (map_keys m)) eqn:E; [exact H|].
  apply NoDup_rev in H. rewrite <- (rev_involutive (_ ++ _)).
  apply NoDup_rev. rewrite rev_app_distr. cbn.
  constructor; [|exact H].
  intro Hin. apply in_rev in Hin. apply mem_spec in Hin. congruence.
Qed.

End StringMap.

Lemma get_set_same (store : Store) (id : string) (m : ExecutionMemory) :
  get (set store id m) id = Some m.
Proof. apply map_get_set_same. Qed.

Lemma get_set_other (store : Store) (id other : string)
  (m : ExecutionMemory) :
  other <> id -> get (set store id m) other = get store other.
Proof. apply map_get_set_other. Qed.

Lemma get_In (store : Store) (id : string) (m : ExecutionMemory) :
  get store id = Some m -> In (id, m) store.
Proof. apply map_get_In. Qed.

Lemma get_None (store : Store) (id : string) :
  get store id = None <-> ~ In id (map_keys store).
Proof. apply map_get_None. Qed.

Lemma In_set (store : Store) (id : string) (m : ExecutionMemory)
  (entry : string * ExecutionMemory) :
  In entry (set store id m) -> entry = (id, m) \/ In entry store.
Proof. apply map_In_set. Qed.

Lemma set_present (store : Store) (id : string) (m0 m : ExecutionMemory) :
  get store id = Some m0 -> map_keys (set store id m) = map_keys store.
Proof.
  intro Hget. rewrite MemoryFacts.set_keys.
  assert (Hin : In id (map_keys store)).
  { destruct (in_dec string_dec id (map_keys store)) as [H | H];
      [exact H|].
    apply get_None in H. congruence. }
  apply mem_spec in Hin. now rewrite Hin.
Qed.

Lemma keyed_set (store : Store) (id : string) (m : ExecutionMemory) :
  executionId m = id -> keyed store -> keyed (set store id m).
Proof.
  intros Hid Hkeyed k v Hin. apply In_set in Hin.
  destruct Hin as [Heq | Hin]; [now injection Heq as -> ->|].
  now apply Hkeyed.
Qed.

(** The shape of the three recorders: the entry under [id], if there is
    one, is replaced by an updated one. *)
Lemma update_entry (store : Store) (id : string)
  (update : ExecutionMemory -> ExecutionMemory) :
  let store' :=
    match get store id with
    | None => store
    | Some memory => set store id (update memory)
    end in
  map_keys store' = map_keys store
  /\ (forall other, other <> id -> get store' other = get store other)
  /\ get store' id = option_map update (get store id)
  /\ (wf store -> wf store')
  /\ ((forall memory, executionId (update memory) = executionId memory) ->
      keyed store -> keyed store').
Proof.
  cbv zeta. destruct (get store id) as [memory|] eqn:Hget.
  - split; [now apply set_present with (m0 := memory)|].
    split; [intros other Hne; now apply get_set_other|].
    split; [apply get_set_same|].
    split; [apply MemoryFacts.wf_set|].
    intros Hid Hkeyed. apply keyed_set; [|exact Hkeyed].
    rewrite Hid. apply Hkeyed. now apply get_In.
  - split; [reflexivity|]. split; [reflexivity|].
    split; [exact Hget|]. split; auto.
Qed.

(** X22. Creating an execution memory and reading it back. The new
    entry, with no attempt, no change, not succeeded and 0 iterations, is
    what [getMemory] then returns for its id; the entries of the other
    ids stay. An id that was present keeps its place and loses its
    earlier record; a new id goes to the end. *)
Theorem X22_create_then_get
  (store : Store) (now : Z) (requestId originalRequest : string) :
  let created := createExecutionMemory store now requestId originalRequest in
  fst created
  = mkExecutionMemory requestId originalRequest [] [] false 0 now
  /\ get (snd created) requestId = Some (fst created)
  /\ (forall other, other <> requestId ->
        get (snd created) other = get store other)
  /\ map_keys (snd created)
     = match get store requestId with
       | Some _ => map_keys store
       | None => map_keys store ++ [requestId]
       end.
Proof.
  cbv zeta. unfold createExecutionMemory. cbn [fst snd].
  split; [reflexivity|]. split; [apply get_set_same|].
  split; [intros other Hne; now apply get_set_other|].
  rewrite MemoryFacts.set_keys.
  destruct (get store requestId) as [memory|] eqn:Hget.
  - assert (Hin : In requestId (map_keys store)).
    { destruct (in_dec string_dec requestId (map_keys store)) as [H | H];
        [exact H|].
      apply get_None in H. congruence. }
    apply mem_spec in Hin. now rewrite Hin.
  - apply get_None in Hget.
    destruct (existsb (String.eqb requestId) (map_keys store)) eqn:E;
      [|reflexivity].
    apply mem_spec in E. contradiction.
Qed.

(** X23. The three recorders change the entry of their id and nothing
    else. The ids of the store and their order stay, the entries of the
    other ids stay, and for an unknown id the store is left as it is.
    For a known id the attempt, or the change, is added at the end of
    the entry's list, and [markSucceeded] sets the success flag and the
    iteration count. *)
Theorem X23_recorders_touch_one_entry
  (store : Store) (now : Z) (id specialty approach : string)
  (result : AttemptResult) (iteration : Z) (errorMessage : option string)
  (filePath changeDescription : string) (totalIterations : Z) :
  let attempted :=
    recordAttempt store id specialty approach result iteration
      errorMessage in
  let changed := recordAppliedChange store now id filePath changeDescription in
  let marked := markSucceeded store id totalIterations in
  (map_keys attempted = map_keys store
   /\ map_keys changed = map_keys store
   /\ map_keys marked = map_keys store)
  /\ (forall other, other <> id ->
        get attempted other = get store other
        /\ get changed other = get store other
        /\ get marked other = get store other)
  /\ (get store id = None ->
      attempted = store /\ changed = store /\ marked = store)
  /\ (forall memory, get store id = Some memory ->
        get attempted id
        = Some (mkExecutionMemory (executionId memory)
                  (originalRequest memory)
                  (attemptedSolutions memory
                   ++ [mkAttemptedSolution specialty approach result
                         iteration errorMessage])
                  (appliedChanges memory) (em_succeeded memory)
                  (em_totalIterations memory) (timestamp memory))
        /\ get changed id
           = Some (mkExecutionMemory (executionId memory)
                     (originalRequest memory) (attemptedSolutions memory)
                     (appliedChanges memory
                      ++ [mkAppliedChange filePath changeDescription now])
                     (em_succeeded memory) (em_totalIterations memory)
                     (timestamp memory))
        /\ get marked id
           = Some (mkExecutionMemory (executionId memory)
                     (originalRequest memory) (attemptedSolutions memory)
                     (appliedChanges memory) true totalIterations
                     (timestamp memory))).
Proof.
  cbv zeta.
  pose proof (update_entry store id
                (fun memory =>
                   mkExecutionMemory (executionId memory)
                     (originalRequest memory)
                     (attemptedSolutions memory
                      ++ [mkAttemptedSolution specialty approach result
                            iteration errorMessage])
                     (appliedChanges memory) (em_succeeded memory)
                     (em_totalIterations memory) (timestamp memory)))
    as (Ha1 & Ha2 & Ha3 & _).
  pose proof (update_entry store id
                (fun memory =>
                   mkExecutionMemory (executionId memory)
                     (originalRequest memory) (attemptedSolutions memory)
                     (appliedChanges memory
                      ++ [mkAppliedChange filePath changeDescription now])
                     (em_succeeded memory) (em_totalIterations memory)
                     (timestamp memory)))
    as (Hc1 & Hc2 & Hc3 & _).
  pose proof (update_entry store id
                (fun memory =>
                   mkExecutionMemory (executionId memory)
                     (originalRequest memory) (attemptedSolutions memory)
                     (appliedChanges memory) true totalIterations
                     (timestamp memory)))
    as (Hm1 & Hm2 & Hm3 & _).
  cbv zeta in *.
  split; [split; [exact Ha1 | split; [exact Hc1 | exact Hm1]]|].
  split.
  { intros other Hne.
    split; [now apply Ha2 | split; [now apply Hc2 | now apply Hm2]]. }
  split.
  { intro Hnone. unfold recordAttempt, recordAppliedChange, markSucceeded.
    rewrite Hnone. repeat split. }
  intros memory Hsome.
  unfold recordAttempt, recordAppliedChange, markSucceeded.
  rewrite Hsome in *. cbn in Ha3, Hc3, Hm3.
  split; [exact Ha3 | split; [exact Hc3 | exact Hm3]].
Qed.

Lemma get_values (store : Store) (id : string) (m : ExecutionMemory) :
  get store id = Some m -> In m (exportMemory store).
Proof.
  intro H. apply get_In in H. unfold exportMemory, map_values.
  apply in_map_iff. now exists (id, m).
Qed.

(** X24. What is learned is found again. An execution created for a
    request with at least one token and then marked as succeeded is among
    the similar successes of that same request. *)
Theorem X24_marked_success_is_found
  (store : Store) (now : Z) (requestId text : string)
  (totalIterations : Z) :
  tokenize text <> [] ->
  let created :=
    snd (createExecutionMemory store now requestId text) in
  let marked := markSucceeded created requestId totalIterations in
  In (mkExecutionMemory requestId text [] [] true totalIterations
        now)
    (getSimilarSuccesses marked text None).
Proof.
  intro Htokens. cbv zeta.
  unfold createExecutionMemory, markSucceeded. cbn [snd].
  rewrite get_set_same. cbn [executionId originalRequest attemptedSolutions
                             appliedChanges timestamp].
  match goal with
  | |- In ?m (getSimilarSuccesses ?s _ _) =>
      assert (Hin : In m (exportMemory s))
        by (apply get_values with (id := requestId), get_set_same)
  end.
  unfold getSimilarSuccesses. cbv zeta.
  apply JsFacts.sort_In, filter_In. split; [exact Hin|].
  cbn [em_succeeded originalRequest truthy_str negb andb orb].
  rewrite andb_true_r. unfold Qgtb. apply JsFacts.Qltb_lt.
  rewrite (MemoryFacts.calculateSimilarity_self Htokens).
  unfold Qlt; cbn; lia.
Qed.

(** An empty store and a request of five tokens. *)
Lemma X24_witness :
  In (mkExecutionMemory "run-1" "fix the failing unit tests" [] [] true 3 1000)
    (getSimilarSuccesses
       (markSucceeded
          (snd (createExecutionMemory [] 1000 "run-1"
                  "fix the failing unit tests"))
          "run-1" 3)
       "fix the failing unit tests" None).
Proof.
  apply (@X24_marked_success_is_found [] 1000 "run-1"
           "fix the failing unit tests" 3).
  vm_compute. discriminate.
Defined.

(** *** Pruning *)

(** What [pruneMemory] leaves for any keep count, when it evicts. *)
Lemma pruneMemory_prefix (store : Store) (keepCount : Z) :
  wf store ->
  map_size store > keepCount ->
  pruneMemory store (Some keepCount)
  = slice0
      (Js.sort
         (fun a b => inject_Z (timestamp (snd b) - timestamp (snd a)))
         store)
      keepCount.
Proof.
  intros Hwf Hgt. unfold pruneMemory. cbv zeta.
  destruct (map_size store <=? keepCount) eqn:E; [lia|].
  apply (MemoryFacts.refill _ []). cbn.
  unfold slice0. cbv zeta.
  unfold map_keys. rewrite <- firstn_map. apply MemoryFacts.NoDup_firstn.
  eapply Permutation_NoDup; [|exact Hwf].
  apply Permutation_map, Permutation_sym, JsFacts.sort_perm.
Qed.

(** X25. Pruning twice with the same keep count, not negative, is
    pruning once. *)
Theorem X25_prune_is_idempotent (store : Store) (keepCount : option Z) :
  wf store ->
  0 <= match keepCount with Some k => k | None => 100 end ->
  pruneMemory (pruneMemory store keepCount) keepCount
  = pruneMemory store keepCount.
Proof.
  intros Hwf Hk.
  assert (Hdefault : pruneMemory store keepCount
                     = pruneMemory store
                         (Some match keepCount with
                               | Some k => k
                               | None => 100
                               end))
    by (destruct keepCount; reflexivity).
  set (k := match keepCount with Some k => k | None => 100 end) in *.
  assert (Hsmall : map_size (pruneMemory store keepCount) <= k).
  { rewrite Hdefault.
    destruct (Z.leb_spec (map_size store) k) as [Hle | Hgt].
    - unfold pruneMemory. cbv zeta.
      destruct (map_size store <=? k) eqn:E; [exact Hle | lia].
    - rewrite pruneMemory_prefix by (try assumption; lia).
      rewrite MemoryFacts.slice0_nonneg by exact Hk.
      unfold map_size. rewrite length_firstn. lia. }
  unfold pruneMemory at 1. cbv zeta. fold k.
  destruct (map_size (pruneMemory store keepCount) <=? k) eqn:E;
    [reflexivity | lia].
Qed.

(** Keeping two of three entries, twice. *)
Lemma X25_witness :
  pruneMemory (pruneMemory Scenarios.threeEntries (Some 2)) (Some 2)
  = pruneMemory Scenarios.threeEntries (Some 2).
Proof.
  apply (@X25_prune_is_idempotent Scenarios.threeEntries (Some 2)).
  - unfold wf. cbn. repeat constructor; cbn; intuition discriminate.
  - lia.
Defined.

(** X26. A negative keep count is not a count of entries to keep: with
    [-k] the [k] oldest entries are evicted, all of them when there are
    no more than [k]. No entry that stays is older than an evicted
    one. *)
Theorem X26_negative_keep_count_evicts_oldest (store : Store) (k : Z) :
  wf store ->
  0 < k ->
  let pruned := pruneMemory store (Some (- k)) in
  map_size pruned = Z.max 0 (map_size store - k)
  /\ incl pruned store
  /\ wf pruned
  /\ (forall kept evicted,
        In kept pruned -> In evicted store -> ~ In evicted pruned ->
        timestamp (snd evicted) <= timestamp (snd kept)).
Proof.
  intros Hwf Hk pruned.
  assert (Hpruned : pruned
                    = firstn (Z.to_nat (map_size store - k))
                        (Js.sort
                           (fun a b =>
                              inject_Z (timestamp (snd b)
                                        - timestamp (snd a)))
                           store)).
  { subst pruned. rewrite pruneMemory_prefix; [|exact Hwf|unfold map_size; lia].
    unfold slice0. cbv zeta.
    destruct (- k <? 0) eqn:E; [|lia].
    rewrite JsFacts.sort_length. f_equal. unfold map_size. lia. }
  set (sorted :=
         Js.sort
           (fun a b => inject_Z (timestamp (snd b) - timestamp (snd a)))
           store) in *.
  set (n := Z.to_nat (map_size store - k)) in *.
  assert (Hperm : Permutation sorted store) by apply JsFacts.sort_perm.
  assert (Hsorted :
            StronglySorted
              (descending
                 (fun e : string * ExecutionMemory =>
                    inject_Z (timestamp (snd e))))
              sorted)
    by (apply JsFacts.sort_sorted, MemoryFacts.timestamp_compare).
  rewrite Hpruned.
  split.
  { unfold map_size in *. rewrite length_firstn.
    rewrite (Permutation_length Hperm). lia. }
  split.
  { intros x Hx. apply (Permutation_in _ Hperm).
    rewrite <- (firstn_skipn n sorted). apply in_or_app. now left. }
  split.
  { unfold wf, map_keys. rewrite <- firstn_map.
    apply MemoryFacts.NoDup_firstn.
    eapply Permutation_NoDup; [|exact Hwf].
    apply Permutation_map, Permutation_sym, Hperm. }
  intros kept evicted Hkept Hin Hout.
  assert (Hev : In evicted (skipn n sorted)).
  { apply (Permutation_in _ (Permutation_sym Hperm)) in Hin.
    rewrite <- (firstn_skipn n sorted) in Hin.
    apply in_app_or in Hin. destruct Hin; [contradiction | assumption]. }
  rewrite <- (firstn_skipn n sorted) in Hsorted.
  pose proof (@JsFacts.sorted_app_order _ _ _ _ Hsorted _ _ Hkept Hev)
    as Hord.
  unfold descending in Hord. now rewrite <- Zle_Qle in Hord.
Qed.

(** Three entries and a keep count of -1: two stay. *)
Lemma X26_witness :
  map_size (pruneMemory Scenarios.threeEntries (Some (- (1))))
  = Z.max 0 (map_size Scenarios.threeEntries - 1).
Proof.
  destruct (@X26_negative_keep_count_evicts_oldest Scenarios.threeEntries 1)
    as (Hsize & _).
  - unfold wf. cbn. repeat constructor; cbn; intuition discriminate.
  - lia.
  - exact Hsize.
Defined.

(** *** Invariants and persistence *)

Lemma refill_wf (entries acc : Store) :
  wf acc -> wf (fold_left (fun m e => set m (fst e) (snd e)) entries acc).
Proof.
  revert acc. induction entries as [|e entries IH]; intros acc H; cbn;
    [exact H|].
  apply IH. now apply MemoryFacts.wf_set.
Qed.

Lemma refill_keyed (entries acc : Store) :
  keyed acc -> keyed entries ->
  keyed (fold_left (fun m e => set m (fst e) (snd e)) entries acc).
Proof.
  revert acc. induction entries as [|[k v] entries IH]; intros acc Ha He;
    cbn; [exact Ha|].
  apply IH.
  - apply keyed_set; [|exact Ha]. apply He. now left.
  - intros id m Hin. apply He. now right.
Qed.

Lemma load_wf (memories : list ExecutionMemory) (acc : Store) :
  wf acc ->
  wf (fold_left (fun m memory => set m (executionId memory) memory)
        memories acc).
Proof.
  revert acc. induction memories as [|memory memories IH]; intros acc H; cbn;
    [exact H|].
  apply IH. now apply MemoryFacts.wf_set.
Qed.

Lemma load_keyed (memories : list ExecutionMemory) (acc : Store) :
  keyed acc ->
  keyed (fold_left (fun m memory => set m (executionId memory) memory)
           memories acc).
Proof.
  revert acc. induction memories as [|memory memories IH]; intros acc H; cbn;
    [exact H|].
  apply IH. now apply keyed_set.
Qed.

Lemma pruneMemory_wf_keyed (store : Store) (keepCount : option Z) :
  wf store -> keyed store ->
  wf (pruneMemory store keepCount) /\ keyed (pruneMemory store keepCount).
Proof.
  intros Hwf Hkeyed. unfold pruneMemory. cbv zeta.
  destruct (map_size store <=? _); [now split|].
  split.
  - apply refill_wf, MemoryFacts.wf_empty.
  - apply refill_keyed; [intros id m []|].
    intros id m Hin. apply Hkeyed.
    unfold slice0 in Hin. cbv zeta in Hin.
    apply (JsFacts.sort_In
             (fun a b => inject_Z (timestamp (snd b) - timestamp (snd a)))).
    match type of Hin with
    | In _ (firstn ?n ?l) =>
        rewrite <- (firstn_skipn n l); apply in_or_app; now left
    end.
Qed.

(** X27. Two invariants of the store, kept by every operation of the
    engine: there is one entry per id, and every entry is stored under
    its own [executionId]. They hold for the empty store, so for every
    store the engine builds. *)
Theorem X27_store_invariants (store : Store) :
  wf store -> keyed store ->
  (forall now requestId text,
     let store' := snd (createExecutionMemory store now requestId text) in
     wf store' /\ keyed store')
  /\ (forall id specialty approach result iteration errorMessage,
        let store' :=
          recordAttempt store id specialty approach result iteration
            errorMessage in
        wf store' /\ keyed store')
  /\ (forall now id filePath changeDescription,
        let store' :=
          recordAppliedChange store now id filePath changeDescription in
        wf store' /\ keyed store')
  /\ (forall id totalIterations,
        let store' := markSucceeded store id totalIterations in
        wf store' /\ keyed store')
  /\ (forall keepCount,
        wf (pruneMemory store keepCount)
        /\ keyed (pruneMemory store keepCount))
  /\ (forall file,
        wf (loadMemory store file) /\ keyed (loadMemory store file)).
Proof.
  intros Hwf Hkeyed.
  split.
  { intros now requestId text. cbv zeta. unfold createExecutionMemory.
    cbn [snd]. split; [now apply MemoryFacts.wf_set|].
    now apply keyed_set. }
  split.
  { intros id specialty approach result iteration errorMessage. cbv zeta.
    pose proof (update_entry store id
                  (fun memory =>
                     mkExecutionMemory (executionId memory)
                       (originalRequest memory)
                       (attemptedSolutions memory
                        ++ [mkAttemptedSolution specialty approach result
                              iteration errorMessage])
                       (appliedChanges memory) (em_succeeded memory)
                       (em_totalIterations memory) (timestamp memory)))
      as (_ & _ & _ & H1 & H2).
    split; [now apply H1 | now apply H2]. }
  split.
  { intros now id filePath changeDescription. cbv zeta.
    pose proof (update_entry store id
                  (fun memory =>
                     mkExecutionMemory (executionId memory)
                       (originalRequest memory) (attemptedSolutions memory)
                       (appliedChanges memory
                        ++ [mkAppliedChange filePath changeDescription now])
                       (em_succeeded memory) (em_totalIterations memory)
                       (timestamp memory)))
      as (_ & _ & _ & H1 & H2).
    split; [now apply H1 | now apply H2]. }
  split.
  { intros id totalIterations. cbv zeta.
    pose proof (update_entry store id
                  (fun memory =>
                     mkExecutionMemory (executionId memory)
                       (originalRequest memory) (attemptedSolutions memory)
                       (appliedChanges memory) true totalIterations
                       (timestamp memory)))
      as (_ & _ & _ & H1 & H2).
    split; [now apply H1 | now apply H2]. }
  split.
  { intro keepCount. now apply pruneMemory_wf_keyed. }
  intros [[memories|e]|]; cbn [loadMemory]; try (now split).
  split; [now apply load_wf | now apply load_keyed].
Qed.

(** The empty store, and what is loaded into it. *)
Lemma X27_witness :
  wf (loadMemory [] (Some (Normal [Scenarios.shortRequestEntry])))
  /\ keyed (loadMemory [] (Some (Normal [Scenarios.shortRequestEntry]))).
Proof.
  destruct (@X27_store_invariants []) as (_ & _ & _ & _ & _ & Hload).
  - apply MemoryFacts.wf_empty.
  - intros id m [].
  - apply Hload.
Defined.

Lemma reload (entries acc : Store) :
  NoDup (map_keys (acc ++ entries)) ->
  keyed entries ->
  fold_left (fun m memory => set m (executionId memory) memory)
    (List.map snd entries) acc
  = acc ++ entries.
Proof.
  revert acc. induction entries as [|[k v] entries IH]; intros acc H Hk; cbn.
  - now rewrite app_nil_r.
  - assert (Hid : executionId v = k) by (apply Hk; now left).
    rewrite Hid.
    assert (Hfresh : ~ In k (map_keys acc)).
    { unfold map_keys in *. rewrite map_app in H. cbn in H.
      apply NoDup_remove_2 in H. intro Hin. apply H, in_or_app. now left. }
    rewrite (@MemoryFacts.set_fresh acc k v Hfresh).
    rewrite IH.
    + now rewrite <- app_assoc.
    + now rewrite <- app_assoc.
    + intros id m Hin. apply Hk. now right.
Qed.

(** X28. Persistence round trip. Loading, into an empty store, the list
    of memories that [exportMemory] gives for a store brings that store
    back, entry for entry and in the same order. A file that is missing,
    or that cannot be read or parsed, leaves the store as it is. *)
Theorem X28_export_then_load (store : Store) :
  wf store -> keyed store ->
  loadMemory [] (Some (Normal (exportMemory store))) = store
  /\ (forall other e,
        loadMemory other None = other
        /\ loadMemory other (Some (Throw e)) = other).
Proof.
  intros Hwf Hkeyed. split; [|intros other e; split; reflexivity].
  unfold loadMemory, exportMemory, map_values.
  exact (@reload store [] Hwf Hkeyed).
Qed.

(** Three entries, each under its own id. *)
Lemma X28_witness :
  loadMemory [] (Some (Normal (exportMemory Scenarios.threeEntries)))
  = Scenarios.threeEntries.
Proof.
  destruct (@X28_export_then_load Scenarios.threeEntries) as [Hload _].
  - unfold wf. cbn. repeat constructor; cbn; intuition discriminate.
  - intros id m Hin. cbn in Hin.
    destruct Hin as [H | [H | [H | []]]]; injection H as <- <-; reflexivity.
  - exact Hload.
Defined.

(** *** Statistics *)

Lemma ratio_bounds (a b : Z) :
  0 <= a <= b -> 0 < b -> (0 <= inject_Z a / inject_Z b <= 1)%Q.
Proof.
  intros Hab Hb.
  assert (Hu : (0 < inject_Z b)%Q)
    by (change 0%Q with (inject_Z 0); rewrite <- Zlt_Qlt; lia).
  split.
  - apply Qle_shift_div_l; [exact Hu|].
    rewrite Qmult_0_l. change 0%Q with (inject_Z 0).
    rewrite <- Zle_Qle. lia.
  - apply Qle_shift_div_r; [exact Hu|].
    rewrite Qmult_1_l, <- Zle_Qle. lia.
Qed.

Lemma count_compare (a b : string * Z) :
  (inject_Z (snd b - snd a) <= 0)%Q
  <-> (inject_Z (snd b) <= inject_Z (snd a))%Q.
Proof.
  rewrite <- !Zle_Qle. change 0%Q with (inject_Z 0).
  rewrite <- Zle_Qle. lia.
Qed.

(** The counting loop of [getMemoryStats]: one more for the specialty of
    every attempt. *)
Lemma counting (solutions : list AttemptedSolution) :
  forall counts : list (string * Z),
    NoDup (map_keys counts) ->
    (forall k c, In (k, c) counts -> 1 <= c) ->
    let result :=
      fold_left
        (fun counts solution =>
           map_set String.eqb counts (agentSpecialty solution)
             (num_or (map_get String.eqb counts (agentSpecialty solution)) 0
              + 1))
        solutions counts in
    NoDup (map_keys result)
    /\ (forall k c, In (k, c) result -> 1 <= c)
    /\ forall agent,
         num_or (map_get String.eqb result agent) 0
         = num_or (map_get String.eqb counts agent) 0
           + Z.of_nat
               (List.length
                  (filter
                     (fun s => String.eqb (agentSpecialty s) agent)
                     solutions)).
Proof.
  induction solutions as [|solution solutions IH];
    intros counts Hnd Hpos; cbv zeta.
  - cbn. split; [exact Hnd|]. split; [exact Hpos|]. intro agent. lia.
  - cbn [fold_left].
    set (a := agentSpecialty solution).
    set (n := num_or (map_get String.eqb counts a) 0).
    assert (Hn : 0 <= n).
    { unfold n. destruct (map_get String.eqb counts a) as [c|] eqn:E;
        cbn; [|lia].
      apply map_get_In, Hpos in E. destruct (c =? 0); lia. }
    destruct (IH (map_set String.eqb counts a (n + 1)))
      as (H1 & H2 & H3).
    { now apply map_set_NoDup. }
    { intros k c Hin. apply map_In_set in Hin.
      destruct Hin as [Heq | Hin]; [injection Heq as -> ->; lia|].
      now apply Hpos with (k := k). }
    cbv zeta in H1, H2, H3.
    split; [exact H1|]. split; [exact H2|].
    intro agent. rewrite H3. cbn [filter]. fold a.
    destruct (String.eqb_spec a agent) as [<- | Hne].
    + rewrite map_get_set_same. cbn [num_or List.length].
      destruct (Z.eqb_spec (n + 1) 0); [lia|]. fold n. lia.
    + rewrite map_get_set_other by congruence. lia.
Qed.

(** X29. The statistics of the memory. The success rate lies between 0
    and 1 and the successful executions are at most the total; an empty
    store gives zeros. [mostCommonAgents] lists at most three
    specialties, none twice, each with at least one recorded attempt, and
    no specialty left out has more recorded attempts than a listed
    one. *)
Theorem X29_memory_statistics (store : Store) :
  let stats := getMemoryStats store in
  let attempts (agent : string) :=
    Z.of_nat
      (List.length
         (filter (fun s => String.eqb (agentSpecialty s) agent)
            (flat_map attemptedSolutions (exportMemory store)))) in
  totalExecutions stats = map_size store
  /\ 0 <= successfulExecutions stats <= totalExecutions stats
  /\ (0 <= successRate stats <= 1)%Q
  /\ (store = [] -> stats = mkMemoryStats 0 0 0 [] 0)
  /\ (List.length (mostCommonAgents stats) <= 3)%nat
  /\ NoDup (mostCommonAgents stats)
  /\ (forall agent, In agent (mostCommonAgents stats) -> 1 <= attempts agent)
  /\ (forall listed other,
        In listed (mostCommonAgents stats) ->
        ~ In other (mostCommonAgents stats) ->
        attempts other <= attempts listed).
Proof.
  cbv zeta. unfold getMemoryStats, exportMemory. cbv zeta.
  cbn [totalExecutions successfulExecutions successRate mostCommonAgents].
  set (memories := map_values store).
  set (successful := filter em_succeeded memories).
  assert (Hsucc : (List.length successful <= List.length memories)%nat)
    by apply filter_length_le.
  split; [unfold memories, map_values, map_size; now rewrite length_map|].
  split; [lia|].
  split.
  { destruct (Z.gtb_spec (Z.of_nat (List.length memories)) 0).
    - apply ratio_bounds; lia.
    - split; unfold Qle; cbn; lia. }
  split; [intros ->; reflexivity|].
  destruct (counting (flat_map attemptedSolutions memories) [])
    as (Hnd & Hpos & Hcount); [constructor | intros k c [] |].
  cbv zeta in Hnd, Hpos, Hcount. cbn [map_get num_or] in Hcount.
  fold (countAgents memories) in Hnd, Hpos, Hcount.
  set (counts := countAgents memories) in *.
  set (compare := fun a b : string * Z => inject_Z (snd b - snd a)).
  set (sorted := Js.sort compare counts).
  assert (Hperm : Permutation sorted counts) by apply JsFacts.sort_perm.
  assert (Hsorted :
            StronglySorted
              (descending (fun e : string * Z => inject_Z (snd e))) sorted)
    by (apply JsFacts.sort_sorted, count_compare).
  rewrite MemoryFacts.slice0_nonneg by lia.
  change (Z.to_nat 3) with 3%nat.
  assert (Hentry : forall agent c,
            In (agent, c) counts ->
            c = Z.of_nat
                  (List.length
                     (filter (fun s => String.eqb (agentSpecialty s) agent)
                        (flat_map attemptedSolutions memories)))
            /\ 1 <= c).
  { intros agent c Hin. pose proof (Hpos _ _ Hin) as Hc.
    apply (map_In_get _ _ _ Hnd) in Hin.
    specialize (Hcount agent). rewrite Hin in Hcount. cbn in Hcount.
    destruct (Z.eqb_spec c 0); lia. }
  assert (Hkept : forall agent,
            In agent (List.map fst (firstn 3 sorted)) ->
            exists c, In (agent, c) (firstn 3 sorted) /\ In (agent, c) counts).
  { intros agent Hin. apply in_map_iff in Hin.
    destruct Hin as ([k c] & Hk & Hin). cbn in Hk. subst k.
    exists c. split; [exact Hin|].
    apply (Permutation_in _ Hperm).
    rewrite <- (firstn_skipn 3 sorted). apply in_or_app. now left. }
  split; [rewrite length_map, length_firstn; lia|].
  split.
  { rewrite <- firstn_map. apply MemoryFacts.NoDup_firstn.
    eapply Permutation_NoDup; [|exact Hnd].
    apply Permutation_map, Permutation_sym, Hperm. }
  split.
  { intros agent Hin. destruct (Hkept agent Hin) as (c & _ & Hc).
    destruct (Hentry agent c Hc) as [Heq Hc1]. lia. }
  intros listed other Hlisted Hother.
  destruct (Hkept listed Hlisted) as (c & Hfirst & Hc).
  destruct (Hentry listed c Hc) as [Heq Hc1]. rewrite <- Heq.
  pose proof (Hcount other) as Ho.
  destruct (map_get String.eqb counts other) as [co|] eqn:Hget;
    cbn [num_or] in Ho; [|lia].
  apply map_get_In in Hget.
  destruct (Hentry other co Hget) as [Heqo Hco]. rewrite <- Heqo.
  assert (Hskip : In (other, co) (skipn 3 sorted)).
  { apply (Permutation_in _ (Permutation_sym Hperm)) in Hget.
    rewrite <- (firstn_skipn 3 sorted) in Hget.
    apply in_app_or in Hget. destruct Hget as [Hin | Hin]; [|exact Hin].
    exfalso. apply Hother. apply in_map_iff. now exists (other, co). }
  rewrite <- (firstn_skipn 3 sorted) in Hsorted.
  pose proof (@JsFacts.sorted_app_order _ _ _ _ Hsorted _ _ Hfirst Hskip)
    as Hord.
  unfold descending in Hord. cbn in Hord. now rewrite <- Zle_Qle in Hord.
Qed.

End MemoryStoreFacts.

(* ================================================================== *)
(** ** The data analysis agent *)
(* ================================================================== *)

Module DataAgentFacts.

Import SpecialistAgent DataAnalysisSpecialistAgent.

(** [findRelevantDataFiles] finds no file, so every suggestion of the
    analysis lists no file and its code changes name the empty path. *)
Lemma analysis_names_no_file (context : AgentExecutionContext) :
  Forall
    (fun s =>
       files s = [] /\ Forall (fun c => filePath c = "") (codeChanges s))
    (analyzeContext context).
Proof.
  unfold analyzeContext. cbv zeta.
  destruct (detectProblemType context); repeat constructor.
Qed.

(** Only the validation analysis has a suggestion above the success
    threshold. *)
Lemma analysis_below_threshold (context : AgentExecutionContext) :
  detectProblemType context <> DATA_VALIDATION ->
  forall s, In s (analyzeContext context) -> (fs_confidence s <= 8 # 10)%Q.
Proof.
  intros Hne s. unfold analyzeContext. cbv zeta.
  destruct (detectProblemType context); [| |congruence| | | |]; cbn;
    intuition (subst; cbn; unfold Qle; cbn; lia).
Qed.

Lemma analysis_nonempty (context : AgentExecutionContext) :
  analyzeContext context <> [].
Proof.
  unfold analyzeContext. cbv zeta.
  destruct (detectProblemType context); discriminate.
Qed.

Section Agent.

Variable World : Type.
Variable applyCodeChange : CodeChange -> World -> Completion unit * World.
Variable budget : option Z.

Lemma applyCodeChanges_no_file (changes : list CodeChange) (w : World) :
  Forall (fun c => filePath c = "") changes ->
  applyCodeChanges applyCodeChange changes w = (Normal tt, w).
Proof.
  induction 1 as [|c changes Hc _ IH]; [reflexivity|].
  cbn [applyCodeChanges]. rewrite Hc. exact IH.
Qed.

(** On such a suggestion [applyFix] touches no file: it records the
    iteration and returns [true]. *)
Lemma applyFix_no_file (s : FixSuggestion) (st : AgentState World) :
  files s = [] ->
  Forall (fun c => filePath c = "") (codeChanges s) ->
  applyFix applyCodeChange s st
  = (Normal true,
     recordIteration
       (mkIterationResult true
          (Z.of_nat (List.length (iterationHistory st)) + 1)
          [fs_description s] None [])
       st).
Proof.
  intros Hfiles Hchanges. unfold applyFix.
  rewrite (@applyCodeChanges_no_file _ (world st) Hchanges), Hfiles.
  destruct st; reflexivity.
Qed.

(** The loop of the agent on suggestions that name no file: every pass
    applies its suggestion and records its description, and the world
    stays as it is. *)
Lemma loop_records_descriptions (remaining : nat) :
  forall iteration suggestions st exit st' passes,
    Forall
      (fun s =>
         files s = [] /\ Forall (fun c => filePath c = "") (codeChanges s))
      suggestions ->
    loop (make applyCodeChange budget) remaining iteration suggestions st
    = (exit, st', passes) ->
    world st' = world st
    /\ flat_map ir_changes (iterationHistory st')
       = flat_map ir_changes (iterationHistory st)
         ++ List.map (fun p => fs_description (pass_suggestion p)) passes
    /\ flat_map ir_modifiedFiles (iterationHistory st')
       = flat_map ir_modifiedFiles (iterationHistory st)
    /\ Forall
         (fun p =>
            pass_applied p = Normal true /\ In (pass_suggestion p) suggestions)
         passes.
Proof.
  induction remaining as [|remaining IH];
    intros iteration suggestions st exit st' passes Hall H.
  - cbn in H. injection H as <- <- <-. cbn. rewrite app_nil_r.
    repeat split. constructor.
  - cbn [loop] in H.
    destruct suggestions as [|s0 rest] eqn:E.
    { cbn in H. injection H as <- <- <-. cbn. rewrite app_nil_r.
      repeat split. constructor. }
    rewrite <- E in *.
    assert (Hne : suggestions <> []) by (rewrite E; discriminate).
    destruct (@AgentFacts.selectBestSuggestion_spec suggestions iteration Hne)
      as (s & sorted & Hsel & Hperm & Hin & _).
    rewrite Hsel in H.
    assert (Hs : files s = []
                 /\ Forall (fun c => filePath c = "") (codeChanges s)).
    { rewrite Forall_forall in Hall. now apply Hall. }
    destruct Hs as [Hfiles Hchanges].
    change (SpecialistAgent.applyFix (make applyCodeChange budget) s st)
      with (applyFix applyCodeChange s st) in H.
    rewrite (@applyFix_no_file s st Hfiles Hchanges) in H.
    cbn [negb] in H.
    set (st1 := recordIteration _ st) in H.
    assert (Hst1 : world st1 = world st
                   /\ flat_map ir_changes (iterationHistory st1)
                      = flat_map ir_changes (iterationHistory st)
                        ++ [fs_description s]
                   /\ flat_map ir_modifiedFiles (iterationHistory st1)
                      = flat_map ir_modifiedFiles (iterationHistory st)).
    { unfold st1, recordIteration. cbn [world iterationHistory].
      rewrite !flat_map_app. cbn. rewrite !app_nil_r. repeat split. }
    destruct Hst1 as (Hw1 & Hc1 & Hf1).
    assert (Hsorted : Forall
                        (fun s =>
                           files s = []
                           /\ Forall (fun c => filePath c = "")
                                (codeChanges s))
                        sorted).
    { rewrite Forall_forall in *. intros x Hx. apply Hall.
      eapply Permutation_in; eassumption. }
    destruct (Qgtb (fs_confidence s) (8 # 10)).
    + injection H as <- <- <-. cbn [List.map pass_suggestion].
      split; [exact Hw1|]. split; [exact Hc1|]. split; [exact Hf1|].
      constructor; [|constructor]. split; [reflexivity | exact Hin].
    + destruct (loop (make applyCodeChange budget) remaining (iteration + 1)
                  sorted st1)
        as [[exit1 st2] passes1] eqn:Hloop.
      injection H as <- <- <-.
      destruct (IH _ _ _ _ _ _ Hsorted Hloop) as (Hw & Hc & Hf & Hp).
      split; [congruence|].
      split.
      { rewrite Hc, Hc1, <- app_assoc. reflexivity. }
      split; [congruence|].
      constructor; [split; [reflexivity | exact Hin]|].
      rewrite Forall_forall in *. intros p Hp'.
      destruct (Hp p Hp') as [Happlied Hinp]. split; [exact Happlied|].
      eapply Permutation_in; eassumption.
Qed.

(** X30. The data analysis agent, whatever its budget and the file
    system. Its analysis finds no file, so no pass touches the world,
    every pass applies its suggestion, which is one of the analysis, and
    the changes reported are the descriptions of the suggestions of the
    passes, in order, with no modified file. The run succeeds exactly
    when the budget is at least 1 and the error is taken for a
    validation problem, the only one with a suggestion above the success
    threshold: it then ends after one pass, having applied the null
    check. Otherwise it makes a pass for every iteration of the budget
    and fails, reporting one iteration more. *)
Theorem X30_data_agent_outcome
  (context : AgentExecutionContext) (st : AgentState World) :
  let a := make applyCodeChange budget in
  let result := fst (fst (execute_passes a context st)) in
  let final := snd (fst (execute_passes a context st)) in
  let passes := snd (execute_passes a context st) in
  maxIterations a
  = match budget with
    | Some n => if n =? 0 then 7 else n
    | None => 7
    end
  /\ world final = world st
  /\ changes result
     = List.map (fun p => fs_description (pass_suggestion p)) passes
  /\ modifiedFiles result = []
  /\ error result = None
  /\ Forall
       (fun p =>
          pass_applied p = Normal true
          /\ In (pass_suggestion p) (analyzeContext context))
       passes
  /\ (success result = true
      <-> 1 <= maxIterations a
          /\ detectProblemType context = DATA_VALIDATION)
  /\ (success result = true ->
      iterations result = 1
      /\ changes result = ["Add null/undefined validation"])
  /\ (success result = false ->
      iterations result = Z.max 0 (maxIterations a) + 1
      /\ Z.of_nat (List.length passes) = Z.max 0 (maxIterations a))
  /\ recommendations result
     = generateRecommendations (success result) context
         (generateRecommendations_base a (success result) context).
Proof.
  cbv zeta.
  set (a := make applyCodeChange budget).
  split; [destruct budget as [n|]; reflexivity|].
  unfold execute_passes.
  change (SpecialistAgent.analyzeContext a context
            (mkAgentState [] (world st)))
    with (@Normal (list FixSuggestion) (analyzeContext context),
          mkAgentState [] (world st)).
  cbv iota beta.
  pose proof (analysis_nonempty context) as Hne.
  replace (List.length (analyzeContext context) =? 0)%nat with false
    by (destruct (analyzeContext context); [congruence | reflexivity]).
  destruct (loop a (Z.to_nat (maxIterations a)) 1 (analyzeContext context)
              (mkAgentState [] (world st)))
    as [[exit st'] passes] eqn:Hloop.
  destruct (@loop_records_descriptions _ _ _ _ _ _ _
              (analysis_names_no_file context) Hloop)
    as (Hw & Hc & Hf & Hp).
  cbn [iterationHistory world flat_map app] in Hw, Hc, Hf.
  assert (Hcases :
            match exit with
            | Finished true i =>
                1 <= maxIterations a
                /\ detectProblemType context = DATA_VALIDATION
                /\ i = 1
                /\ List.map (fun p => fs_description (pass_suggestion p))
                     passes
                   = ["Add null/undefined validation"]
            | Finished false i =>
                ~ (1 <= maxIterations a
                   /\ detectProblemType context = DATA_VALIDATION)
                /\ i = Z.max 0 (maxIterations a) + 1
                /\ Z.of_nat (List.length passes) = Z.max 0 (maxIterations a)
            | Threw _ _ => False
            end).
  { destruct (Z.to_nat (maxIterations a)) as [|remaining] eqn:Hrem.
    - cbn in Hloop. injection Hloop as <- <- <-. cbn [List.length].
      split; [lia|]. split; lia.
    - assert (Hmax : 1 <= maxIterations a) by lia.
      assert (Hvalid : {detectProblemType context = DATA_VALIDATION}
                       + {detectProblemType context <> DATA_VALIDATION})
        by (destruct (detectProblemType context);
            (now left) || (right; discriminate)).
      destruct Hvalid as [Hv | Hv].
      + revert Hloop. unfold analyzeContext. cbv zeta. rewrite Hv.
        cbn [loop].
        change (selectBestSuggestion
                  (generateValidationFixSuggestions
                     (findRelevantDataFiles (codebaseContext context))) 1)
          with (Some (suggest ADD_FUNCTION "Add null/undefined validation" []
                        "Add safety checks for nullable fields" (85 # 100)),
                generateValidationFixSuggestions []).
        cbv beta iota.
        change (SpecialistAgent.applyFix a) with (applyFix applyCodeChange).
        rewrite applyFix_no_file; [|reflexivity | repeat constructor].
        cbn. intro Hloop. injection Hloop as <- <- <-.
        cbn. repeat split; assumption.
      + destruct (@AgentRuns.loop_exhausts World a (S remaining) 1
                    (analyzeContext context) (mkAgentState [] (world st)) Hne)
          as (st2 & passes2 & Hloop2 & Hlen).
        { intros s st0 Hs. exists true. eexists.
          split.
          - change (SpecialistAgent.applyFix a)
              with (applyFix applyCodeChange).
            pose proof (analysis_names_no_file context) as Hall.
            rewrite Forall_forall in Hall.
            destruct (Hall s Hs) as [Hfiles Hchanges].
            apply (@applyFix_no_file s st0 Hfiles Hchanges).
          - intros _. now apply (@analysis_below_threshold context). }
        remember (1 + Z.of_nat (S remaining)) as i2 eqn:Hi2 in Hloop2.
        rewrite Hloop2 in Hloop. injection Hloop as <- <- <-.
        split; [tauto|]. split; lia. }
  destruct exit as [[|] i | e i]; [| |contradiction];
    cbn [fst snd buildResult success iterations error changes modifiedFiles
         recommendations];
    rewrite Hc, Hf.
  - destruct Hcases as (Hmax & Hv & Hi & Hdesc).
    split; [exact Hw|]. split; [reflexivity|]. split; [reflexivity|].
    split; [reflexivity|]. split; [exact Hp|].
    split; [tauto|]. split; [intros _; now split|].
    split; [discriminate | reflexivity].
  - destruct Hcases as (Hnot & Hi & Hlen).
    split; [exact Hw|]. split; [reflexivity|]. split; [reflexivity|].
    split; [reflexivity|]. split; [exact Hp|].
    split; [split; [discriminate | tauto]|].
    split; [discriminate|]. split; [intros _; now split | reflexivity].
Qed.

End Agent.

(** The agent as a new orchestrator registers it, on a missing required
    field: a validation problem, settled by the first pass. *)
Lemma X30_witness :
  let result :=
    fst (fst (execute_passes (make Scenarios.noFiles (Some 7))
                (mkAgentExecutionContext "import the data" ""
                   (Some "Error: field id is required") None)
                (mkAgentState [] tt))) in
  success result = true
  /\ iterations result = 1
  /\ changes result = ["Add null/undefined validation"].
Proof.
  destruct (@X30_data_agent_outcome unit Scenarios.noFiles (Some 7)
              (mkAgentExecutionContext "import the data" ""
                 (Some "Error: field id is required") None)
              (mkAgentState [] tt))
    as (_ & _ & _ & _ & _ & _ & Hsuccess & Hone & _).
  assert (Hs : 1 <= 7 /\ DATA_VALIDATION = DATA_VALIDATION)
    by (split; [lia | reflexivity]).
  apply Hsuccess in Hs.
  cbv zeta. split; [exact Hs|]. exact (Hone Hs).
Defined.

End DataAgentFacts.
